(** * Parachain commitment scanner: a shallow embedding and its properties

    The development follows the [Scanner] of the relayer's package
    [parachain]: it compares the channel nonces on both sides of the bridge, walks
    the parachain backwards collecting bundle proofs, and resolves for every
    collected block the relay-chain block that included it.

    Remote procedure calls are answered by the connections held in the
    [Scanner] record; every computation returns the list of calls it issued
    together with its outcome, so that statements about which blocks are
    visited are statements about that list. *)

From Stdlib Require Import ZArith List Bool Lia Sorting.Sorted Permutation.
From Stdlib Require Ascii String.
From stdpp Require Import base gmap sets list.

Set Warnings "-clear-no-such-hyp".

Open Scope Z_scope.

(** ** Machine integers *)

(** Go's [uint64] and [uint32] arithmetic wraps around. *)
Definition wrap64 (z : Z) : Z := z mod 2 ^ 64.
Definition wrap32 (z : Z) : Z := z mod 2 ^ 32.

(** [big.Int.Uint64]: the low 64 bits of the magnitude. *)
Definition Uint64 (z : Z) : Z := Z.abs z mod 2 ^ 64.

(** ** Data carried through the scan *)

Module types.
(** [types.H256], [types.Hash] and [types.AccountID] are 32-byte arrays,
    read here as 256-bit numbers. *)
Abbreviation H256 := Z (only parsing).
Abbreviation Hash := Z (only parsing).
Abbreviation AccountID := Z (only parsing).

(** An item of [types.Digest]; only [Other] items carry auxiliary data. *)
Record DigestItem : Type := mkDigestItem {
  IsOther : bool;
  AsOther : list Z
}.

Record Header : Type := mkHeader {
  ParentHash : Hash;
  Number : Z;                      (* types.BlockNumber, a uint32 *)
  StateRoot : Hash;
  ExtrinsicsRoot : Hash;
  Digest : list DigestItem
}.

Abbreviation StorageKey := (list Z) (only parsing).
End types.

(** The auxiliary digest item: [AsCommitment.Hash] is flattened to
    [CommitmentHash]. *)
Record AuxiliaryDigestItem : Type := mkAux {
  IsCommitment : bool;
  CommitmentHash : types.H256
}.

Record BasicOutboundChannelMessageBundle : Type := mkBundle {
  Account : types.AccountID;
  Nonce : Z;                         (* types.UCompact, a big.Int *)
  Messages : list (list Z)
}.

Record BasicChannelEvent : Type := mkEvent {
  Hash : types.H256;
  Bundles : list BasicOutboundChannelMessageBundle
}.

Record MerkleProof : Type := mkMerkleProof {
  Root : types.H256;
  InnerHashes : list types.H256
}.

Record BundleProof : Type := mkBundleProof {
  Bundle : BasicOutboundChannelMessageBundle;
  Proof_ : MerkleProof
}.

Record PersistedValidationData : Type := mkValidationData {
  ParentHead : list Z;
  RelayParentNumber : Z;             (* uint32 *)
  RelayParentStorageRoot : types.Hash;
  MaxPOVSize : Z
}.

Record ProofInput : Type := mkProofInput {
  ParaID : Z;                        (* uint32 *)
  RelayBlockNumber : Z;              (* uint64 *)
  ParaHeads : list types.Header
}.

(** [ProofOutput] is never set by the scanner and is left out. *)
Record Task : Type := mkTask {
  Header : types.Header;
  BasicChannelProofs : list BundleProof;
  ProofInput_ : option ProofInput
}.

(** The two storage items the scanner reads. *)
Inductive StorageItem : Type :=
| BasicOutboundChannel_Nonce (account : types.AccountID)
| ParachainSystem_ValidationData.

(** ** Calls and errors *)

Inductive Call : Type :=
| RelayGetBlockHash (blockNumber : Z)
| RelayFetchParachainHead (relayBlockHash : types.Hash) (paraID : Z)
| RelayFetchParachainHeads (relayBlockHash : types.Hash)
| ParaGetBlockHash (blockNumber : Z)
| ParaGetHeader (blockHash : types.Hash)
| ParaGetStorage (key : types.StorageKey) (blockHash : types.Hash)
| ParaGetMerkleProof (commitmentHash : types.H256) (bundleIndex : Z)
| QueryEvent (blockHash : types.Hash)
| EthNonce (account : types.AccountID).

(** One constructor for each place where the scanner makes an error. *)
Inductive error : Type :=
| CallFailed (c : Call)
| NewBasicInboundChannelFailed
| CreateStorageKeyFailed (item : StorageItem)
| ExtractDigestItemsFailed
| NotRegistered (paraID : Z)
| CommittedEventNotFound
| CommitmentHashMismatch
| ValidationDataNotFound (blockHash : types.Hash)
| ScanTerminated
| FindInclusionFailed (paraBlockNumber : Z) (cause : error).

Inductive outcome (A : Type) : Type :=
| Ok (a : A)
| Err (e : error)
| OutOfFuel.
Arguments Ok {A} a.
Arguments Err {A} e.
Arguments OutOfFuel {A}.

(** A computation: the calls issued, in order, and the outcome. *)
Definition M (A : Type) : Type := (list Call * outcome A)%type.

Definition ret {A} (a : A) : M A := ([], Ok a).
Definition fail {A} (e : error) : M A := ([], Err e).
Definition bind {A B} (m : M A) (k : A -> M B) : M B :=
  match m with
  | (l, Ok a) => let (l', r) := k a in (l ++ l', r)
  | (l, Err e) => (l, Err e)
  | (l, OutOfFuel) => (l, OutOfFuel)
  end.

Declare Scope scan_scope.
Delimit Scope scan_scope with scan.
Notation "'do' x <- m ; k" := (bind m (fun x => k))
  (at level 10, x name, m at level 100, k at level 200) : scan_scope.
Notation "'do' ' p <- m ; k" := (bind m (fun x => match x with p => k end))
  (at level 10, p pattern, m at level 100, k at level 200) : scan_scope.
Open Scope scan_scope.

(** An RPC: one call in the log; [None] is the call's error. *)
Definition rpc {A} (c : Call) (reply : option A) : M A :=
  ([c], match reply with Some a => Ok a | None => Err (CallFailed c) end).

(** A local computation that may fail. *)
Definition orFail {A} (e : error) (o : option A) : M A :=
  match o with Some a => ret a | None => fail e end.

(** [fmt.Errorf("...: %w", err)] around a call. *)
Definition wrapError {A} (f : error -> error) (m : M A) : M A :=
  match m with
  | (l, Err e) => (l, Err (f e))
  | _ => m
  end.

(** The error of a call as a value, for the callers that go on after it. *)
Definition catch {A} (m : M A) : M (error + A) :=
  match m with
  | (l, Ok a) => (l, Ok (inr a))
  | (l, Err e) => (l, Ok (inl e))
  | (l, OutOfFuel) => (l, OutOfFuel)
  end.

Definition calls {A} (m : M A) : list Call := fst m.
Definition result {A} (m : M A) : outcome A := snd m.

(** ** The connections *)

Record RelayConnection : Type := mkRelay {
  relay_GetBlockHash : Z -> option types.Hash;
  FetchParachainHead : types.Hash -> Z -> option (option types.Header);
  FetchParachainHeads : types.Hash -> option (list types.Header)
}.

Record ParachainConnection : Type := mkPara {
  para_GetBlockHash : Z -> option types.Hash;
  para_GetHeader : types.Hash -> option types.Header;
  CreateStorageKey : StorageItem -> option types.StorageKey;
  GetStorage_Nonce : types.StorageKey -> types.Hash -> option (option Z);
  GetStorage_ValidationData :
    types.StorageKey -> types.Hash -> option (option PersistedValidationData);
  basicOutboundChannel_getMerkleProof : types.H256 -> Z -> option MerkleProof
}.

Record EthereumConnection : Type := mkEth {
  NewBasicInboundChannel : option unit;
  basicContract_Nonce : types.AccountID -> option Z
}.

(** [ExtractAuxiliaryDigestItems] is a function of the package that decodes
    the header's digest; its decoder is kept as a field next to the
    connections. *)
Record Scanner : Type := mkScanner {
  ethConn : EthereumConnection;
  relayConn : RelayConnection;
  paraConn : ParachainConnection;
  paraID : Z;
  eventQueryClient : types.Hash -> option (option BasicChannelEvent);
  accounts : list types.AccountID;
  ExtractAuxiliaryDigestItems :
    list types.DigestItem -> option (list AuxiliaryDigestItem)
}.

(** ** scanForBasicChannelProofs *)

(** [delete(m, account); return len(m) == 0], the map passed back. *)
Definition markAccountScanDone (scanBasicChannelAccounts : gset Z)
    (accountID : types.AccountID) : gset Z * bool :=
  let m := scanBasicChannelAccounts ∖ {[accountID]} in
  (m, bool_decide (size m = 0%nat)).

(** The loop state of [scanForBasicChannelProofs]: the accounts still
    scanned (shared with the caller), the proofs collected and the done
    flag. *)
Record ScanState : Type := mkScanState {
  scanAccounts : gset Z;
  proofs : list BundleProof;
  scanDone : bool
}.

Section Scanner.
Variable s : Scanner.

(** The call of [basicOutboundChannel_getMerkleProof] with the encoding of
    its argument and the decoding of its answer into a Merkle proof: the
    connection answers with the decoded proof, or with none when one of
    these steps fails. *)
Definition fetchBundleProof (commitmentHash : types.H256) (bundleIndex : Z)
    (bundle : BasicOutboundChannelMessageBundle) : M BundleProof :=
  do proof <- rpc (ParaGetMerkleProof commitmentHash bundleIndex)
      (basicOutboundChannel_getMerkleProof (paraConn s) commitmentHash bundleIndex);
  ret (mkBundleProof bundle proof).

(** The body of the loop over the bundles. *)
Definition scanBundle (digestItemHash : types.H256)
    (basicChannelAccountNonces : gmap Z Z)
    (bundleIndex : Z) (bundle : BasicOutboundChannelMessageBundle)
    (st : ScanState) : M ScanState :=
  if negb (bool_decide (Account bundle ∈ scanAccounts st)) then ret st
  else
    let nonceToFind := default 0 (basicChannelAccountNonces !! Account bundle) in
    let bundleNonce := Uint64 (Nonce bundle) in
    if bundleNonce <? nonceToFind then
      let (m, done) := markAccountScanDone (scanAccounts st) (Account bundle) in
      ret (mkScanState m (proofs st) done)
    else
      do basicChannelBundleProof <- fetchBundleProof digestItemHash bundleIndex bundle;
      if negb (Root (Proof_ basicChannelBundleProof) =? digestItemHash) then
        let (m, done) := markAccountScanDone (scanAccounts st) (Account bundle) in
        ret (mkScanState m (proofs st) done)
      else if nonceToFind <? bundleNonce then
        ret (mkScanState (scanAccounts st)
               (proofs st ++ [basicChannelBundleProof]) (scanDone st))
      else if bundleNonce =? nonceToFind then
        let (m, done) := markAccountScanDone (scanAccounts st) (Account bundle) in
        ret (mkScanState m (proofs st ++ [basicChannelBundleProof]) done)
      else ret st.

Fixpoint scanBundles (digestItemHash : types.H256)
    (basicChannelAccountNonces : gmap Z Z)
    (bundleIndex : Z) (bundles : list BasicOutboundChannelMessageBundle)
    (st : ScanState) : M ScanState :=
  match bundles with
  | [] => ret st
  | bundle :: rest =>
      do st' <- scanBundle digestItemHash basicChannelAccountNonces bundleIndex bundle st;
      scanBundles digestItemHash basicChannelAccountNonces (bundleIndex + 1) rest st'
  end.

(** The proofs and the done flag start afresh in every call; the map of
    scanned accounts is the caller's. *)
Definition scanForBasicChannelProofs (digestItemHash : types.H256)
    (basicChannelAccountNonces : gmap Z Z)
    (basicChannelScanAccounts : gset Z)
    (bundles : list BasicOutboundChannelMessageBundle) : M ScanState :=
  scanBundles digestItemHash basicChannelAccountNonces 0 bundles
    (mkScanState basicChannelScanAccounts [] false).

(** ** findTasksImpl *)

(** The body of the loop over the digest items of one block; [events] is
    the block's [Committed] event, if any. *)
Definition scanDigestItem (basicChannelAccountNonces : gmap Z Z)
    (events : option BasicChannelEvent) (digestItem : AuxiliaryDigestItem)
    (st : ScanState) : M ScanState :=
  if negb (IsCommitment digestItem) then ret st
  else if negb (scanDone st) then
    match events with
    | None => fail CommittedEventNotFound
    | Some ev =>
        let digestItemHash := CommitmentHash digestItem in
        if negb (Hash ev =? digestItemHash) then fail CommitmentHashMismatch
        else
          do result <- scanForBasicChannelProofs digestItemHash
              basicChannelAccountNonces (scanAccounts st) (Bundles ev);
          ret (mkScanState (scanAccounts result) (proofs result) (scanDone result))
    end
  else ret st.

Fixpoint scanDigestItems (basicChannelAccountNonces : gmap Z Z)
    (events : option BasicChannelEvent) (digestItems : list AuxiliaryDigestItem)
    (st : ScanState) : M ScanState :=
  match digestItems with
  | [] => ret st
  | digestItem :: rest =>
      do st' <- scanDigestItem basicChannelAccountNonces events digestItem st;
      scanDigestItems basicChannelAccountNonces events rest st'
  end.

(** The state of the backward walk. *)
Record WalkState : Type := mkWalkState {
  currentBlockNumber : Z;
  basicChannelScanAccounts : gset Z;
  scanBasicChannelDone : bool;
  tasks : list Task
}.

Definition walkCondition (w : WalkState) : bool :=
  negb (scanBasicChannelDone w) && (0 <? currentBlockNumber w).

(** One iteration of the walk: the block [currentBlockNumber w]. *)
Definition walkBlock (basicChannelAccountNonces : gmap Z Z) (w : WalkState)
    : M WalkState :=
  do blockHash <- rpc (ParaGetBlockHash (currentBlockNumber w))
      (para_GetBlockHash (paraConn s) (currentBlockNumber w));
  do header <- rpc (ParaGetHeader blockHash) (para_GetHeader (paraConn s) blockHash);
  do digestItems <- orFail ExtractDigestItemsFailed
      (ExtractAuxiliaryDigestItems s (types.Digest header));
  if (length digestItems =? 0)%nat then
    ret (mkWalkState (wrap64 (currentBlockNumber w - 1))
           (basicChannelScanAccounts w) (scanBasicChannelDone w) (tasks w))
  else
    do events <- rpc (QueryEvent blockHash) (eventQueryClient s blockHash);
    do st <- scanDigestItems basicChannelAccountNonces events digestItems
        (mkScanState (basicChannelScanAccounts w) [] (scanBasicChannelDone w));
    let tasks' :=
      if (0 <? length (proofs st))%nat
      then tasks w ++ [mkTask header (proofs st) None]
      else tasks w in
    ret (mkWalkState (wrap64 (currentBlockNumber w - 1))
           (scanAccounts st) (scanDone st) tasks').

(** The walk; the loop condition is tested before the fuel. *)
Fixpoint walk (fuel : nat) (basicChannelAccountNonces : gmap Z Z)
    (w : WalkState) : M WalkState :=
  if walkCondition w then
    match fuel with
    | O => ([], OutOfFuel)
    | S fuel' =>
        do w' <- walkBlock basicChannelAccountNonces w;
        walk fuel' basicChannelAccountNonces w'
    end
  else ret w.

(** [sort.SliceStable] with [less i j := tasks[i].Header.Number <
    tasks[j].Header.Number]: a stable insertion sort. *)
Fixpoint insertTask (t : Task) (sorted : list Task) : list Task :=
  match sorted with
  | [] => [t]
  | u :: rest =>
      if types.Number (Header u) <? types.Number (Header t)
      then u :: insertTask t rest
      else t :: u :: rest
  end.

Fixpoint sortTasks (ts : list Task) : list Task :=
  match ts with
  | [] => []
  | t :: rest => insertTask t (sortTasks rest)
  end.

Definition initialWalkState (lastParaBlockNumber : Z)
    (basicChannelAccountNonces : gmap Z Z) : WalkState :=
  let basicChannelScanAccounts := dom basicChannelAccountNonces in
  mkWalkState lastParaBlockNumber basicChannelScanAccounts
    (bool_decide (size basicChannelScanAccounts = 0%nat)) [].

(** The walk is given one unit of fuel for each block from
    [lastParaBlockNumber] down to 1. *)
Definition findTasksImpl (lastParaBlockNumber : Z)
    (basicChannelAccountNonces : gmap Z Z) : M (list Task) :=
  do w <- walk (Z.to_nat lastParaBlockNumber) basicChannelAccountNonces
      (initialWalkState lastParaBlockNumber basicChannelAccountNonces);
  ret (sortTasks (tasks w)).

(** ** gatherProofInputs *)

Definition FinalizationTimeout : Z := 4.

(** The window loop of [findInclusionBlockNumber]; [i] and [startBlock]
    are [uint32]. *)
Fixpoint inclusionLoop (fuel : nat) (paraBlockNumber startBlock i : Z) : M Z :=
  if i <? wrap32 (startBlock + FinalizationTimeout) then
    match fuel with
    | O => ([], OutOfFuel)
    | S fuel' =>
        do relayBlockHash <- rpc (RelayGetBlockHash i)
            (relay_GetBlockHash (relayConn s) i);
        do paraHead <- rpc (RelayFetchParachainHead relayBlockHash (paraID s))
            (FetchParachainHead (relayConn s) relayBlockHash (paraID s));
        match paraHead with
        | None => fail (NotRegistered (paraID s))
        | Some paraHead =>
            if paraBlockNumber =? types.Number paraHead then ret i
            else inclusionLoop fuel' paraBlockNumber startBlock (wrap32 (i + 1))
        end
    end
  else fail ScanTerminated.

(** The window loop is given one unit of fuel for each of its
    [FinalizationTimeout] blocks. *)
Definition findInclusionBlockNumber (paraBlockNumber : Z) : M Z :=
  do validationDataKey <- orFail (CreateStorageKeyFailed ParachainSystem_ValidationData)
      (CreateStorageKey (paraConn s) ParachainSystem_ValidationData);
  do paraBlockHash <- rpc (ParaGetBlockHash paraBlockNumber)
      (para_GetBlockHash (paraConn s) paraBlockNumber);
  do validationData <- rpc (ParaGetStorage validationDataKey paraBlockHash)
      (GetStorage_ValidationData (paraConn s) validationDataKey paraBlockHash);
  match validationData with
  | None => fail (ValidationDataNotFound paraBlockHash)
  | Some validationData =>
      let startBlock := wrap32 (RelayParentNumber validationData + 1) in
      inclusionLoop (Z.to_nat FinalizationTimeout) paraBlockNumber startBlock
        (wrap32 (RelayParentNumber validationData + 1))
  end.

(** The proof input of one task: the body of the loop of
    [gatherProofInputs]. *)
Definition gatherProofInput (task : Task) : M ProofInput :=
  do relayBlockNumber <-
      wrapError (FindInclusionFailed (types.Number (Header task)))
        (findInclusionBlockNumber (types.Number (Header task)));
  do relayBlockHash <- rpc (RelayGetBlockHash relayBlockNumber)
      (relay_GetBlockHash (relayConn s) relayBlockNumber);
  do parachainHeads <- rpc (RelayFetchParachainHeads relayBlockHash)
      (FetchParachainHeads (relayConn s) relayBlockHash);
  ret (mkProofInput (paraID s) relayBlockNumber parachainHeads).

Definition setProofInput (task : Task) (input : ProofInput) : Task :=
  mkTask (Header task) (BasicChannelProofs task) (Some input).

(** [gatherProofInputs] writes into the tasks it is given and returns an
    error or nil: the tasks as they are when it returns are returned with
    the error. *)
Fixpoint gatherProofInputs (tasks : list Task) : M (list Task * option error) :=
  match tasks with
  | [] => ret ([], None)
  | task :: rest =>
      do r <- catch (gatherProofInput task);
      match r with
      | inl err => ret (task :: rest, Some err)
      | inr input =>
          do '(rest', err) <- gatherProofInputs rest;
          ret (setProofInput task input :: rest', err)
      end
  end.

(** ** findTasks *)

(** The body of the loop over the accounts. *)
Definition compareNonces (paraHash : types.Hash) (account : types.AccountID)
    (basicChannelAccountNoncesToFind : gmap Z Z) : M (gmap Z Z) :=
  do ethBasicNonce <- rpc (EthNonce account)
      (basicContract_Nonce (ethConn s) account);
  do paraBasicNonceKey <- orFail (CreateStorageKeyFailed (BasicOutboundChannel_Nonce account))
      (CreateStorageKey (paraConn s) (BasicOutboundChannel_Nonce account));
  do ok <- rpc (ParaGetStorage paraBasicNonceKey paraHash)
      (GetStorage_Nonce (paraConn s) paraBasicNonceKey paraHash);
  let paraBasicNonce := match ok with Some n => n | None => 0 end in
  if ethBasicNonce <? paraBasicNonce
  then ret (<[account := wrap64 (ethBasicNonce + 1)]> basicChannelAccountNoncesToFind)
  else ret basicChannelAccountNoncesToFind.

Fixpoint findNonces (paraHash : types.Hash) (accounts : list types.AccountID)
    (basicChannelAccountNoncesToFind : gmap Z Z) : M (gmap Z Z) :=
  match accounts with
  | [] => ret basicChannelAccountNoncesToFind
  | account :: rest =>
      do m <- compareNonces paraHash account basicChannelAccountNoncesToFind;
      findNonces paraHash rest m
  end.

(** The error returned by [gatherProofInputs] is not looked at. *)
Definition findTasks (paraBlock : Z) (paraHash : types.Hash) : M (list Task) :=
  do _ <- orFail NewBasicInboundChannelFailed (NewBasicInboundChannel (ethConn s));
  do basicChannelAccountNoncesToFind <- findNonces paraHash (accounts s) ∅;
  if bool_decide (size basicChannelAccountNoncesToFind = 0%nat) then ret []
  else
    do tasks <- findTasksImpl paraBlock basicChannelAccountNoncesToFind;
    do '(tasks, _) <- gatherProofInputs tasks;
    ret tasks.

(** ** Scan *)

Definition Scan (beefyBlockNumber : Z) : M (list Task) :=
  do beefyBlockMinusOneHash <- rpc (RelayGetBlockHash (wrap64 (beefyBlockNumber - 1)))
      (relay_GetBlockHash (relayConn s) (wrap64 (beefyBlockNumber - 1)));
  do ok <- rpc (RelayFetchParachainHead beefyBlockMinusOneHash (paraID s))
      (FetchParachainHead (relayConn s) beefyBlockMinusOneHash (paraID s));
  match ok with
  | None => fail (NotRegistered (paraID s))
  | Some paraHead =>
      let paraBlockNumber := types.Number paraHead in
      do paraBlockHash <- rpc (ParaGetBlockHash paraBlockNumber)
          (para_GetBlockHash (paraConn s) paraBlockNumber);
      findTasks paraBlockNumber paraBlockHash
  end.

End Scanner.

(** ** Notions used in the statements *)

(** A proof that the scan for [digestItemHash] may keep: its bundle's nonce
    is not below the account's target and its root is the hash. *)
Definition collectableProof (digestItemHash : types.H256) (nonces : gmap Z Z)
    (bp : BundleProof) : Prop :=
  default 0 (nonces !! Account (Bundle bp)) <= Uint64 (Nonce (Bundle bp))
  /\ Root (Proof_ bp) = digestItemHash.

(** The parachain blocks whose hash is requested, in the order of the
    requests: the blocks a walk visits. *)
Fixpoint visitedBlocks (l : list Call) : list Z :=
  match l with
  | [] => []
  | ParaGetBlockHash n :: rest => n :: visitedBlocks rest
  | _ :: rest => visitedBlocks rest
  end.

(** [from; from - 1; ...], [k] numbers. *)
Fixpoint countdown (from : Z) (k : nat) : list Z :=
  match k with
  | O => []
  | S k' => from :: countdown (from - 1) k'
  end.

(** The done flag says that no account is scanned any more. *)
Definition flagAgrees (st : ScanState) : Prop :=
  scanDone st = bool_decide (size (scanAccounts st) = 0%nat).

Definition walkFlagAgrees (w : WalkState) : Prop :=
  scanBasicChannelDone w = bool_decide (size (basicChannelScanAccounts w) = 0%nat).

(** The header the parachain returns for the hash of block [n] is a header
    of block [n]. *)
Definition headerNumbersAgree (s : Scanner) : Prop :=
  forall n h header,
    para_GetBlockHash (paraConn s) n = Some h ->
    para_GetHeader (paraConn s) h = Some header ->
    types.Number header = n.

Definition taskNumber (t : Task) : Z := types.Number (Header t).

(** The tasks of a walk: collected going down, all above the current
    block, none with a proof input yet. *)
Definition walkTasksDescend (w : WalkState) : Prop :=
  StronglySorted (fun a b => taskNumber a > taskNumber b) (tasks w)
  /\ Forall (fun t => currentBlockNumber w < taskNumber t) (tasks w)
  /\ Forall (fun t => ProofInput_ t = None) (tasks w).

(** What [gatherProofInputs] has established when it sets the proof input
    of a task. *)
Definition inclusionWitness (s : Scanner) (t : Task) (input : ProofInput) : Prop :=
  ParaID input = paraID s
  /\ exists relayBlockHash paraHead,
       relay_GetBlockHash (relayConn s) (RelayBlockNumber input) = Some relayBlockHash
       /\ FetchParachainHead (relayConn s) relayBlockHash (paraID s) = Some (Some paraHead)
       /\ types.Number paraHead = types.Number (Header t)
       /\ FetchParachainHeads (relayConn s) relayBlockHash = Some (ParaHeads input).

(** [walkReaches s nonces w0 w]: the walk started in [w0] comes to the test
    of its condition in the state [w]. *)
Inductive walkReaches (s : Scanner) (nonces : gmap Z Z) : WalkState -> WalkState -> Prop :=
| reaches_here (w : WalkState) : walkReaches s nonces w w
| reaches_next (w w' w'' : WalkState) (l : list Call) :
    walkCondition w = true ->
    walkBlock s nonces w = (l, Ok w') ->
    walkReaches s nonces w' w'' ->
    walkReaches s nonces w w''.



(** The calls that read a nonce. *)
Definition isNonceRead (c : Call) : Prop :=
  match c with
  | EthNonce _ | ParaGetStorage _ _ => True
  | _ => False
  end.

(** The nonces the connections return are [uint64]. *)
Definition noncesAreUint64 (s : Scanner) : Prop :=
  (forall a n, basicContract_Nonce (ethConn s) a = Some n -> 0 <= n < 2 ^ 64)
  /\ (forall key h n, GetStorage_Nonce (paraConn s) key h = Some (Some n) ->
                      0 <= n < 2 ^ 64).

(** The target registered for an account with the Ethereum nonce [eth] and
    the parachain storage [ok], if any. *)
Definition nonceToFind (eth : Z) (ok : option Z) : option Z :=
  if eth <? default 0 ok then Some (wrap64 (eth + 1)) else None.

(** ** Test chains

    A small family of chains used to run the scanner: parachain block [n]
    has hash [1000 + n], relay block [n] has hash [5000 + n], and the
    parachain [2000] is the scanned one. *)

Module Chain.

Definition A : types.AccountID := 10.
Definition B : types.AccountID := 11.

(** A commitment digest item with hash [h] is the [Other] item [[1; h]];
    [[0]] is an auxiliary item that is no commitment. *)
Definition commitment (h : types.H256) : types.DigestItem :=
  types.mkDigestItem true [1; h].

Fixpoint extract (digest : list types.DigestItem) : option (list AuxiliaryDigestItem) :=
  match digest with
  | [] => Some []
  | item :: rest =>
      match extract rest with
      | None => None
      | Some items =>
          if types.IsOther item then
            match types.AsOther item with
            | [1; h] => Some (mkAux true h :: items)
            | [0] => Some (mkAux false 0 :: items)
            | _ => None
            end
          else Some items
      end
  end.

(** What varies between the chains. *)
Record Params : Type := mkParams {
  digestAt : Z -> list types.DigestItem;
  eventAt : Z -> option BasicChannelEvent;
  proofRoot : types.H256 -> Z -> types.H256;
  relayParentOf : Z -> Z;
  includedAt : Z -> Z;
  relayStateRoot : types.Hash;
  ethNonceOf : types.AccountID -> Z;
  paraNonceOf : types.AccountID -> option Z;
  watched : list types.AccountID
}.

Definition header (p : Params) (n : Z) : types.Header :=
  types.mkHeader (1000 + n - 1) n 0 0 (digestAt p n).

(** The head registered for the parachain at relay block [r]: the header
    of parachain block [includedAt p r], with the state root the relay
    chain reports. *)
Definition headAtRelay (p : Params) (r : Z) : types.Header :=
  types.mkHeader (1000 + includedAt p r - 1) (includedAt p r)
    (relayStateRoot p) 0 (digestAt p (includedAt p r)).

Definition scanner (p : Params) : Scanner :=
  mkScanner
    (mkEth (Some tt) (fun a => Some (ethNonceOf p a)))
    (mkRelay (fun n => Some (5000 + n))
             (fun h id => Some (if id =? 2000 then Some (headAtRelay p (h - 5000)) else None))
             (fun h => Some [headAtRelay p (h - 5000)]))
    (mkPara (fun n => Some (1000 + n))
            (fun h => Some (header p (h - 1000)))
            (fun item => Some match item with
                              | BasicOutboundChannel_Nonce a => [1; a]
                              | ParachainSystem_ValidationData => [2]
                              end)
            (fun key _ => Some match key with
                               | [1; a] => paraNonceOf p a
                               | _ => None
                               end)
            (fun _ h => Some (Some (mkValidationData [] (relayParentOf p (h - 1000)) 0 0)))
            (fun h i => Some (mkMerkleProof (proofRoot p h i) [])))
    2000
    (fun h => Some (eventAt p (h - 1000)))
    (watched p)
    extract.

(** Parachain block [n] is built on relay block [900 + n] and included
    at relay block [903 + n]; nothing is committed and nothing is
    watched. *)
Definition quiet : Params :=
  mkParams (fun _ => []) (fun _ => None) (fun h _ => h)
    (fun n => 900 + n) (fun r => r - 903) 0
    (fun _ => 0) (fun _ => None) [].

Definition withAccounts (p : Params) (eth : types.AccountID -> Z)
    (para : types.AccountID -> option Z) (l : list types.AccountID) : Params :=
  mkParams (digestAt p) (eventAt p) (proofRoot p) (relayParentOf p)
    (includedAt p) (relayStateRoot p) eth para l.

Definition withBlock (p : Params) (n : Z) (digest : list types.DigestItem)
    (event : option BasicChannelEvent) : Params :=
  mkParams (fun k => if k =? n then digest else digestAt p k)
    (fun k => if k =? n then event else eventAt p k)
    (proofRoot p) (relayParentOf p) (includedAt p) (relayStateRoot p)
    (ethNonceOf p) (paraNonceOf p) (watched p).

Definition withProofRoot (p : Params) (root : types.H256 -> Z -> types.H256) : Params :=
  mkParams (digestAt p) (eventAt p) root (relayParentOf p)
    (includedAt p) (relayStateRoot p) (ethNonceOf p) (paraNonceOf p) (watched p).

(** [A] has delivered 5 of 6 nonces, [B] 3 of 9. *)
Definition twoAccounts : Params :=
  withAccounts quiet
    (fun a => if a =? A then 5 else 3)
    (fun a => if a =? A then Some 6 else if a =? B then Some 9 else None)
    [A; B].

Definition targets : gmap Z Z := <[A := 6]> (<[B := 4]> ∅).

(** Block 90 commits [{B, 9}] and [{A, 6}] under the hash 77, and the
    proof of the second bundle has another root. *)
Definition badRoot : Params :=
  withProofRoot
    (withBlock twoAccounts 90 [commitment 77]
       (Some (mkEvent 77 [mkBundle B 9 []; mkBundle A 6 []])))
    (fun h i => if i =? 1 then 78 else h).

(** [A] has delivered 5 of 8 nonces, [B] 3 of 4; the blocks 92, 95 and
    98 commit the missing bundles. *)
Definition threeBlocks : Params :=
  withBlock
    (withBlock
       (withBlock
          (withAccounts quiet
             (fun a => if a =? A then 5 else 3)
             (fun a => if a =? A then Some 8 else if a =? B then Some 4 else None)
             [A; B])
          98 [commitment 98] (Some (mkEvent 98 [mkBundle A 8 []; mkBundle B 4 []])))
       95 [commitment 95] (Some (mkEvent 95 [mkBundle A 7 []])))
    92 [commitment 92] (Some (mkEvent 92 [mkBundle A 6 []])).

(** Block 97 commits [{A, 6}], the one nonce [A] has not delivered. *)
Definition singleMissing : Params :=
  withBlock
    (withAccounts quiet (fun _ => 5) (fun a => if a =? A then Some 6 else None) [A])
    97 [commitment 77] (Some (mkEvent 77 [mkBundle A 6 []])).

(** As [singleMissing], but the head the relay chain has registered for
    block 97 has another state root than the header the parachain
    returns. *)
Definition otherFork : Params :=
  mkParams (digestAt singleMissing) (eventAt singleMissing) (proofRoot singleMissing)
    (relayParentOf singleMissing) (includedAt singleMissing) 1
    (ethNonceOf singleMissing) (paraNonceOf singleMissing) (watched singleMissing).

(** As [singleMissing], but parachain block [n] is the registered head
    at relay block [910 + n] only: block 97 is not the head of any relay
    block of its window, 998 to 1001. *)
Definition notIncluded : Params :=
  mkParams (digestAt singleMissing) (eventAt singleMissing) (proofRoot singleMissing)
    (relayParentOf singleMissing) (fun r => r - 910) 0
    (ethNonceOf singleMissing) (paraNonceOf singleMissing) (watched singleMissing).

(** Block 90 has two commitment digest items with the hash 77; its event
    carries [{A, 6}] and [{B, 9}]. *)
Definition twoItems : Params :=
  withBlock twoAccounts 90 [commitment 77; commitment 77]
    (Some (mkEvent 77 [mkBundle A 6 []; mkBundle B 9 []])).

(** Block 97 has a commitment digest item and no [Committed] event. *)
Definition noEvent : Params :=
  withBlock
    (withAccounts quiet (fun _ => 5) (fun a => if a =? A then Some 6 else None) [A])
    97 [commitment 77] None.

(** Block 97 has a commitment digest item with the hash 77 and a
    [Committed] event with the hash 78. *)
Definition otherHash : Params :=
  withBlock
    (withAccounts quiet (fun _ => 5) (fun a => if a =? A then Some 6 else None) [A])
    97 [commitment 77] (Some (mkEvent 78 [mkBundle A 6 []])).

(** On these chains the task of block [n] gets the relay block
    [903 + n] as its inclusion block. *)
Definition taskOf (p : Params) (n : Z) (proofs : list BundleProof) : Task :=
  mkTask (header p n) proofs
    (Some (mkProofInput 2000 (903 + n) [headAtRelay p (903 + n)])).

Definition proofOf (a : types.AccountID) (nonce : Z) (h : types.H256) : BundleProof :=
  mkBundleProof (mkBundle a nonce []) (mkMerkleProof h []).

(** [A] has delivered all of its 5 nonces. *)
Definition noDrift : Params :=
  withAccounts quiet (fun _ => 5) (fun a => if a =? A then Some 5 else None) [A].

End Chain.

(** ** Further notions and sample chains *)

(** The number of the head registered for the scanned parachain at relay
    block [j], when the relay chain answers both calls and the parachain is
    registered. *)
Definition relayHeadNumber (s : Scanner) (j : Z) : option Z :=
  match relay_GetBlockHash (relayConn s) j with
  | Some relayBlockHash =>
      match FetchParachainHead (relayConn s) relayBlockHash (paraID s) with
      | Some (Some paraHead) => Some (types.Number paraHead)
      | _ => None
      end
  | None => None
  end.

(** The relay parent read for parachain block [n]: the storage key, the
    block's hash and the validation data. *)
Definition validationDataAt (s : Scanner) (n : Z)
    (key : list Z) (blockHash : Z) (data : PersistedValidationData) : Prop :=
  CreateStorageKey (paraConn s) ParachainSystem_ValidationData = Some key
  /\ para_GetBlockHash (paraConn s) n = Some blockHash
  /\ GetStorage_ValidationData (paraConn s) key blockHash = Some (Some data).

(** A bundle proof taken from the event [ev] for the nonces to find: the
    bundle is one of the event's, of an account with a nonce to find and not
    below it, and the proof is the one the parachain returns for the event's
    hash and the bundle's index, with that hash as its root. *)
Definition proofFromEvent (s : Scanner) (nonces : gmap Z Z) (ev : BasicChannelEvent)
    (bp : BundleProof) : Prop :=
  Account (Bundle bp) ∈ dom nonces
  /\ default 0 (nonces !! Account (Bundle bp)) <= Uint64 (Nonce (Bundle bp))
  /\ Root (Proof_ bp) = Hash ev
  /\ exists i : nat,
       Bundles ev !! i = Some (Bundle bp)
       /\ basicOutboundChannel_getMerkleProof (paraConn s) (Hash ev) (Z.of_nat i)
          = Some (Proof_ bp).

(** A task made from a parachain block: its header is the block's, the
    digest of the header has a commitment item with the hash of the block's
    [Committed] event, and its proofs, at least one, are taken from that
    event. *)
Definition taskFromBlock (s : Scanner) (nonces : gmap Z Z) (t : Task) : Prop :=
  BasicChannelProofs t <> []
  /\ exists n blockHash items ev item,
       para_GetBlockHash (paraConn s) n = Some blockHash
       /\ para_GetHeader (paraConn s) blockHash = Some (Header t)
       /\ ExtractAuxiliaryDigestItems s (types.Digest (Header t)) = Some items
       /\ eventQueryClient s blockHash = Some (Some ev)
       /\ In item items /\ IsCommitment item = true /\ CommitmentHash item = Hash ev
       /\ Forall (proofFromEvent s nonces ev) (BasicChannelProofs t).

(** The proofs of a block are none or taken from the block's event, whose
    hash is that of a commitment item of the block. *)
Definition proofsOfBlock (s : Scanner) (nonces : gmap Z Z)
    (events : option BasicChannelEvent)
    (items : list AuxiliaryDigestItem) (st : ScanState) : Prop :=
  proofs st = []
  \/ exists ev item,
       events = Some ev
       /\ In item items /\ IsCommitment item = true /\ CommitmentHash item = Hash ev
       /\ Forall (proofFromEvent s nonces ev) (proofs st).

Module Samples.

(** As [Chain.singleMissing], with every parachain block built on the relay
    block [2^32 - 2]. *)
Definition lateRelayParent : Chain.Params :=
  Chain.mkParams (Chain.digestAt Chain.singleMissing) (Chain.eventAt Chain.singleMissing)
    (Chain.proofRoot Chain.singleMissing) (fun _ => 4294967294)
    (Chain.includedAt Chain.singleMissing) 0
    (Chain.ethNonceOf Chain.singleMissing) (Chain.paraNonceOf Chain.singleMissing)
    (Chain.watched Chain.singleMissing).

(** The blocks 92, 95 and 98 commit the missing bundles of [A] and [B] as
    on [Chain.threeBlocks]; a relay block before 996 has the parachain block
    903 below it as registered head, a later one the block 910 below it.
    Block 92 is included in its window, block 95 is not. *)
Definition secondNotIncluded : Chain.Params :=
  Chain.mkParams (Chain.digestAt Chain.threeBlocks) (Chain.eventAt Chain.threeBlocks)
    (Chain.proofRoot Chain.threeBlocks) (Chain.relayParentOf Chain.threeBlocks)
    (fun r => if r <? 996 then r - 903 else r - 910) 0
    (Chain.ethNonceOf Chain.threeBlocks) (Chain.paraNonceOf Chain.threeBlocks)
    (Chain.watched Chain.threeBlocks).

Definition walkerTask (p : Chain.Params) (n : Z) (proofs : list BundleProof) : Task :=
  mkTask (Chain.header p n) proofs None.

(** Three accounts: [A] has delivered 5 of 6 nonces, [B] 3 of 4 and [C] 1
    of 2. *)
Definition C : types.AccountID := 12.





(** The scanner of the chain [p] over a parachain connection whose headers
    all carry the block number [number], whatever block was asked for. *)
Definition sameNumber (p : Chain.Params) (number : Z) : Scanner :=
  let s := Chain.scanner p in
  mkScanner (ethConn s) (relayConn s)
    (mkPara (para_GetBlockHash (paraConn s))
       (fun h => Some (types.mkHeader (h - 1) number 0 0 (Chain.digestAt p (h - 1000))))
       (CreateStorageKey (paraConn s)) (GetStorage_Nonce (paraConn s))
       (GetStorage_ValidationData (paraConn s))
       (basicOutboundChannel_getMerkleProof (paraConn s)))
    (paraID s) (eventQueryClient s) (accounts s) (ExtractAuxiliaryDigestItems s).

End Samples.

(** ** Package json: the hash prefixes of the beacon client's answers *)

Module json.
Import Ascii String.
Local Open Scope string_scope.

(** [strings.Replace(s, old, new, 1)]: the first instance of [old] in [s],
    from the left, is replaced by [new]. *)
Fixpoint dropString (n : nat) (s : string) : string :=
  match n, s with
  | O, _ => s
  | S n', EmptyString => EmptyString
  | S n', String _ rest => dropString n' rest
  end.

Fixpoint Replace1 (old new s : string) : string :=
  if prefix old s then new ++ dropString (length old) s
  else
    match s with
    | EmptyString => EmptyString
    | String c rest => String c (Replace1 old new rest)
    end.

Definition removeLeadingZeroHash (s : string) : string :=
  Replace1 "0x" "" s.

(** A loop [for i, item := range items { a[i] = f(item) }], from index
    [i] on. *)
Fixpoint writeEach (f : string -> string) (i : nat) (items : list string)
    (a : list string) : list string :=
  match items with
  | [] => a
  | item :: rest => writeEach f (S i) rest (<[i := f item]> a)
  end.

(** The result is a new slice of the length of [s], filled by the loop. *)
Definition removeLeadingZeroHashForSlice (s : list string) : list string :=
  let result := replicate (List.length s) "" in
  writeEach removeLeadingZeroHash 0 s result.

Record BeaconHeader : Type := mkBeaconHeader {
  Slot : Z;
  ProposerIndex : Z;
  ParentRoot : string;
  StateRoot : string;
  BodyRoot : string
}.

Record SyncCommittee : Type := mkSyncCommittee {
  Pubkeys : list string;
  AggregatePubkey : string
}.

Record SyncAggregate : Type := mkSyncAggregate {
  SyncCommitteeBits : string;
  SyncCommitteeSignature : string
}.

Record SyncCommitteeUpdate : Type := mkSyncCommitteeUpdate {
  AttestedHeader : BeaconHeader;
  NextSyncCommittee : SyncCommittee;
  NextSyncCommitteeBranch : list string;
  FinalizedHeader : BeaconHeader;
  FinalityBranch : list string;
  SyncAggregate_ : SyncAggregate;
  SyncCommitteePeriod : Z;
  SignatureSlot : Z;
  BlockRootsRoot : string;
  BlockRootBranch : list string
}.

Record InitialSync : Type := mkInitialSync {
  Header : BeaconHeader;
  CurrentSyncCommittee : SyncCommittee;
  CurrentSyncCommitteeBranch : list string;
  ValidatorsRoot : string;
  ImportTime : Z
}.

(** The methods change their receiver; here they return it. *)
Definition BeaconHeader_RemoveLeadingZeroHashes (b : BeaconHeader) : BeaconHeader :=
  mkBeaconHeader (Slot b) (ProposerIndex b)
    (removeLeadingZeroHash (ParentRoot b))
    (removeLeadingZeroHash (StateRoot b))
    (removeLeadingZeroHash (BodyRoot b)).

(** The public keys are rewritten in place, one index after the other. *)
Definition SyncCommittee_RemoveLeadingZeroHashes (s : SyncCommittee) : SyncCommittee :=
  mkSyncCommittee
    (writeEach removeLeadingZeroHash 0 (Pubkeys s) (Pubkeys s))
    (removeLeadingZeroHash (AggregatePubkey s)).

Definition SyncAggregate_RemoveLeadingZeroHashes (s : SyncAggregate) : SyncAggregate :=
  mkSyncAggregate
    (removeLeadingZeroHash (SyncCommitteeBits s))
    (removeLeadingZeroHash (SyncCommitteeSignature s)).

Definition SyncCommitteeUpdate_RemoveLeadingZeroHashes (s : SyncCommitteeUpdate)
    : SyncCommitteeUpdate :=
  mkSyncCommitteeUpdate
    (BeaconHeader_RemoveLeadingZeroHashes (AttestedHeader s))
    (SyncCommittee_RemoveLeadingZeroHashes (NextSyncCommittee s))
    (removeLeadingZeroHashForSlice (NextSyncCommitteeBranch s))
    (BeaconHeader_RemoveLeadingZeroHashes (FinalizedHeader s))
    (removeLeadingZeroHashForSlice (FinalityBranch s))
    (SyncAggregate_RemoveLeadingZeroHashes (SyncAggregate_ s))
    (SyncCommitteePeriod s)
    (SignatureSlot s)
    (removeLeadingZeroHash (BlockRootsRoot s))
    (removeLeadingZeroHashForSlice (BlockRootBranch s)).

Definition InitialSync_RemoveLeadingZeroHashes (i : InitialSync) : InitialSync :=
  mkInitialSync
    (BeaconHeader_RemoveLeadingZeroHashes (Header i))
    (SyncCommittee_RemoveLeadingZeroHashes (CurrentSyncCommittee i))
    (writeEach removeLeadingZeroHash 0 (CurrentSyncCommitteeBranch i)
       (CurrentSyncCommitteeBranch i))
    (removeLeadingZeroHash (ValidatorsRoot i))
    (ImportTime i).

(** *** Notions used in the statements *)

(** [s] has an instance of ["0x"]. *)
Definition has0x (s : string) : Prop :=
  exists pre post, s = pre ++ "0x" ++ post.

Definition isHexDigit (c : ascii) : bool :=
  let n := nat_of_ascii c in
  ((48 <=? n) && (n <=? 57) || (97 <=? n) && (n <=? 102) || (65 <=? n) && (n <=? 70))%nat.

Fixpoint isHex (s : string) : bool :=
  match s with
  | EmptyString => true
  | String c rest => isHexDigit c && isHex rest
  end.

(** A hash as the beacon client writes it: ["0x"] and hexadecimal digits. *)
Definition prefixedHex (s : string) : Prop :=
  exists digits, s = "0x" ++ digits /\ isHex digits = true.

Definition hexOnly (s : string) : Prop := isHex s = true.

(** Every hash of a value satisfies [P]. *)
Definition BeaconHeader_hashes (P : string -> Prop) (b : BeaconHeader) : Prop :=
  P (ParentRoot b) /\ P (StateRoot b) /\ P (BodyRoot b).

Definition SyncCommittee_hashes (P : string -> Prop) (s : SyncCommittee) : Prop :=
  Forall P (Pubkeys s) /\ P (AggregatePubkey s).

Definition SyncAggregate_hashes (P : string -> Prop) (s : SyncAggregate) : Prop :=
  P (SyncCommitteeBits s) /\ P (SyncCommitteeSignature s).

Definition SyncCommitteeUpdate_hashes (P : string -> Prop) (s : SyncCommitteeUpdate) : Prop :=
  BeaconHeader_hashes P (AttestedHeader s)
  /\ SyncCommittee_hashes P (NextSyncCommittee s)
  /\ Forall P (NextSyncCommitteeBranch s)
  /\ BeaconHeader_hashes P (FinalizedHeader s)
  /\ Forall P (FinalityBranch s)
  /\ SyncAggregate_hashes P (SyncAggregate_ s)
  /\ P (BlockRootsRoot s)
  /\ Forall P (BlockRootBranch s).

Definition InitialSync_hashes (P : string -> Prop) (i : InitialSync) : Prop :=
  BeaconHeader_hashes P (Header i)
  /\ SyncCommittee_hashes P (CurrentSyncCommittee i)
  /\ Forall P (CurrentSyncCommitteeBranch i)
  /\ P (ValidatorsRoot i).

(** A sample update. *)
Definition sampleHeader : BeaconHeader :=
  mkBeaconHeader 64 7 "0x1a2b" "0xc0ffee" "0x00".

Definition sampleUpdate : SyncCommitteeUpdate :=
  mkSyncCommitteeUpdate sampleHeader
    (mkSyncCommittee ["0xaa"; "0xbb"] "0xab") ["0x01"; "0x02"]
    sampleHeader ["0x03"] (mkSyncAggregate "0xff" "0x9f") 3 65 "0xdead" ["0x04"; "0x05"].

Definition sampleSync : InitialSync :=
  mkInitialSync sampleHeader (mkSyncCommittee ["0xaa"; "0xbb"] "0xab")
    ["0x01"; "0x02"] "0xbeef" 1667000000.

End json.

(** ** The contract library [SimplifiedMMRVerification]

    [bytes32] values and the [uint64] bit field are integers; a call that
    reverts returns [None].  [keccak256 a b] stands for
    [keccak256(abi.encodePacked(a, b))] of two [bytes32] values. *)

Module SimplifiedMMRVerification.

Abbreviation bytes32 := Z (only parsing).

Record SimplifiedMMRProof := mkSimplifiedMMRProof {
  restOfThePeaks : list bytes32;
  rightBaggedPeak : bytes32;
  merkleProofItems : list bytes32;
  merkleProofOrderBitField : Z
}.

Definition uint8 (z : Z) : Z := z mod 2 ^ 8.

(** [uint8(self >> index & 1) == 1]: the shift binds tighter than the
    conjunction. *)
Definition bit (self index : Z) : bool :=
  if uint8 (Z.land (Z.shiftr self index) 1) =? 1 then true else false.

(** An array write [a[i] = v], which reverts out of the bounds of [a]. *)
Definition store (a : list bytes32) (i : nat) (v : bytes32) : option (list bytes32) :=
  if decide (i < length a)%nat then Some (<[i := v]> a) else None.

Section Keccak.
Variable keccak256 : bytes32 -> bytes32 -> bytes32.

(** The loop of [calculateMerkleRoot] from [currentPosition] on, over the
    items from that position. *)
Fixpoint calculateLoop (merkleProofItems : list bytes32) (merkleProofOrderBitField : Z)
    (currentPosition : Z) (currentHash : bytes32) : bytes32 :=
  match merkleProofItems with
  | [] => currentHash
  | sibling :: rest =>
      let isSiblingLeft := bit merkleProofOrderBitField currentPosition in
      calculateLoop rest merkleProofOrderBitField (currentPosition + 1)
        (if isSiblingLeft then keccak256 sibling currentHash
         else keccak256 currentHash sibling)
  end.

Definition calculateMerkleRoot (leafNodeHash : bytes32) (merkleProofItems : list bytes32)
    (merkleProofOrderBitField : Z) : bytes32 :=
  calculateLoop merkleProofItems merkleProofOrderBitField 0 leafNodeHash.

Definition verifyMerkleRoot (root leafNodeHash : bytes32) (merkleProofItems : list bytes32)
    (merkleProofOrderBitField : Z) : bool :=
  calculateMerkleRoot leafNodeHash merkleProofItems merkleProofOrderBitField =? root.

(** The loop of [bagPeaks] at [currentIndex], with [fuel] for the
    iterations that are left. *)
Fixpoint bagLoop (fuel : nat) (reversedPeaks : list bytes32) (currentIndex : nat)
    (bag : bytes32) : option bytes32 :=
  if decide (currentIndex < length reversedPeaks)%nat then
    match fuel with
    | O => None
    | S fuel' =>
        peak ← reversedPeaks !! currentIndex;
        bagLoop fuel' reversedPeaks (S currentIndex) (keccak256 bag peak)
    end
  else Some bag.

Definition bagPeaks (reversedPeaks : list bytes32) : option bytes32 :=
  if decide (0 < length reversedPeaks)%nat then
    bag ← reversedPeaks !! 0%nat;
    bagLoop (length reversedPeaks) reversedPeaks 1 bag
  else None.

(** The loop that writes the rest of the peaks from the last one to the
    first one, at the iteration [i], with [fuel] for the iterations that are
    left. *)
Fixpoint copyPeaks (fuel i : nat) (restOfThePeaks reversedPeaks : list bytes32)
    (peakInsertionPointer : nat) : option (list bytes32) :=
  if decide (i < length restOfThePeaks)%nat then
    match fuel with
    | O => None
    | S fuel' =>
        peak ← restOfThePeaks !! (length restOfThePeaks - i - 1)%nat;
        reversedPeaks' ← store reversedPeaks peakInsertionPointer peak;
        copyPeaks fuel' (S i) restOfThePeaks reversedPeaks' (S peakInsertionPointer)
    end
  else Some reversedPeaks.

Definition verifyInclusionProof (root leafNodeHash : bytes32) (proof : SimplifiedMMRProof)
    : option bool :=
  if decide (length (merkleProofItems proof) < 64)%nat then
    let hasRightBaggedPeak := negb (rightBaggedPeak proof =? 0) in
    let numberOfPeaks := (1 + length (restOfThePeaks proof))%nat in
    let numberOfPeaks := if hasRightBaggedPeak then S numberOfPeaks else numberOfPeaks in
    let reversedPeaks := replicate numberOfPeaks 0 in
    let peakInsertionPointer := 0%nat in
    '(reversedPeaks, peakInsertionPointer) ←
      (if hasRightBaggedPeak then
         reversedPeaks' ← store reversedPeaks peakInsertionPointer (rightBaggedPeak proof);
         Some (reversedPeaks', S peakInsertionPointer)
       else Some (reversedPeaks, peakInsertionPointer));
    let merkleRootPeak :=
      calculateMerkleRoot leafNodeHash (merkleProofItems proof)
        (merkleProofOrderBitField proof) in
    reversedPeaks ← store reversedPeaks peakInsertionPointer merkleRootPeak;
    let peakInsertionPointer := S peakInsertionPointer in
    reversedPeaks ←
      (if decide (0 < length (restOfThePeaks proof))%nat then
         copyPeaks (length (restOfThePeaks proof)) 0 (restOfThePeaks proof)
           reversedPeaks peakInsertionPointer
       else Some reversedPeaks);
    mmrRoot ← bagPeaks reversedPeaks;
    Some (mmrRoot =? root)
  else None.

End Keccak.

(** *** Notions used in the statements *)

(** The peaks bagged from the right: [start] with the peaks of [peaks]
    hashed onto it from the last one to the first one. *)
Definition bagFrom (keccak256 : bytes32 -> bytes32 -> bytes32) (start : bytes32)
    (peaks : list bytes32) : bytes32 :=
  fold_right (fun peak bag => keccak256 bag peak) start peaks.

(** The root that a proof gives for a leaf: the Merkle root of the leaf,
    hashed after the right bagged peak when there is one, then bagged with
    the rest of the peaks. *)
Definition baggedRoot (keccak256 : bytes32 -> bytes32 -> bytes32) (leafNodeHash : bytes32)
    (proof : SimplifiedMMRProof) : bytes32 :=
  let merkleRootPeak :=
    calculateMerkleRoot keccak256 leafNodeHash (merkleProofItems proof)
      (merkleProofOrderBitField proof) in
  bagFrom keccak256
    (if rightBaggedPeak proof =? 0 then merkleRootPeak
     else keccak256 (rightBaggedPeak proof) merkleRootPeak)
    (restOfThePeaks proof).

(** The pairs of values that the loop of [calculateMerkleRoot] hashes, in
    the order it hashes them. *)
Fixpoint merkleInputs (keccak256 : bytes32 -> bytes32 -> bytes32)
    (merkleProofItems : list bytes32) (merkleProofOrderBitField : Z)
    (currentPosition : Z) (currentHash : bytes32) : list (bytes32 * bytes32) :=
  match merkleProofItems with
  | [] => []
  | sibling :: rest =>
      let input := if bit merkleProofOrderBitField currentPosition
                   then (sibling, currentHash) else (currentHash, sibling) in
      input :: merkleInputs keccak256 rest merkleProofOrderBitField (currentPosition + 1)
                 (keccak256 (fst input) (snd input))
  end.

(** The pairs of values hashed when [start] is bagged with [peaks], in the
    order they are hashed: the last peak first. *)
Fixpoint bagInputs (keccak256 : bytes32 -> bytes32 -> bytes32) (start : bytes32)
    (peaks : list bytes32) : list (bytes32 * bytes32) :=
  match peaks with
  | [] => []
  | peak :: rest =>
      bagInputs keccak256 start rest ++ [(bagFrom keccak256 start rest, peak)]
  end.

(** All the pairs of values hashed for the root that a proof gives for a
    leaf: those of the Merkle root, the right bagged peak with the Merkle
    root when there is one, and those of the bagging. *)
Definition proofInputs (keccak256 : bytes32 -> bytes32 -> bytes32) (leafNodeHash : bytes32)
    (proof : SimplifiedMMRProof) : list (bytes32 * bytes32) :=
  let merkleRootPeak :=
    calculateMerkleRoot keccak256 leafNodeHash (merkleProofItems proof)
      (merkleProofOrderBitField proof) in
  merkleInputs keccak256 (merkleProofItems proof) (merkleProofOrderBitField proof) 0
    leafNodeHash
  ++ (if rightBaggedPeak proof =? 0 then [] else [(rightBaggedPeak proof, merkleRootPeak)])
  ++ bagInputs keccak256
       (if rightBaggedPeak proof =? 0 then merkleRootPeak
        else keccak256 (rightBaggedPeak proof) merkleRootPeak)
       (restOfThePeaks proof).

(** Two runs hash, at the same step, two different pairs of values to the
    same hash. *)
Definition collidesAt (keccak256 : bytes32 -> bytes32 -> bytes32)
    (inputs inputs' : list (bytes32 * bytes32)) : Prop :=
  exists (k : nat) (x y : bytes32 * bytes32),
    inputs !! k = Some x /\ inputs' !! k = Some y
    /\ x <> y /\ keccak256 (fst x) (snd x) = keccak256 (fst y) (snd y).

(** A function to run the library on. *)
Definition sampleHash (a b : bytes32) : bytes32 := (31 * a + 17 * b + 1) mod 2 ^ 256.

Definition sampleProof : SimplifiedMMRProof :=
  mkSimplifiedMMRProof [21; 22] 9 [11; 12; 13] 5.

(** Two proofs of one shape for the leaves 17 and 0; the sample function
    gives [(17, 0)] and [(0, 31)] the same hash. *)
Definition sampleProof17 : SimplifiedMMRProof := mkSimplifiedMMRProof [21; 22] 9 [0] 0.
Definition sampleProof0 : SimplifiedMMRProof := mkSimplifiedMMRProof [21; 22] 9 [31] 0.

End SimplifiedMMRVerification.

(** ** Computations of the listeners

    A computation of a listener: the calls it makes, in order, and how it
    ends.  [C] is the type of the calls, [E] the type of the errors. *)

Module effect.

Inductive reply (E A : Type) : Type :=
| Returned (a : A)
| Raised (e : E)
| Unfinished.
Arguments Returned {E A} a.
Arguments Raised {E A} e.
Arguments Unfinished {E A}.

Definition T (C E A : Type) : Type := (list C * reply E A)%type.

Definition ret {C E A} (a : A) : T C E A := ([], Returned a).
Definition raise {C E A} (e : E) : T C E A := ([], Raised e).
Definition unfinished {C E A} : T C E A := ([], Unfinished).

Definition bind {C E A B} (k : A -> T C E B) (m : T C E A) : T C E B :=
  match m with
  | (l, Returned a) => let (l', r) := k a in (l ++ l', r)
  | (l, Raised e) => (l, Raised e)
  | (l, Unfinished) => (l, Unfinished)
  end.

(** A call [c] with the reply [r] of the other side; [e] is the error of a
    call that fails. *)
Definition call {C E A} (c : C) (e : E) (r : option A) : T C E A :=
  ([c], match r with Some a => Returned a | None => Raised e end).

(** A step of the program itself that can fail. *)
Definition check {C E A} (e : E) (r : option A) : T C E A :=
  ([], match r with Some a => Returned a | None => Raised e end).

Definition calls {C E A} (m : T C E A) : list C := fst m.
Definition result {C E A} (m : T C E A) : reply E A := snd m.

#[global] Instance T_ret {C E} : MRet (T C E) := fun A => @ret C E A.
#[global] Instance T_bind {C E} : MBind (T C E) := fun A B => @bind C E A B.

(** [for _, item := range items] with a body that can return an error. *)
Fixpoint forEach {C E A} (f : A -> T C E unit) (items : list A) : T C E unit :=
  match items with
  | [] => ret tt
  | item :: rest => bind (fun _ => forEach f rest) (f item)
  end.

(** [l[i]] and [l[i] = a] with Go's bounds check. *)
Definition index {A} (l : list A) (i : Z) : option A :=
  if (0 <=? i) && (i <? Z.of_nat (length l)) then l !! Z.to_nat i else None.

Definition assign {A} (l : list A) (i : Z) (a : A) : option (list A) :=
  if (0 <=? i) && (i <? Z.of_nat (length l)) then Some (<[Z.to_nat i := a]> l) else None.

End effect.

(** ** The parachain commitment listener: catching up

    [getAuxiliaryDigestItem], [getMessagesForDigestItem] and
    [processDigestItem] are given by the listener; the last two are calls. *)

Module parachaincommitment.
Import effect.

Record ChannelID : Type := mkChannelID {
  IsBasic : bool;
  IsIncentivized : bool
}.

#[global] Instance ChannelID_eq_dec : EqDecision ChannelID.
Proof. solve_decision. Defined.

Record Commitment : Type := mkCommitment {
  ChannelID_ : ChannelID;
  Hash : types.H256
}.

Record AuxiliaryDigestItem : Type := mkAuxiliaryDigestItem {
  IsCommitment : bool;
  AsCommitment : Commitment
}.

Record Message : Type := mkMessage {
  Nonce : Z                          (* uint64 *)
}.

Inductive Pallet : Type :=
| BasicOutboundModule
| IncentivizedOutboundModule.

Inductive Call : Type :=
| EthNonce (contract : Z)
| GetStorageLatest (key : types.StorageKey)
| GetBlockHash (blockNumber : Z)
| GetHeader (blockHash : types.Hash)
| GetMessagesForDigestItem (digestItem : AuxiliaryDigestItem)
| ProcessDigestItem (digestItem : AuxiliaryDigestItem).

Inductive error : Type :=
| CallFailed (c : Call)
| NewContractFailed (address : Z)
| CreateStorageKeyFailed (pallet : Pallet)
| AuxiliaryDigestItemFailed
| IndexOutOfRange.

(** What the listener is connected to.  [getStorageLatest] answers [Some
    None] for a key without a value: the call returns [ok = false] and
    leaves its target as it was. *)
Record Listener : Type := mkListener {
  BasicInbound : Z;
  IncentivizedInbound : Z;
  newContract : Z -> option Z;
  ethNonce : Z -> option Z;
  createStorageKey : Pallet -> option types.StorageKey;
  getStorageLatest : types.StorageKey -> option (option Z);
  getBlockHash : Z -> option types.Hash;
  getHeader : types.Hash -> option types.Header;
  getAuxiliaryDigestItem : list types.DigestItem -> option (option AuxiliaryDigestItem);
  getMessagesForDigestItem : AuxiliaryDigestItem -> option (list Message);
  processDigestItem : AuxiliaryDigestItem -> option unit
}.

Abbreviation Eff := (T Call error).

Definition rpc {A} (c : Call) (r : option A) : Eff A := call c (CallFailed c) r.

Definition basicId : ChannelID := mkChannelID true false.
Definition incentivizedId : ChannelID := mkChannelID false true.

Record SearchState : Type := mkSearchState {
  currentBlockNumber : Z;
  basicNonceFound : bool;
  incentivizedNonceFound : bool;
  digestItems : list AuxiliaryDigestItem
}.

Section Listener.
Variable li : Listener.

(** The loop of [checkIfDigestItemContainsNonce]. *)
Fixpoint containsNonce (messages : list Message) (nonceToFind : Z) : bool :=
  match messages with
  | [] => false
  | message :: rest =>
      if Nonce message <=? nonceToFind then true else containsNonce rest nonceToFind
  end.

Definition checkIfDigestItemContainsNonce (digestItem : AuxiliaryDigestItem)
    (nonceToFind : Z) : Eff bool :=
  messages ← rpc (GetMessagesForDigestItem digestItem)
                 (getMessagesForDigestItem li digestItem);
  mret (containsNonce messages nonceToFind).

Definition searchCondition (st : SearchState) : bool :=
  (negb (basicNonceFound st) || negb (incentivizedNonceFound st))
  && negb (currentBlockNumber st =? 0).

(** One iteration of the loop of [searchForLostCommitments]. *)
Definition searchBlock (basicNonceToFind incentivizedNonceToFind : Z)
    (st : SearchState) : Eff SearchState :=
  let currentBlockNumber := wrap64 (currentBlockNumber st - 1) in
  blockHash ← rpc (GetBlockHash currentBlockNumber) (getBlockHash li currentBlockNumber);
  header ← rpc (GetHeader blockHash) (getHeader li blockHash);
  digestItem ← check AuxiliaryDigestItemFailed
                 (getAuxiliaryDigestItem li (types.Digest header));
  let st := mkSearchState currentBlockNumber (basicNonceFound st)
              (incentivizedNonceFound st) (digestItems st) in
  match digestItem with
  | Some digestItem =>
      if IsCommitment digestItem then
        let channelID := ChannelID_ (AsCommitment digestItem) in
        st ← (if bool_decide (channelID = basicId) && negb (basicNonceFound st) then
                isRelayed ← checkIfDigestItemContainsNonce digestItem basicNonceToFind;
                if isRelayed : bool then
                  mret (mkSearchState (currentBlockNumber) true
                          (incentivizedNonceFound st) (digestItems st))
                else
                  mret (mkSearchState (currentBlockNumber) (basicNonceFound st)
                          (incentivizedNonceFound st) (digestItems st ++ [digestItem]))
              else mret st);
        if bool_decide (channelID = incentivizedId) && negb (incentivizedNonceFound st) then
          isRelayed ← checkIfDigestItemContainsNonce digestItem incentivizedNonceToFind;
          if isRelayed : bool then
            mret (mkSearchState (currentBlockNumber) (basicNonceFound st) true
                    (digestItems st))
          else
            mret (mkSearchState (currentBlockNumber) (basicNonceFound st)
                    (incentivizedNonceFound st) (digestItems st ++ [digestItem]))
        else mret st
      else mret st
  | None => mret st
  end.

Fixpoint searchLoop (fuel : nat) (basicNonceToFind incentivizedNonceToFind : Z)
    (st : SearchState) : Eff SearchState :=
  if searchCondition st then
    match fuel with
    | O => unfinished
    | S fuel' =>
        st' ← searchBlock basicNonceToFind incentivizedNonceToFind st;
        searchLoop fuel' basicNonceToFind incentivizedNonceToFind st'
    end
  else mret st.

(** The loop that reverses the items in place. *)
Fixpoint reverseLoop (fuel : nat) (i j : Z) (digestItems : list AuxiliaryDigestItem)
    : Eff (list AuxiliaryDigestItem) :=
  if i <? j then
    match fuel with
    | O => unfinished
    | S fuel' =>
        atJ ← check IndexOutOfRange (index digestItems j);
        atI ← check IndexOutOfRange (index digestItems i);
        digestItems ← check IndexOutOfRange (assign digestItems i atJ);
        digestItems ← check IndexOutOfRange (assign digestItems j atI);
        reverseLoop fuel' (i + 1) (j - 1) digestItems
    end
  else mret digestItems.

(** The search is given one unit of fuel for each block from
    [lastBlockNumber] down to 0. *)
Definition searchForLostCommitments (lastBlockNumber basicNonceToFind
    incentivizedNonceToFind : Z) : Eff unit :=
  let currentBlockNumber := wrap64 (lastBlockNumber + 1) in
  st ← searchLoop (Z.to_nat currentBlockNumber) basicNonceToFind incentivizedNonceToFind
         (mkSearchState currentBlockNumber false false []);
  digestItems ← reverseLoop (length (digestItems st)) 0
                  (Z.of_nat (length (digestItems st)) - 1) (digestItems st);
  forEach (fun digestItem =>
             rpc (ProcessDigestItem digestItem) (processDigestItem li digestItem))
    digestItems.

Definition catchupMissedCommitments (latestBlock : Z) : Eff unit :=
  basicContract ← check (NewContractFailed (BasicInbound li))
                    (newContract li (BasicInbound li));
  incentivizedContract ← check (NewContractFailed (IncentivizedInbound li))
                           (newContract li (IncentivizedInbound li));
  ethBasicNonce ← rpc (EthNonce basicContract) (ethNonce li basicContract);
  ethIncentivizedNonce ← rpc (EthNonce incentivizedContract)
                           (ethNonce li incentivizedContract);
  paraBasicNonceKey ← check (CreateStorageKeyFailed BasicOutboundModule)
                        (createStorageKey li BasicOutboundModule);
  let paraBasicNonce := 0 in
  stored ← rpc (GetStorageLatest paraBasicNonceKey) (getStorageLatest li paraBasicNonceKey);
  let ok := bool_decide (is_Some stored) in
  let paraBasicNonce := default paraBasicNonce stored in
  let paraBasicNonce := if negb ok then 0 else paraBasicNonce in
  paraIncentivizedNonceKey ← check (CreateStorageKeyFailed IncentivizedOutboundModule)
                               (createStorageKey li IncentivizedOutboundModule);
  let paraIncentivizedNonce := 0 in
  stored ← rpc (GetStorageLatest paraIncentivizedNonceKey)
             (getStorageLatest li paraIncentivizedNonceKey);
  let ok := bool_decide (is_Some stored) in
  let paraIncentivizedNonce := default paraIncentivizedNonce stored in
  let paraBasicNonce := if negb ok then 0 else paraBasicNonce in
  if (ethBasicNonce =? paraBasicNonce) && (ethIncentivizedNonce =? paraIncentivizedNonce)
  then mret tt
  else searchForLostCommitments latestBlock ethBasicNonce ethIncentivizedNonce.

End Listener.

(** *** Notions used in the statements *)

(** The blocks whose hash is asked for, and the digest items processed, in
    the order of the calls. *)
Definition blocksRead (l : list Call) : list Z :=
  omap (fun c => match c with GetBlockHash n => Some n | _ => None end) l.

Definition processed (l : list Call) : list AuxiliaryDigestItem :=
  omap (fun c => match c with ProcessDigestItem d => Some d | _ => None end) l.

(** The auxiliary digest item of block [n], as the listener reads it. *)
Definition digestItemAt (li : Listener) (n : Z) : option AuxiliaryDigestItem :=
  blockHash ← getBlockHash li n;
  header ← getHeader li blockHash;
  digestItem ← getAuxiliaryDigestItem li (types.Digest header);
  digestItem.

(** Block [n] has no auxiliary digest item, and it can be read. *)
Definition quietBlock (li : Listener) (n : Z) : Prop :=
  exists blockHash header,
    getBlockHash li n = Some blockHash
    /\ getHeader li blockHash = Some header
    /\ getAuxiliaryDigestItem li (types.Digest header) = Some None.

(** [d] is the commitment of block [n], on one of the two channels, and the
    nonce to find of its channel is below the nonces of all its messages. *)
Definition lostAt (li : Listener) (basicNonceToFind incentivizedNonceToFind : Z)
    (n : Z) (d : AuxiliaryDigestItem) : Prop :=
  digestItemAt li n = Some d
  /\ IsCommitment d = true
  /\ exists messages,
       getMessagesForDigestItem li d = Some messages
       /\ ((ChannelID_ (AsCommitment d) = basicId
            /\ Forall (fun m => basicNonceToFind < Nonce m) messages)
           \/ (ChannelID_ (AsCommitment d) = incentivizedId
               /\ Forall (fun m => incentivizedNonceToFind < Nonce m) messages)).

(** The basic nonce that [catchupMissedCommitments] compares with the nonce
    on Ethereum, from what is stored for the two channels. *)
Definition comparedBasicNonce (basic incentivized : option Z) : Z :=
  match incentivized with
  | Some _ => default 0 basic
  | None => 0
  end.

(** A parachain of [last + 1] blocks, block [n] with the hash [1000 + n];
    the blocks of [commitments] have a commitment, on the basic channel for
    an even block and on the incentivized channel for an odd one, with one
    message whose nonce is the block's number. *)
Definition sampleItem (n : Z) : AuxiliaryDigestItem :=
  mkAuxiliaryDigestItem true
    (mkCommitment (if Z.even n then basicId else incentivizedId) n).

Definition sampleListener (commitments : list Z) (basic incentivized : option Z)
    : Listener :=
  mkListener 1 2
    (fun address => Some (10 + address))
    (fun contract => Some (if contract =? 11 then 4 else 3))
    (fun pallet => Some [match pallet with BasicOutboundModule => 1
                                         | IncentivizedOutboundModule => 2 end])
    (fun key => Some (if bool_decide (key = [1]) then basic else incentivized))
    (fun n => Some (1000 + n))
    (fun blockHash =>
       Some (types.mkHeader 0 (blockHash - 1000) 0 0
               (if bool_decide (blockHash - 1000 ∈ commitments)
                then [types.mkDigestItem true [blockHash - 1000]] else [])))
    (fun digest =>
       Some (match digest with
             | item :: _ => Some (sampleItem (default 0 (head (types.AsOther item))))
             | [] => None
             end))
    (fun d => Some [mkMessage (Hash (AsCommitment d))])
    (fun _ => Some tt).

Definition sampleChain : Listener := sampleListener [2; 3; 5; 6; 7] None None.
Definition sampleQuiet : Listener := sampleListener [] None None.
Definition sampleStored : Listener := sampleListener [2; 3; 5; 6; 7] (Some 4) None.

End parachaincommitment.

(** ** The parachain commitment relayer: extracting the commitments

    [types.DecodeFromBytes] and [parachain.MakeStorageKey] are given by the
    listener.  A [StorageDataRaw] is a list of bytes, [nil] the empty one;
    the MMR proof response is only passed on. *)

Module parachaincommitmentrelayer.
Import effect.

Abbreviation GenerateMMRProofResponse := (list Z) (only parsing).

Record MessagePackage : Type := mkMessagePackage {
  channelID : parachaincommitment.ChannelID;
  commitmentHash : types.H256;
  commitmentMessagesData : list Z;
  paraHeadProof : list Z;
  mmrProof : GenerateMMRProofResponse
}.

Inductive Call : Type :=
| LocalStorageGet (storageKey : list Z).

Inductive error : Type :=
| CallFailed (c : Call)
| DecodeFailed (bytes : list Z)
| MakeStorageKeyFailed (channelID : parachaincommitment.ChannelID) (hash : types.H256).

(** [localStorageGet] answers [Some None] for a key without a value: the
    call returns a nil pointer and no error. *)
Record BeefyListener : Type := mkBeefyListener {
  decodeFromBytes : list Z -> option parachaincommitment.AuxiliaryDigestItem;
  makeStorageKey : parachaincommitment.ChannelID -> types.H256 -> option (list Z);
  localStorageGet : list Z -> option (option (list Z))
}.

Abbreviation Eff := (T Call error).

Section Listener.
Variable li : BeefyListener.

(** The loop of [getAuxiliaryDigestItems], with the items decoded so far. *)
Fixpoint decodeLoop (digest : list types.DigestItem)
    (auxDigestItems : list parachaincommitment.AuxiliaryDigestItem)
    : Eff (list parachaincommitment.AuxiliaryDigestItem) :=
  match digest with
  | [] => mret auxDigestItems
  | digestItem :: rest =>
      if types.IsOther digestItem then
        auxDigestItem ← check (DecodeFailed (types.AsOther digestItem))
                          (decodeFromBytes li (types.AsOther digestItem));
        decodeLoop rest (auxDigestItems ++ [auxDigestItem])
      else decodeLoop rest auxDigestItems
  end.

Definition getAuxiliaryDigestItems (digest : list types.DigestItem)
    : Eff (list parachaincommitment.AuxiliaryDigestItem) :=
  decodeLoop digest [].

Definition getMessagesDataForDigestItem
    (digestItem : parachaincommitment.AuxiliaryDigestItem) : Eff (list Z) :=
  let commitment := parachaincommitment.AsCommitment digestItem in
  storageKey ← check (MakeStorageKeyFailed (parachaincommitment.ChannelID_ commitment)
                        (parachaincommitment.Hash commitment))
                 (makeStorageKey li (parachaincommitment.ChannelID_ commitment)
                    (parachaincommitment.Hash commitment));
  data ← call (LocalStorageGet storageKey) (CallFailed (LocalStorageGet storageKey))
           (localStorageGet li storageKey);
  match data with
  | Some data => mret data
  | None => mret []
  end.

(** The loop of [extractCommitments], with the packages made so far. *)
Fixpoint packageLoop (auxDigestItems : list parachaincommitment.AuxiliaryDigestItem)
    (mmrProof : GenerateMMRProofResponse) (ourParaHeadProof : list Z)
    (messagePackages : list MessagePackage) : Eff (list MessagePackage) :=
  match auxDigestItems with
  | [] => mret messagePackages
  | auxDigestItem :: rest =>
      let commitmentHash :=
        parachaincommitment.Hash (parachaincommitment.AsCommitment auxDigestItem) in
      commitmentMessagesData ← getMessagesDataForDigestItem auxDigestItem;
      let messagePackage :=
        mkMessagePackage
          (parachaincommitment.ChannelID_ (parachaincommitment.AsCommitment auxDigestItem))
          commitmentHash commitmentMessagesData ourParaHeadProof mmrProof in
      packageLoop rest mmrProof ourParaHeadProof (messagePackages ++ [messagePackage])
  end.

Definition extractCommitments (header : types.Header) (mmrProof : GenerateMMRProofResponse)
    (ourParaHeadProof : list Z) : Eff (list MessagePackage) :=
  auxDigestItems ← getAuxiliaryDigestItems (types.Digest header);
  packageLoop auxDigestItems mmrProof ourParaHeadProof [].

End Listener.

(** *** Notions used in the statements *)

(** [d] is what the bytes of the digest item [item] decode to. *)
Definition decodesTo (li : BeefyListener) (item : types.DigestItem)
    (d : parachaincommitment.AuxiliaryDigestItem) : Prop :=
  decodeFromBytes li (types.AsOther item) = Some d.

(** [p] is the package of the digest item [d]: the channel and the hash of
    [d], the two proofs, and the data stored for [d], or no data when
    nothing is stored. *)
Definition packageOf (li : BeefyListener) (mmrProof : list Z) (ourParaHeadProof : list Z)
    (d : parachaincommitment.AuxiliaryDigestItem) (p : MessagePackage) : Prop :=
  exists storageKey stored,
    makeStorageKey li (parachaincommitment.ChannelID_ (parachaincommitment.AsCommitment d))
      (parachaincommitment.Hash (parachaincommitment.AsCommitment d)) = Some storageKey
    /\ localStorageGet li storageKey = Some stored
    /\ p = mkMessagePackage
             (parachaincommitment.ChannelID_ (parachaincommitment.AsCommitment d))
             (parachaincommitment.Hash (parachaincommitment.AsCommitment d))
             (default [] stored) ourParaHeadProof mmrProof.

(** A listener whose digest items are one byte: the hash of a commitment on
    the basic channel; the byte 0 does not decode.  The data of the hash [h]
    is stored under the key [[h]] when [h] is in [stored]. *)
Definition sampleListener (stored : list Z) : BeefyListener :=
  mkBeefyListener
    (fun bytes =>
       match bytes with
       | [h] => if h =? 0 then None
                else Some (parachaincommitment.mkAuxiliaryDigestItem (h <? 100)
                             (parachaincommitment.mkCommitment parachaincommitment.basicId h))
       | _ => None
       end)
    (fun _ hash => Some [hash])
    (fun key =>
       Some (match key with
             | [h] => if bool_decide (h ∈ stored) then Some [h; h] else None
             | _ => None
             end)).

Definition sampleHeader : types.Header :=
  types.mkHeader 0 9 0 0
    [types.mkDigestItem true [7]; types.mkDigestItem false [0];
     types.mkDigestItem true [8]; types.mkDigestItem true [200]].

Definition samplePackages : list MessagePackage :=
  [mkMessagePackage parachaincommitment.basicId 7 [7; 7] [1] [2];
   mkMessagePackage parachaincommitment.basicId 8 [] [1] [2];
   mkMessagePackage parachaincommitment.basicId 200 [] [1] [2]].

End parachaincommitmentrelayer.

(** ** The computation monad *)

Section Monad.
Context {A B : Type}.

Lemma bind_ret (a : A) (k : A -> M B) : bind (ret a) k = k a.
Proof. unfold bind, ret. destruct (k a); reflexivity. Qed.

Lemma bind_Ok (l : list Call) (a : A) (k : A -> M B) :
  bind (l, Ok a) k = (l ++ calls (k a), result (k a)).
Proof. unfold bind, calls, result. destruct (k a); reflexivity. Qed.

Lemma bind_rpc_Some (c : Call) (a : A) (k : A -> M B) :
  bind (rpc c (Some a)) k = (c :: calls (k a), result (k a)).
Proof. unfold rpc. rewrite bind_Ok. reflexivity. Qed.

(** A successful [bind] splits into two successful halves. *)
Lemma bind_Ok_inv (m : M A) (k : A -> M B) (l : list Call) (b : B) :
  bind m k = (l, Ok b) ->
  exists l1 a l2, m = (l1, Ok a) /\ k a = (l2, Ok b) /\ l = l1 ++ l2.
Proof.
  destruct m as [l1 [a | e |]]; cbn; try discriminate.
  destruct (k a) as [l2 r] eqn:Hk. intros [= <- ->].
  exists l1, a, l2. auto.
Qed.

Lemma bind_result_Ok_inv (m : M A) (k : A -> M B) (b : B) :
  result (bind m k) = Ok b ->
  exists a, result m = Ok a /\ result (k a) = Ok b.
Proof.
  destruct m as [l1 [a | e |]]; cbn; try discriminate.
  destruct (k a) as [l2 r] eqn:Hk. cbn. intros ->.
  exists a. rewrite Hk. auto.
Qed.

(** Fuel runs out in a [bind] only if it runs out in one of its halves. *)
Lemma bind_fuel (m : M A) (k : A -> M B) :
  result m <> OutOfFuel ->
  (forall a, result m = Ok a -> result (k a) <> OutOfFuel) ->
  result (bind m k) <> OutOfFuel.
Proof.
  destruct m as [l1 [a | e |]]; cbn; intros H1 H2; try congruence.
  specialize (H2 a eq_refl). destruct (k a); exact H2.
Qed.

Lemma result_bind_Ok (m : M A) (k : A -> M B) (a : A) :
  result m = Ok a -> result (bind m k) = result (k a).
Proof.
  destruct m as [l1 r]; cbn. intros ->. destruct (k a); reflexivity.
Qed.

Lemma result_bind_Err (m : M A) (k : A -> M B) (e : error) :
  result m = Err e -> result (bind m k) = Err e.
Proof. destruct m as [l1 r]; cbn. intros ->. reflexivity. Qed.

End Monad.

Lemma orFail_Some {A B} e (a : A) (k : A -> M B) :
  bind (orFail e (Some a)) k = k a.
Proof. apply bind_ret. Qed.

Lemma surjective_M {A} (m : M A) : m = (calls m, result m).
Proof. destruct m; reflexivity. Qed.

(** * Properties *)

(** ** The bundle scan *)

Section ScanBundleProperties.
Variable s : Scanner.
Variables (digestItemHash : types.H256) (nonces : gmap Z Z).

Abbreviation target b := (default 0 (nonces !! Account b)).
Abbreviation marked st b := (scanAccounts st ∖ {[Account b]}).

Lemma fetchBundleProof_Some i b p :
  basicOutboundChannel_getMerkleProof (paraConn s) digestItemHash i = Some p ->
  fetchBundleProof s digestItemHash i b =
    ([ParaGetMerkleProof digestItemHash i], Ok (mkBundleProof b p)).
Proof. intros H. unfold fetchBundleProof. rewrite H. reflexivity. Qed.

(** A bundle of an account that is not scanned is skipped. *)
Lemma scanBundle_skip i b st :
  Account b ∉ scanAccounts st ->
  scanBundle s digestItemHash nonces i b st = ret st.
Proof.
  intros Hnot. unfold scanBundle.
  rewrite bool_decide_eq_false_2 by assumption. reflexivity.
Qed.

(** Below the target: the account is done, nothing is fetched. *)
Lemma scanBundle_below i b st :
  Account b ∈ scanAccounts st ->
  Uint64 (Nonce b) < target b ->
  scanBundle s digestItemHash nonces i b st =
    ret (mkScanState (marked st b) (proofs st)
           (bool_decide (size (marked st b) = 0%nat))).
Proof.
  intros Hin Hlt. unfold scanBundle.
  rewrite bool_decide_eq_true_2 by assumption. cbn [negb].
  destruct (Z.ltb_spec (Uint64 (Nonce b)) (target b)); [reflexivity | lia].
Qed.

(** At or above the target the proof is fetched; a failed fetch is the
    error of the scan. *)
Lemma scanBundle_fetch_failed i b st :
  Account b ∈ scanAccounts st ->
  target b <= Uint64 (Nonce b) ->
  basicOutboundChannel_getMerkleProof (paraConn s) digestItemHash i = None ->
  scanBundle s digestItemHash nonces i b st =
    ([ParaGetMerkleProof digestItemHash i],
     Err (CallFailed (ParaGetMerkleProof digestItemHash i))).
Proof.
  intros Hin Hge Hfetch. unfold scanBundle.
  rewrite bool_decide_eq_true_2 by assumption. cbn [negb].
  destruct (Z.ltb_spec (Uint64 (Nonce b)) (target b)); [lia |].
  unfold fetchBundleProof. rewrite Hfetch. reflexivity.
Qed.

(** A proof whose root is not the digest item's hash: the account is
    done and the proof is dropped. *)
Lemma scanBundle_mismatch i b st p :
  Account b ∈ scanAccounts st ->
  target b <= Uint64 (Nonce b) ->
  basicOutboundChannel_getMerkleProof (paraConn s) digestItemHash i = Some p ->
  Root p <> digestItemHash ->
  scanBundle s digestItemHash nonces i b st =
    ([ParaGetMerkleProof digestItemHash i],
     Ok (mkScanState (marked st b) (proofs st)
           (bool_decide (size (marked st b) = 0%nat)))).
Proof.
  intros Hin Hge Hfetch Hroot. unfold scanBundle.
  rewrite bool_decide_eq_true_2 by assumption. cbn [negb].
  destruct (Z.ltb_spec (Uint64 (Nonce b)) (target b)); [lia |].
  rewrite (fetchBundleProof_Some i b p Hfetch), bind_Ok. cbn [Proof_ Root].
  destruct (Z.eqb_spec (Root p) digestItemHash); [contradiction | reflexivity].
Qed.

(** Above the target with a matching root: collected, still scanned. *)
Lemma scanBundle_above i b st p :
  Account b ∈ scanAccounts st ->
  target b < Uint64 (Nonce b) ->
  basicOutboundChannel_getMerkleProof (paraConn s) digestItemHash i = Some p ->
  Root p = digestItemHash ->
  scanBundle s digestItemHash nonces i b st =
    ([ParaGetMerkleProof digestItemHash i],
     Ok (mkScanState (scanAccounts st) (proofs st ++ [mkBundleProof b p])
           (scanDone st))).
Proof.
  intros Hin Hgt Hfetch Hroot. unfold scanBundle.
  rewrite bool_decide_eq_true_2 by assumption. cbn [negb].
  destruct (Z.ltb_spec (Uint64 (Nonce b)) (target b)); [lia |].
  rewrite (fetchBundleProof_Some i b p Hfetch), bind_Ok. cbn [Proof_ Root].
  destruct (Z.eqb_spec (Root p) digestItemHash); [| contradiction]. cbn.
  destruct (Z.ltb_spec (target b) (Uint64 (Nonce b))); [reflexivity | lia].
Qed.

(** At the target with a matching root: collected, and the account is
    done. *)
Lemma scanBundle_equal i b st p :
  Account b ∈ scanAccounts st ->
  Uint64 (Nonce b) = target b ->
  basicOutboundChannel_getMerkleProof (paraConn s) digestItemHash i = Some p ->
  Root p = digestItemHash ->
  scanBundle s digestItemHash nonces i b st =
    ([ParaGetMerkleProof digestItemHash i],
     Ok (mkScanState (marked st b) (proofs st ++ [mkBundleProof b p])
           (bool_decide (size (marked st b) = 0%nat)))).
Proof.
  intros Hin Heq Hfetch Hroot. unfold scanBundle.
  rewrite bool_decide_eq_true_2 by assumption. cbn [negb].
  destruct (Z.ltb_spec (Uint64 (Nonce b)) (target b)); [lia |].
  rewrite (fetchBundleProof_Some i b p Hfetch), bind_Ok. cbn [Proof_ Root].
  destruct (Z.eqb_spec (Root p) digestItemHash); [| contradiction]. cbn.
  destruct (Z.ltb_spec (target b) (Uint64 (Nonce b))); [lia |].
  destruct (Z.eqb_spec (Uint64 (Nonce b)) (target b)); [reflexivity | lia].
Qed.

(** What one bundle can do to the state, whatever the case. *)
Abbreviation collectable := (collectableProof digestItemHash nonces).

Lemma scanBundle_step i b st l st' :
  scanBundle s digestItemHash nonces i b st = (l, Ok st') ->
  scanAccounts st' ⊆ scanAccounts st
  /\ (proofs st' = proofs st
      \/ exists bp, proofs st' = proofs st ++ [bp] /\ collectable bp
                    /\ Bundle bp = b /\ Account b ∈ scanAccounts st).
Proof.
  destruct (decide (Account b ∈ scanAccounts st)) as [Hin | Hnot].
  2: { rewrite scanBundle_skip by assumption. intros [= <- <-]. split; [set_solver | auto]. }
  destruct (Z.lt_ge_cases (Uint64 (Nonce b)) (target b)) as [Hlt | Hge].
  { rewrite scanBundle_below by assumption. intros [= <- <-]. cbn.
    split; [set_solver | auto]. }
  destruct (basicOutboundChannel_getMerkleProof (paraConn s) digestItemHash i)
    as [p |] eqn:Hfetch.
  2: { rewrite scanBundle_fetch_failed by assumption. discriminate. }
  destruct (decide (Root p = digestItemHash)) as [Hroot | Hroot].
  2: { rewrite (scanBundle_mismatch i b st p) by assumption. intros [= <- <-]. cbn.
       split; [set_solver | auto]. }
  assert (Hcol : collectable (mkBundleProof b p)) by (split; assumption).
  destruct (Z.eq_dec (Uint64 (Nonce b)) (target b)) as [Heq | Hne].
  - rewrite (scanBundle_equal i b st p) by assumption. intros [= <- <-]. cbn.
    split; [set_solver | right; eauto].
  - rewrite (scanBundle_above i b st p) by (assumption || lia).
    intros [= <- <-]. cbn. split; [set_solver | right; eauto].
Qed.

(** The scan only adds proofs, and only collectable ones. *)
Lemma scanBundles_proofs bundles : forall i st l st',
  scanBundles s digestItemHash nonces i bundles st = (l, Ok st') ->
  scanAccounts st' ⊆ scanAccounts st
  /\ exists added, proofs st' = proofs st ++ added
       /\ Forall collectable added
       /\ Forall (fun bp => Account (Bundle bp) ∈ scanAccounts st) added.
Proof.
  induction bundles as [| b rest IH]; intros i st l st'; cbn [scanBundles].
  - intros [= <- <-]. split; [set_solver |]. exists []. rewrite app_nil_r. auto.
  - intros H. apply bind_Ok_inv in H as (l1 & st1 & l2 & H1 & H2 & ->).
    apply scanBundle_step in H1 as [Hsub1 Hstep].
    apply IH in H2 as [Hsub2 (added & Hadd & Hcol & Hacc)].
    split; [set_solver |].
    assert (Hacc' : Forall (fun bp => Account (Bundle bp) ∈ scanAccounts st) added).
    { eapply Forall_impl; [eassumption |]. cbn. intros bp Hbp. set_solver. }
    destruct Hstep as [Heq | (bp & Heq & Hbp & Hb & Hin)]; rewrite Heq in Hadd.
    + exists added. auto.
    + exists (bp :: added). rewrite Hadd, <- app_assoc. cbn.
      split; [reflexivity |]. split; constructor; auto. rewrite Hb. assumption.
Qed.

End ScanBundleProperties.

Section BundleLoop.
Variable s : Scanner.
Variables (digestItemHash : types.H256) (nonces : gmap Z Z).


End BundleLoop.

(** ** C3: the cases of the bundle scan *)




(** ** A proof with the wrong root: the scan of [Chain.badRoot] *)


(** The whole scan on [Chain.badRoot]: no error, and the task of block 90
    carries the proof collected for [B] and nothing for [A]. *)
Example scan_with_bad_root :
  result (Scan (Chain.scanner Chain.badRoot) 1004)
  = Ok [Chain.taskOf Chain.badRoot 90 [Chain.proofOf Chain.B 9 77]].
Proof. vm_compute. reflexivity. Qed.

(** ** The backward walk *)

Lemma calls_bind {A B} (m : M A) (k : A -> M B) :
  calls (bind m k) =
    calls m ++ match result m with Ok a => calls (k a) | _ => [] end.
Proof.
  destruct m as [l [a | e |]]; cbn; rewrite ?app_nil_r; try reflexivity.
  destruct (k a); reflexivity.
Qed.

Lemma visitedBlocks_app (l1 l2 : list Call) :
  visitedBlocks (l1 ++ l2) = visitedBlocks l1 ++ visitedBlocks l2.
Proof.
  induction l1 as [| c l1 IH]; [reflexivity |].
  destruct c; cbn; rewrite IH; reflexivity.
Qed.

Lemma countdown_length from k : length (countdown from k) = k.
Proof. revert from. induction k; intros from; cbn; [reflexivity | rewrite IHk; reflexivity]. Qed.

Lemma countdown_bounds k : forall from x,
  In x (countdown from k) -> from - Z.of_nat k < x <= from.
Proof.
  induction k as [| k IH]; intros from x; cbn [countdown In]; [tauto |].
  intros [<- | Hin]; [lia |]. apply IH in Hin. lia.
Qed.

Lemma countdown_descending k : forall from,
  StronglySorted Z.gt (countdown from k).
Proof.
  induction k as [| k IH]; intros from; cbn [countdown]; constructor; [apply IH |].
  apply List.Forall_forall. intros x Hin. apply countdown_bounds in Hin. lia.
Qed.

Lemma countdown_NoDup k : forall from, List.NoDup (countdown from k).
Proof.
  induction k as [| k IH]; intros from; cbn [countdown]; constructor; [| apply IH].
  intros Hin. apply countdown_bounds in Hin. lia.
Qed.

Section WalkProperties.
Variable s : Scanner.
Variable nonces : gmap Z Z.

(** *** The calls of the scan of a block are no block fetches *)

Lemma scanBundle_calls h i b st :
  (calls (scanBundle s h nonces i b st) = []
   \/ calls (scanBundle s h nonces i b st) = [ParaGetMerkleProof h i])
  /\ result (scanBundle s h nonces i b st) <> OutOfFuel.
Proof.
  destruct (decide (Account b ∈ scanAccounts st)) as [Hin | Hnot].
  2: { rewrite scanBundle_skip by assumption. split; [left; reflexivity | discriminate]. }
  destruct (Z.lt_ge_cases (Uint64 (Nonce b)) (default 0 (nonces !! Account b)))
    as [Hlt | Hge].
  { rewrite scanBundle_below by assumption. split; [left; reflexivity | discriminate]. }
  destruct (basicOutboundChannel_getMerkleProof (paraConn s) h i) as [p |] eqn:Hfetch.
  2: { rewrite scanBundle_fetch_failed by assumption.
       split; [right; reflexivity | discriminate]. }
  destruct (decide (Root p = h)) as [Hroot | Hroot].
  2: { rewrite (scanBundle_mismatch s h nonces i b st p) by assumption.
       split; [right; reflexivity | discriminate]. }
  destruct (Z.eq_dec (Uint64 (Nonce b)) (default 0 (nonces !! Account b))) as [Heq | Hne].
  - rewrite (scanBundle_equal s h nonces i b st p) by assumption.
    split; [right; reflexivity | discriminate].
  - rewrite (scanBundle_above s h nonces i b st p) by (assumption || lia).
    split; [right; reflexivity | discriminate].
Qed.

Lemma scanBundle_no_fetch h i b st :
  visitedBlocks (calls (scanBundle s h nonces i b st)) = [].
Proof.
  destruct (scanBundle_calls h i b st) as [[-> | ->] _]; reflexivity.
Qed.

Lemma scanBundles_no_fetch h bundles : forall i st,
  visitedBlocks (calls (scanBundles s h nonces i bundles st)) = [].
Proof.
  induction bundles as [| b rest IH]; intros i st; cbn [scanBundles]; [reflexivity |].
  rewrite calls_bind, visitedBlocks_app, scanBundle_no_fetch.
  destruct (result _); [apply IH | reflexivity | reflexivity].
Qed.

Lemma scanDigestItem_no_fetch events item st :
  visitedBlocks (calls (scanDigestItem s nonces events item st)) = [].
Proof.
  unfold scanDigestItem.
  destruct (negb (IsCommitment item)); [reflexivity |].
  destruct (negb (scanDone st)); [| reflexivity].
  destruct events as [ev |]; [| reflexivity].
  destruct (negb _); [reflexivity |].
  rewrite calls_bind, visitedBlocks_app. unfold scanForBasicChannelProofs.
  rewrite scanBundles_no_fetch. destruct (result _); reflexivity.
Qed.

Lemma scanDigestItems_no_fetch events items : forall st,
  visitedBlocks (calls (scanDigestItems s nonces events items st)) = [].
Proof.
  induction items as [| item rest IH]; intros st; cbn [scanDigestItems]; [reflexivity |].
  rewrite calls_bind, visitedBlocks_app, scanDigestItem_no_fetch.
  destruct (result _); [apply IH | reflexivity | reflexivity].
Qed.

(** *** Fuel is used by the walk only *)

Lemma scanBundle_fuel h i b st :
  result (scanBundle s h nonces i b st) <> OutOfFuel.
Proof. apply scanBundle_calls. Qed.

Lemma scanBundles_fuel h bundles : forall i st,
  result (scanBundles s h nonces i bundles st) <> OutOfFuel.
Proof.
  induction bundles as [| b rest IH]; intros i st; cbn [scanBundles]; [discriminate |].
  apply bind_fuel; [apply scanBundle_fuel | intros; apply IH].
Qed.

Lemma scanDigestItem_fuel events item st :
  result (scanDigestItem s nonces events item st) <> OutOfFuel.
Proof.
  unfold scanDigestItem.
  destruct (negb (IsCommitment item)); [discriminate |].
  destruct (negb (scanDone st)); [| discriminate].
  destruct events as [ev |]; [| discriminate].
  destruct (negb _); [discriminate |].
  apply bind_fuel; [apply scanBundles_fuel | discriminate].
Qed.

Lemma scanDigestItems_fuel events items : forall st,
  result (scanDigestItems s nonces events items st) <> OutOfFuel.
Proof.
  induction items as [| item rest IH]; intros st; cbn [scanDigestItems]; [discriminate |].
  apply bind_fuel; [apply scanDigestItem_fuel | intros; apply IH].
Qed.

(** *** One block *)

(** What a successful visit of a block has read and written. *)
Lemma walkBlock_Ok_inv w l w' :
  walkBlock s nonces w = (l, Ok w') ->
  exists blockHash header items,
    para_GetBlockHash (paraConn s) (currentBlockNumber w) = Some blockHash
    /\ para_GetHeader (paraConn s) blockHash = Some header
    /\ ExtractAuxiliaryDigestItems s (types.Digest header) = Some items
    /\ currentBlockNumber w' = wrap64 (currentBlockNumber w - 1)
    /\ ((items = []
         /\ basicChannelScanAccounts w' = basicChannelScanAccounts w
         /\ scanBasicChannelDone w' = scanBasicChannelDone w
         /\ tasks w' = tasks w)
        \/ (items <> []
            /\ exists events lst st,
                 eventQueryClient s blockHash = Some events
                 /\ scanDigestItems s nonces events items
                      (mkScanState (basicChannelScanAccounts w) []
                         (scanBasicChannelDone w)) = (lst, Ok st)
                 /\ basicChannelScanAccounts w' = scanAccounts st
                 /\ scanBasicChannelDone w' = scanDone st
                 /\ tasks w' =
                      if (0 <? length (proofs st))%nat
                      then tasks w ++ [mkTask header (proofs st) None]
                      else tasks w)).
Proof.
  unfold walkBlock.
  destruct (para_GetBlockHash (paraConn s) (currentBlockNumber w)) as [blockHash |] eqn:Hhash;
    [| discriminate].
  rewrite bind_rpc_Some.
  destruct (para_GetHeader (paraConn s) blockHash) as [header |] eqn:Hheader;
    [| discriminate].
  rewrite bind_rpc_Some.
  destruct (ExtractAuxiliaryDigestItems s (types.Digest header)) as [items |] eqn:Hitems;
    [| discriminate].
  rewrite orFail_Some. cbn [calls result fst snd].
  intros H. exists blockHash, header, items. do 3 (split; [first [reflexivity | assumption] |]).
  destruct items as [| item items].
  - cbn in H. injection H as _ <-. cbn. split; [reflexivity |]. left. auto.
  - cbn [length Nat.eqb] in H.
    destruct (eventQueryClient s blockHash) as [events |]; [| discriminate].
    rewrite bind_rpc_Some in H.
    destruct (scanDigestItems s nonces events (item :: items) _) as [lst [st | e |]] eqn:Hscan;
      try discriminate.
    rewrite bind_Ok in H. cbn [calls result fst snd ret] in H.
    injection H as _ <-. cbn. split; [reflexivity |]. right.
    split; [discriminate |]. exists events, lst, st. auto.
Qed.

Lemma walkBlock_visited w :
  visitedBlocks (calls (walkBlock s nonces w)) = [currentBlockNumber w].
Proof.
  unfold walkBlock.
  destruct (para_GetBlockHash (paraConn s) (currentBlockNumber w)) as [blockHash |];
    [| reflexivity].
  rewrite bind_rpc_Some.
  destruct (para_GetHeader (paraConn s) blockHash) as [header |]; [| reflexivity].
  rewrite bind_rpc_Some.
  destruct (ExtractAuxiliaryDigestItems s (types.Digest header)) as [items |];
    [| reflexivity].
  rewrite orFail_Some.
  destruct items as [| item items]; [reflexivity |].
  cbn [length Nat.eqb].
  destruct (eventQueryClient s blockHash) as [events |]; [| reflexivity].
  rewrite bind_rpc_Some. cbn [calls fst visitedBlocks].
  rewrite calls_bind, visitedBlocks_app, scanDigestItems_no_fetch.
  destruct (result _); reflexivity.
Qed.

Lemma walkBlock_fuel w : result (walkBlock s nonces w) <> OutOfFuel.
Proof.
  unfold walkBlock.
  destruct (para_GetBlockHash (paraConn s) (currentBlockNumber w)) as [blockHash |];
    [| discriminate].
  rewrite bind_rpc_Some.
  destruct (para_GetHeader (paraConn s) blockHash) as [header |]; [| discriminate].
  rewrite bind_rpc_Some.
  destruct (ExtractAuxiliaryDigestItems s (types.Digest header)) as [items |];
    [| discriminate].
  rewrite orFail_Some.
  destruct items as [| item items]; [discriminate |].
  cbn [length Nat.eqb].
  destruct (eventQueryClient s blockHash) as [events |]; [| discriminate].
  rewrite bind_rpc_Some. cbn [result snd].
  apply bind_fuel; [apply scanDigestItems_fuel | discriminate].
Qed.

(** *** The walk *)

Lemma walkCondition_true w :
  walkCondition w = true ->
  scanBasicChannelDone w = false /\ 0 < currentBlockNumber w.
Proof.
  unfold walkCondition. intros H. apply andb_true_iff in H as [H1 H2].
  apply negb_true_iff in H1. apply Z.ltb_lt in H2. auto.
Qed.

Lemma walkCondition_false w :
  walkCondition w = false ->
  scanBasicChannelDone w = true \/ currentBlockNumber w <= 0.
Proof.
  unfold walkCondition. intros H. apply andb_false_iff in H as [H | H].
  - left. apply negb_false_iff in H. exact H.
  - right. apply Z.ltb_ge in H. exact H.
Qed.

(** With fuel for every block down to 1 the walk ends by its condition or
    by an error; the blocks it visits are consecutive, going down. *)
Lemma walk_visits fuel : forall w,
  0 <= currentBlockNumber w < 2 ^ 64 ->
  (Z.to_nat (currentBlockNumber w) <= fuel)%nat ->
  exists k,
    (k <= Z.to_nat (currentBlockNumber w))%nat
    /\ visitedBlocks (calls (walk s fuel nonces w)) = countdown (currentBlockNumber w) k
    /\ match result (walk s fuel nonces w) with
       | Ok w' => walkCondition w' = false
                  /\ currentBlockNumber w' = currentBlockNumber w - Z.of_nat k
       | Err _ => (1 <= k)%nat
       | OutOfFuel => False
       end.
Proof.
  induction fuel as [| fuel IH]; intros w Hrange Hfuel.
  - exists O. cbn [walk]. destruct (walkCondition w) eqn:Hcond.
    + apply walkCondition_true in Hcond. lia.
    + cbn. split; [lia |]. split; [reflexivity |]. split; [assumption | lia].
  - cbn [walk]. destruct (walkCondition w) eqn:Hcond.
    2: { exists O. cbn. split; [lia |]. split; [reflexivity |].
         split; [assumption | lia]. }
    apply walkCondition_true in Hcond as [_ Hpos].
    pose proof (walkBlock_visited w) as Hvis.
    pose proof (walkBlock_fuel w) as Hnofuel.
    destruct (walkBlock s nonces w) as [l [w' | e |]] eqn:Hblock.
    + apply walkBlock_Ok_inv in Hblock as (_ & _ & _ & _ & _ & _ & Hcur & _).
      assert (Hcur' : currentBlockNumber w' = currentBlockNumber w - 1).
      { rewrite Hcur. unfold wrap64. apply Z.mod_small. lia. }
      destruct (IH w') as (k & Hk & Hcalls & Hres); [lia | lia |].
      exists (S k). split; [lia |]. rewrite bind_Ok.
      destruct (walk s fuel nonces w') as [lw rw].
      cbn [calls result fst snd] in *.
      rewrite visitedBlocks_app, Hvis, Hcalls, Hcur'. split; [reflexivity |].
      destruct rw; [| lia | assumption].
      destruct Hres as [Hc Hn]. split; [assumption | lia].
    + exists 1%nat. cbn [bind calls result fst snd] in *. rewrite Hvis.
      split; [lia |]. split; [reflexivity | lia].
    + cbn in Hnofuel. congruence.
Qed.

(** *** The done flag *)

Lemma scanBundle_flag h i b st l st' :
  scanBundle s h nonces i b st = (l, Ok st') ->
  flagAgrees st -> flagAgrees st'.
Proof.
  unfold flagAgrees.
  destruct (decide (Account b ∈ scanAccounts st)) as [Hin | Hnot].
  2: { rewrite scanBundle_skip by assumption. intros [= <- <-]. auto. }
  destruct (Z.lt_ge_cases (Uint64 (Nonce b)) (default 0 (nonces !! Account b)))
    as [Hlt | Hge].
  { rewrite scanBundle_below by assumption. intros [= <- <-]. reflexivity. }
  destruct (basicOutboundChannel_getMerkleProof (paraConn s) h i) as [p |] eqn:Hfetch.
  2: { rewrite scanBundle_fetch_failed by assumption. discriminate. }
  destruct (decide (Root p = h)) as [Hroot | Hroot].
  2: { rewrite (scanBundle_mismatch s h nonces i b st p) by assumption.
       intros [= <- <-]. reflexivity. }
  destruct (Z.eq_dec (Uint64 (Nonce b)) (default 0 (nonces !! Account b))) as [Heq | Hne].
  - rewrite (scanBundle_equal s h nonces i b st p) by assumption.
    intros [= <- <-]. reflexivity.
  - rewrite (scanBundle_above s h nonces i b st p) by (assumption || lia).
    intros [= <- <-]. auto.
Qed.

Lemma scanBundles_flag h bundles : forall i st l st',
  scanBundles s h nonces i bundles st = (l, Ok st') ->
  flagAgrees st -> flagAgrees st'.
Proof.
  induction bundles as [| b rest IH]; intros i st l st'; cbn [scanBundles].
  - intros [= <- <-]. auto.
  - intros H Hflag. apply bind_Ok_inv in H as (l1 & st1 & l2 & H1 & H2 & ->).
    eapply IH; [exact H2 |]. eapply scanBundle_flag; eassumption.
Qed.

(** What a digest item does to the state when it does not fail. *)
Lemma scanDigestItem_Ok_inv events item st l st' :
  scanDigestItem s nonces events item st = (l, Ok st') ->
  (st' = st /\ l = [] /\ (IsCommitment item = false \/ scanDone st = true))
  \/ (IsCommitment item = true /\ scanDone st = false
      /\ exists ev, events = Some ev /\ Hash ev = CommitmentHash item
           /\ scanForBasicChannelProofs s (CommitmentHash item) nonces
                (scanAccounts st) (Bundles ev) = (l, Ok st')).
Proof.
  unfold scanDigestItem.
  destruct (IsCommitment item); cbn [negb].
  2: { intros [= <- <-]. left. auto. }
  destruct (scanDone st); cbn [negb].
  { intros [= <- <-]. left. auto. }
  destruct events as [ev |]; [| discriminate].
  destruct (Z.eqb_spec (Hash ev) (CommitmentHash item)) as [Heq | Hne]; cbn [negb];
    [| discriminate].
  intros H. right. do 2 (split; [reflexivity |]). exists ev.
  do 2 (split; [reflexivity || assumption |]).
  apply bind_Ok_inv in H as (l1 & r & l2 & H1 & H2 & ->).
  injection H2 as <- <-. rewrite app_nil_r. destruct r. exact H1.
Qed.

Lemma scanDigestItem_flag events item st l st' :
  scanDigestItem s nonces events item st = (l, Ok st') ->
  flagAgrees st -> flagAgrees st'.
Proof.
  intros H Hflag.
  apply scanDigestItem_Ok_inv in H
    as [(-> & _ & _) | (_ & Hdone & ev & _ & _ & H)]; [assumption |].
  eapply scanBundles_flag; [exact H |].
  unfold flagAgrees in *. cbn. rewrite <- Hflag. exact (eq_sym Hdone).
Qed.

Lemma scanDigestItems_flag events items : forall st l st',
  scanDigestItems s nonces events items st = (l, Ok st') ->
  flagAgrees st -> flagAgrees st'.
Proof.
  induction items as [| item rest IH]; intros st l st'; cbn [scanDigestItems].
  - intros [= <- <-]. auto.
  - intros H Hflag. apply bind_Ok_inv in H as (l1 & st1 & l2 & H1 & H2 & ->).
    eapply IH; [exact H2 |]. eapply scanDigestItem_flag; eassumption.
Qed.

Lemma walkBlock_flag w l w' :
  walkBlock s nonces w = (l, Ok w') ->
  walkFlagAgrees w -> walkFlagAgrees w'.
Proof.
  intros H Hflag.
  apply walkBlock_Ok_inv in H as (blockHash & header & items & _ & _ & _ & _ & Hcase).
  unfold walkFlagAgrees in *.
  destruct Hcase as [(_ & -> & -> & _) | (_ & events & lst & st & _ & Hscan & -> & -> & _)];
    [assumption |].
  apply scanDigestItems_flag in Hscan; [exact Hscan | exact Hflag].
Qed.

Lemma walk_flag fuel : forall w l w',
  walk s fuel nonces w = (l, Ok w') ->
  walkFlagAgrees w -> walkFlagAgrees w'.
Proof.
  induction fuel as [| fuel IH]; intros w l w'; cbn [walk];
    destruct (walkCondition w); try discriminate;
    try (intros [= <- <-]; auto; fail).
  intros H Hflag. apply bind_Ok_inv in H as (l1 & w1 & l2 & H1 & H2 & ->).
  eapply IH; [exact H2 |]. eapply walkBlock_flag; eassumption.
Qed.

End WalkProperties.

(** ** C8: the backward walk terminates *)

(** C8: the backward walk of [findTasksImpl] always ends, by an error or by
    its loop condition, never for lack of fuel.  The parachain blocks it
    visits are [lastParaBlockNumber], [lastParaBlockNumber - 1], ... : in
    strictly descending order, each at most once, and at most
    [lastParaBlockNumber] of them.  A walk whose condition is false (every
    account done, or block number 0) visits nothing more, and a walk that
    returns has stopped because no account is scanned any more or because
    the block number is 0. *)
Theorem backward_walk_terminates (s : Scanner) (lastParaBlockNumber : Z)
    (nonces : gmap Z Z) :
  0 <= lastParaBlockNumber < 2 ^ 64 ->
  let run := walk s (Z.to_nat lastParaBlockNumber) nonces
               (initialWalkState lastParaBlockNumber nonces) in
  let visited := visitedBlocks (calls (findTasksImpl s lastParaBlockNumber nonces)) in
  result (findTasksImpl s lastParaBlockNumber nonces) <> OutOfFuel
  /\ (exists k, (k <= Z.to_nat lastParaBlockNumber)%nat
                /\ visited = countdown lastParaBlockNumber k
                /\ forall w, result run = Ok w ->
                     currentBlockNumber w = lastParaBlockNumber - Z.of_nat k)
  /\ StronglySorted Z.gt visited
  /\ List.NoDup visited
  /\ (length visited <= Z.to_nat lastParaBlockNumber)%nat
  /\ (forall fuel w, walkCondition w = false -> walk s fuel nonces w = ret w)
  /\ (forall w, result run = Ok w ->
       basicChannelScanAccounts w = ∅ \/ currentBlockNumber w = 0).
Proof.
  intros Hrange run visited.
  destruct (walk_visits s nonces (Z.to_nat lastParaBlockNumber)
              (initialWalkState lastParaBlockNumber nonces))
    as (k & Hk & Hvisited & Hres); [exact Hrange | cbn; lia |].
  cbn [initialWalkState currentBlockNumber] in Hk, Hvisited, Hres.
  fold run in Hvisited, Hres.
  assert (Hcalls : visited = countdown lastParaBlockNumber k).
  { unfold visited, findTasksImpl. fold run. rewrite calls_bind, visitedBlocks_app.
    rewrite Hvisited. destruct (result run); cbn; apply app_nil_r. }
  split; [| split; [| split; [| split; [| split; [| split]]]]].
  - unfold findTasksImpl. fold run. apply bind_fuel.
    + intros Hfuel. rewrite Hfuel in Hres. exact Hres.
    + discriminate.
  - exists k. split; [exact Hk |]. split; [exact Hcalls |].
    intros w Hw. rewrite Hw in Hres. apply Hres.
  - rewrite Hcalls. apply countdown_descending.
  - rewrite Hcalls. apply countdown_NoDup.
  - rewrite Hcalls, countdown_length. exact Hk.
  - intros fuel w Hcond. destruct fuel; cbn [walk]; rewrite Hcond; reflexivity.
  - intros w Hw. rewrite Hw in Hres. destruct Hres as [Hcond Hcur].
    pose proof (surjective_M run) as Hrun. rewrite Hw in Hrun.
    apply walk_flag in Hrun; [| reflexivity].
    apply walkCondition_false in Hcond as [Hdone | Hzero]; [left | right; lia].
    unfold walkFlagAgrees in Hrun. rewrite Hdone in Hrun.
    symmetry in Hrun. apply bool_decide_eq_true_1 in Hrun.
    apply size_empty_inv in Hrun. apply leibniz_equiv. exact Hrun.
Qed.

(** ** C7: the tasks are in ascending order *)

Section SortTasks.

Lemma insertTask_perm t : forall l, Permutation (insertTask t l) (t :: l).
Proof.
  induction l as [| u l IH]; cbn [insertTask]; [reflexivity |].
  destruct (_ <? _); [| reflexivity].
  rewrite IH. apply perm_swap.
Qed.

Lemma sortTasks_perm : forall l, Permutation (sortTasks l) l.
Proof.
  induction l as [| t l IH]; cbn [sortTasks]; [reflexivity |].
  rewrite insertTask_perm, IH. reflexivity.
Qed.

Lemma insertTask_sorted t : forall l,
  Sorted (fun a b => taskNumber a <= taskNumber b) l ->
  Sorted (fun a b => taskNumber a <= taskNumber b) (insertTask t l).
Proof.
  induction l as [| u l IH]; intros Hl; cbn [insertTask].
  - repeat constructor.
  - destruct (Z.ltb_spec (types.Number (Header u)) (types.Number (Header t))) as [Hlt | Hge].
    + apply Sorted_inv in Hl as [Hl Hhd]. constructor; [apply IH; exact Hl |].
      destruct l as [| v l]; cbn [insertTask].
      * constructor. unfold taskNumber. lia.
      * destruct (_ <? _); constructor; [| unfold taskNumber; lia].
        apply HdRel_inv in Hhd. exact Hhd.
    + constructor; [exact Hl |]. constructor. unfold taskNumber. lia.
Qed.

Lemma sortTasks_sorted : forall l,
  Sorted (fun a b => taskNumber a <= taskNumber b) (sortTasks l).
Proof.
  induction l as [| t l IH]; cbn [sortTasks]; [constructor |].
  apply insertTask_sorted. exact IH.
Qed.

(** Sorting keeps the tasks and their contents. *)
Lemma sortTasks_Forall (P : Task -> Prop) l :
  Forall P l -> Forall P (sortTasks l).
Proof.
  intros H. eapply Permutation_Forall; [| exact H].
  symmetry. apply sortTasks_perm.
Qed.

(** A list sorted by [<=] without two equal numbers is sorted by [<]. *)
Lemma strongly_sorted_strict (l : list Task) :
  StronglySorted (fun a b => taskNumber a <= taskNumber b) l ->
  List.NoDup (map taskNumber l) ->
  StronglySorted (fun a b => taskNumber a < taskNumber b) l.
Proof.
  induction 1 as [| t l Hl IH Hall]; cbn [map]; intros Hnd; constructor.
  - apply IH. apply List.NoDup_cons_iff in Hnd. apply Hnd.
  - apply List.NoDup_cons_iff in Hnd as [Hnotin _].
    rewrite List.Forall_forall in *. intros u Hu.
    specialize (Hall u Hu).
    assert (taskNumber t <> taskNumber u); [| lia].
    intros Heq. apply Hnotin. rewrite Heq. apply List.in_map. exact Hu.
Qed.

Lemma strongly_sorted_lookup (R : Task -> Task -> Prop) (l : list Task) :
  StronglySorted R l ->
  forall (i j : nat) ti tj,
    (i < j)%nat -> l !! i = Some ti -> l !! j = Some tj -> R ti tj.
Proof.
  induction 1 as [| t l Hl IH Hall]; intros i j ti tj Hij Hi Hj.
  - destruct i; discriminate.
  - destruct j as [| j]; [lia |]. cbn in Hj.
    destruct i as [| i]; cbn in Hi.
    + injection Hi as <-. rewrite List.Forall_forall in Hall. apply Hall.
      apply list_elem_of_In. eapply list_elem_of_lookup_2. exact Hj.
    + apply (IH i j); [lia | assumption | assumption].
Qed.

Lemma descending_NoDup (l : list Task) :
  StronglySorted (fun a b => taskNumber a > taskNumber b) l ->
  List.NoDup (map taskNumber l).
Proof.
  induction 1 as [| t l Hl IH Hall]; cbn [map]; constructor; [| exact IH].
  intros Hin. apply List.in_map_iff in Hin as (u & Heq & Hu).
  rewrite List.Forall_forall in Hall. specialize (Hall u Hu). lia.
Qed.

End SortTasks.

Section TaskOrder.
Variable s : Scanner.

Lemma StronglySorted_snoc {A} (R : A -> A -> Prop) (l : list A) (x : A) :
  StronglySorted R l -> Forall (fun y => R y x) l -> StronglySorted R (l ++ [x]).
Proof.
  induction 1 as [| y l Hl IH Hall]; intros Hx; cbn [app].
  - repeat constructor.
  - apply Forall_cons in Hx as [Hyx Hx]. constructor; [apply IH; exact Hx |].
    apply Forall_app. split; [exact Hall | repeat constructor; exact Hyx].
Qed.

Lemma wrap64_pred_lt (n : Z) : 0 < n -> wrap64 (n - 1) < n.
Proof.
  intros Hn. unfold wrap64.
  pose proof (Z.mod_le (n - 1) (2 ^ 64)) as Hle.
  assert (0 < 2 ^ 64) by (apply Z.pow_pos_nonneg; lia). lia.
Qed.

Lemma walkBlock_tasks_descend nonces w l w' :
  headerNumbersAgree s ->
  walkCondition w = true ->
  walkBlock s nonces w = (l, Ok w') ->
  walkTasksDescend w -> walkTasksDescend w'.
Proof.
  intros Hagree Hcond H (Hsorted & Habove & Hnone).
  apply walkCondition_true in Hcond as [_ Hpos].
  apply walkBlock_Ok_inv in H
    as (blockHash & header & items & Hhash & Hheader & _ & Hcur & Hcase).
  pose proof (Hagree _ _ _ Hhash Hheader) as Hnumber.
  pose proof (wrap64_pred_lt _ Hpos) as Hlt.
  assert (Habove' : Forall (fun t => currentBlockNumber w' < taskNumber t) (tasks w)).
  { eapply Forall_impl; [exact Habove |]. cbn. intros t Ht. lia. }
  unfold walkTasksDescend.
  destruct Hcase as [(_ & _ & _ & ->) | (_ & events & lst & st & _ & _ & _ & _ & ->)];
    [auto |].
  destruct (0 <? length (proofs st))%nat; [| auto].
  split; [| split].
  - apply StronglySorted_snoc; [exact Hsorted |].
    eapply Forall_impl; [exact Habove |]. cbn. intros t Ht.
    unfold taskNumber at 2. cbn [Header]. lia.
  - apply Forall_app. split; [exact Habove' |]. repeat constructor.
    unfold taskNumber. cbn [Header]. lia.
  - apply Forall_app. split; [exact Hnone |]. repeat constructor.
Qed.

Lemma walk_tasks_descend nonces fuel : forall w l w',
  headerNumbersAgree s ->
  walk s fuel nonces w = (l, Ok w') ->
  walkTasksDescend w -> walkTasksDescend w'.
Proof.
  induction fuel as [| fuel IH]; intros w l w' Hagree; cbn [walk];
    destruct (walkCondition w) eqn:Hcond; try discriminate;
    try (intros [= <- <-]; auto; fail).
  intros H Hinv. apply bind_Ok_inv in H as (l1 & w1 & l2 & H1 & H2 & ->).
  eapply IH; [exact Hagree | exact H2 |].
  eapply walkBlock_tasks_descend; eassumption.
Qed.

(** The walk makes tasks without proof input. *)
Lemma walk_tasks_no_input nonces fuel : forall w l w',
  walk s fuel nonces w = (l, Ok w') ->
  Forall (fun t => ProofInput_ t = None) (tasks w) ->
  Forall (fun t => ProofInput_ t = None) (tasks w').
Proof.
  induction fuel as [| fuel IH]; intros w l w'; cbn [walk];
    destruct (walkCondition w) eqn:Hcond; try discriminate;
    try (intros [= <- <-]; auto; fail).
  intros H Hnone. apply bind_Ok_inv in H as (l1 & w1 & l2 & H1 & H2 & ->).
  eapply IH; [exact H2 |].
  apply walkBlock_Ok_inv in H1 as (blockHash & header & items & _ & _ & _ & _ & Hcase).
  destruct Hcase as [(_ & _ & _ & ->) | (_ & events & lst & st & _ & _ & _ & _ & ->)];
    [exact Hnone |].
  destruct (0 <? length (proofs st))%nat; [| exact Hnone].
  apply Forall_app. split; [exact Hnone | repeat constructor].
Qed.

(** The tasks of [findTasksImpl]: strictly ascending, without proof
    inputs. *)
Lemma findTasksImpl_ascending last nonces ts :
  headerNumbersAgree s ->
  result (findTasksImpl s last nonces) = Ok ts ->
  StronglySorted (fun a b => taskNumber a < taskNumber b) ts
  /\ Forall (fun t => ProofInput_ t = None) ts.
Proof.
  intros Hagree H. unfold findTasksImpl in H.
  apply bind_result_Ok_inv in H as (w & Hw & Hret).
  injection Hret as <-.
  pose proof (surjective_M (walk s (Z.to_nat last) nonces (initialWalkState last nonces)))
    as Hrun.
  rewrite Hw in Hrun.
  apply walk_tasks_descend in Hrun as (Hsorted & _ & Hnone); [| exact Hagree |].
  2: { repeat split; constructor. }
  split; [| apply sortTasks_Forall; exact Hnone].
  apply strongly_sorted_strict.
  - apply Sorted_StronglySorted; [| apply sortTasks_sorted].
    intros a b c. lia.
  - eapply Permutation_NoDup; [| apply descending_NoDup; exact Hsorted].
    apply Permutation_map. symmetry. apply sortTasks_perm.
Qed.

(** [gatherProofInputs] changes the proof inputs only. *)
Lemma gatherProofInputs_headers : forall ts l ts' err,
  gatherProofInputs s ts = (l, Ok (ts', err)) ->
  map Header ts' = map Header ts
  /\ map BasicChannelProofs ts' = map BasicChannelProofs ts.
Proof.
  induction ts as [| t ts IH]; intros l ts' err; cbn [gatherProofInputs].
  - intros [= <- <- <-]. auto.
  - intros H. apply bind_Ok_inv in H as (l1 & r & l2 & _ & H & ->).
    destruct r as [e | input].
    + injection H as <- <- <-. auto.
    + apply bind_Ok_inv in H as (l3 & [rest' err'] & l4 & Hrest & H & ->).
      injection H as <- <- <-. apply IH in Hrest as [Hh Hp].
      cbn [map setProofInput Header BasicChannelProofs]. rewrite Hh, Hp. auto.
Qed.

(** An order on the block numbers goes over to a list of tasks with the
    same headers. *)
Lemma StronglySorted_same_headers (R : Z -> Z -> Prop) (ts0 : list Task) :
  StronglySorted (fun a b => R (taskNumber a) (taskNumber b)) ts0 ->
  forall ts, map Header ts = map Header ts0 ->
    StronglySorted (fun a b => R (taskNumber a) (taskNumber b)) ts.
Proof.
  induction 1 as [| t ts0 Hs IH Hall]; intros [| u ts] Hh; try discriminate;
    constructor; injection Hh as Hu Hh.
  - apply IH. exact Hh.
  - rewrite List.Forall_forall in *. intros v Hv.
    apply (List.in_map Header) in Hv. rewrite Hh in Hv.
    apply List.in_map_iff in Hv as (v0 & Hv0 & Hin0).
    specialize (Hall v0 Hin0). unfold taskNumber in *. rewrite Hu, <- Hv0. exact Hall.
Qed.

(** A scan that returns tasks got them from [findTasks]. *)
Lemma Scan_Ok_inv beefyBlockNumber ts :
  result (Scan s beefyBlockNumber) = Ok ts ->
  exists beefyBlockMinusOneHash paraHead paraBlockHash,
    relay_GetBlockHash (relayConn s) (wrap64 (beefyBlockNumber - 1))
      = Some beefyBlockMinusOneHash
    /\ FetchParachainHead (relayConn s) beefyBlockMinusOneHash (paraID s)
        = Some (Some paraHead)
    /\ para_GetBlockHash (paraConn s) (types.Number paraHead) = Some paraBlockHash
    /\ result (findTasks s (types.Number paraHead) paraBlockHash) = Ok ts.
Proof.
  unfold Scan.
  destruct (relay_GetBlockHash _ _) as [h |] eqn:Hrelay; [| discriminate].
  rewrite bind_rpc_Some. cbn [result snd].
  destruct (FetchParachainHead _ _ _) as [[paraHead |] |] eqn:Hhead; try discriminate.
  rewrite bind_rpc_Some. cbn [result snd].
  destruct (para_GetBlockHash _ _) as [paraBlockHash |] eqn:Hhash; [| discriminate].
  rewrite bind_rpc_Some. cbn [result snd].
  intros H. exists h, paraHead, paraBlockHash. auto.
Qed.

(** The tasks of [findTasks]: none, or those of [findTasksImpl] for the
    nonces to find, as [gatherProofInputs] leaves them. *)
Lemma findTasks_Ok_inv paraBlock paraHash ts :
  result (findTasks s paraBlock paraHash) = Ok ts ->
  exists nonces,
    result (findNonces s paraHash (accounts s) ∅) = Ok nonces
    /\ ((size nonces = 0%nat /\ ts = [])
        \/ (size nonces <> 0%nat
            /\ exists ts0 err,
                 result (findTasksImpl s paraBlock nonces) = Ok ts0
                 /\ result (gatherProofInputs s ts0) = Ok (ts, err))).
Proof.
  unfold findTasks. intros H.
  apply bind_result_Ok_inv in H as (_ & _ & H).
  apply bind_result_Ok_inv in H as (nonces & Hnonces & H).
  exists nonces. split; [exact Hnonces |].
  destruct (bool_decide (size nonces = 0%nat)) eqn:Hsize.
  - apply bool_decide_eq_true_1 in Hsize. injection H as <-. left. auto.
  - apply bool_decide_eq_false_1 in Hsize. right. split; [exact Hsize |].
    apply bind_result_Ok_inv in H as (ts0 & Hts0 & H).
    apply bind_result_Ok_inv in H as ([ts1 err] & Hgather & H).
    injection H as <-. exists ts0, err. auto.
Qed.

(** Whatever the headers say, the tasks of a successful scan never go down
    in their block number: they were sorted. *)
Lemma tasks_never_descend beefyBlockNumber ts :
  result (Scan s beefyBlockNumber) = Ok ts ->
  forall (i j : nat) (ti tj : Task),
    (i < j)%nat -> ts !! i = Some ti -> ts !! j = Some tj ->
    types.Number (Header ti) <= types.Number (Header tj).
Proof.
  intros Hscan.
  apply Scan_Ok_inv in Hscan as (h & paraHead & paraBlockHash & _ & _ & _ & Hfind).
  apply findTasks_Ok_inv in Hfind
    as (nonces & _ & [[_ ->] | (_ & ts0 & err & Himpl & Hgather)]).
  { intros i j ti tj _ Hi. destruct i; discriminate. }
  unfold findTasksImpl in Himpl.
  apply bind_result_Ok_inv in Himpl as (w & _ & Hret). injection Hret as <-.
  pose proof (surjective_M (gatherProofInputs s (sortTasks (tasks w)))) as Hrun.
  rewrite Hgather in Hrun.
  apply gatherProofInputs_headers in Hrun as [Hheaders _].
  assert (Hsorted : StronglySorted (fun a b => taskNumber a <= taskNumber b)
                      (sortTasks (tasks w))).
  { apply Sorted_StronglySorted; [| apply sortTasks_sorted]. intros a b c. lia. }
  pose proof (StronglySorted_same_headers Z.le _ Hsorted ts Hheaders) as Hsorted'.
  intros i j ti tj. apply (strongly_sorted_lookup _ _ Hsorted').
Qed.

End TaskOrder.

(** C7 as it is written holds for every successful scan.  The scanner takes
    the number of a task from the header that the parachain connection
    returns for the block's hash, and nothing compares it with the number
    the walk asked for.  Over a connection whose headers all carry the
    number 95, the scan of [Chain.threeBlocks] succeeds with the tasks of
    the blocks 98, 95 and 92, and the first two of them have the same
    number. *)
Lemma tasks_with_the_same_number :
  exists ts ti tj,
    result (Scan (Samples.sameNumber Chain.threeBlocks 95) 1004) = Ok ts
    /\ length ts = 3%nat
    /\ ts !! 0%nat = Some ti
    /\ ts !! 1%nat = Some tj
    /\ BasicChannelProofs ti = [Chain.proofOf Chain.A 8 98; Chain.proofOf Chain.B 4 98]
    /\ BasicChannelProofs tj = [Chain.proofOf Chain.A 7 95]
    /\ ~ types.Number (Header ti) < types.Number (Header tj).
Proof.
  do 3 eexists. split; [vm_compute; reflexivity |].
  split; [reflexivity |]. split; [reflexivity |]. split; [reflexivity |].
  split; [reflexivity |]. split; [reflexivity |]. cbn. lia.
Qed.

(** C7 (amended): when the parachain returns for the hash of block [n] a
    header of block [n], the tasks of a successful scan are strictly
    increasing in their block number: for [i < j], the number of the [i]-th
    task's header is below that of the [j]-th. *)
Theorem tasks_strictly_increasing (s : Scanner) (beefyBlockNumber : Z)
    (ts : list Task) :
  headerNumbersAgree s ->
  result (Scan s beefyBlockNumber) = Ok ts ->
  forall (i j : nat) (ti tj : Task),
    (i < j)%nat -> ts !! i = Some ti -> ts !! j = Some tj ->
    types.Number (Header ti) < types.Number (Header tj).
Proof.
  intros Hagree Hscan.
  apply Scan_Ok_inv in Hscan as (h & paraHead & paraBlockHash & _ & _ & _ & Hfind).
  apply findTasks_Ok_inv in Hfind
    as (nonces & _ & [[_ ->] | (_ & ts0 & err & Himpl & Hgather)]).
  { intros i j ti tj _ Hi. destruct i; discriminate. }
  apply findTasksImpl_ascending in Himpl as [Hsorted _]; [| exact Hagree].
  pose proof (surjective_M (gatherProofInputs s ts0)) as Hrun. rewrite Hgather in Hrun.
  apply gatherProofInputs_headers in Hrun as [Hheaders _].
  pose proof (StronglySorted_same_headers Z.lt ts0 Hsorted ts Hheaders) as Hsorted'.
  intros i j ti tj. apply (strongly_sorted_lookup _ _ Hsorted').
Qed.

(** ** C9: the proof input of a task *)

Section ProofInputs.
Variable s : Scanner.

Lemma inclusionLoop_Ok_inv fuel : forall paraBlockNumber startBlock i l r,
  inclusionLoop s fuel paraBlockNumber startBlock i = (l, Ok r) ->
  exists relayBlockHash paraHead,
    relay_GetBlockHash (relayConn s) r = Some relayBlockHash
    /\ FetchParachainHead (relayConn s) relayBlockHash (paraID s) = Some (Some paraHead)
    /\ types.Number paraHead = paraBlockNumber.
Proof.
  induction fuel as [| fuel IH]; intros n start i l r; cbn [inclusionLoop];
    destruct (i <? wrap32 (start + FinalizationTimeout)); try discriminate.
  destruct (relay_GetBlockHash (relayConn s) i) as [h |] eqn:Hhash; [| discriminate].
  rewrite bind_rpc_Some.
  destruct (FetchParachainHead (relayConn s) h (paraID s)) as [[head |] |] eqn:Hhead;
    try discriminate.
  rewrite bind_rpc_Some. cbn [calls result fst snd].
  destruct (Z.eqb_spec n (types.Number head)) as [Heq | Hne].
  - intros [= _ <-]. exists h, head. auto.
  - intros H.
    destruct (inclusionLoop s fuel n start (wrap32 (i + 1))) as [l' r'] eqn:Hloop.
    cbn in H. injection H as _ ->. eapply IH. exact Hloop.
Qed.

Lemma wrapError_Ok_inv {A} f (m : M A) l (a : A) :
  wrapError f m = (l, Ok a) -> m = (l, Ok a).
Proof. destruct m as [l' [a' | e |]]; cbn; congruence. Qed.

Lemma findInclusionBlockNumber_Ok_inv paraBlockNumber l r :
  findInclusionBlockNumber s paraBlockNumber = (l, Ok r) ->
  exists relayBlockHash paraHead,
    relay_GetBlockHash (relayConn s) r = Some relayBlockHash
    /\ FetchParachainHead (relayConn s) relayBlockHash (paraID s) = Some (Some paraHead)
    /\ types.Number paraHead = paraBlockNumber.
Proof.
  unfold findInclusionBlockNumber. intros H.
  apply bind_Ok_inv in H as (l1 & key & l2 & _ & H & ->).
  apply bind_Ok_inv in H as (l3 & paraBlockHash & l4 & _ & H & ->).
  apply bind_Ok_inv in H as (l5 & [validationData |] & l6 & _ & H & ->);
    [| discriminate].
  eapply inclusionLoop_Ok_inv. exact H.
Qed.

Lemma rpc_Ok_inv {A} c (reply : option A) l (a : A) :
  rpc c reply = (l, Ok a) -> reply = Some a.
Proof. destruct reply; unfold rpc; [intros [= _ ->]; reflexivity | discriminate]. Qed.

Lemma gatherProofInput_Ok_inv t l input :
  gatherProofInput s t = (l, Ok input) -> inclusionWitness s t input.
Proof.
  unfold gatherProofInput. intros H.
  apply bind_Ok_inv in H as (l1 & relayBlockNumber & l2 & Hfind & H & ->).
  apply bind_Ok_inv in H as (l3 & relayBlockHash & l4 & Hhash & H & ->).
  apply bind_Ok_inv in H as (l5 & heads & l6 & Hheads & H & ->).
  injection H as <- <-.
  apply wrapError_Ok_inv, findInclusionBlockNumber_Ok_inv in Hfind
    as (h & head & Hh & Hhead & Hnumber).
  apply rpc_Ok_inv in Hhash, Hheads.
  split; [reflexivity |]. cbn [RelayBlockNumber ParaHeads].
  exists h, head. rewrite Hhash in Hh. injection Hh as <-. auto.
Qed.

Lemma catch_Ok_inv {A} (m : M A) l (r : error + A) :
  catch m = (l, Ok r) ->
  match r with inr a => m = (l, Ok a) | inl e => m = (l, Err e) end.
Proof. destruct m as [l' [a | e |]]; cbn; try discriminate; intros [= <- <-]; reflexivity. Qed.

(** Every proof input that [gatherProofInputs] sets comes with its
    witness. *)
Lemma gatherProofInputs_witness : forall ts l ts' err,
  Forall (fun t => ProofInput_ t = None) ts ->
  gatherProofInputs s ts = (l, Ok (ts', err)) ->
  Forall (fun t => forall input, ProofInput_ t = Some input -> inclusionWitness s t input) ts'.
Proof.
  induction ts as [| t ts IH]; intros l ts' err Hnone; cbn [gatherProofInputs].
  - intros [= <- <- <-]. constructor.
  - intros H. apply bind_Ok_inv in H as (l1 & r & l2 & Hcatch & H & ->).
    apply catch_Ok_inv in Hcatch.
    destruct r as [e | input].
    + injection H as <- <- <-.
      eapply Forall_impl; [exact Hnone |]. cbn. intros u Hu input Hinput. congruence.
    + apply bind_Ok_inv in H as (l3 & [rest' err'] & l4 & Hrest & H & ->).
      injection H as <- <- <-. apply Forall_cons in Hnone as [_ Hnone].
      constructor; [| eapply IH; eassumption].
      cbn [setProofInput ProofInput_]. intros input' [= <-].
      apply gatherProofInput_Ok_inv in Hcatch. exact Hcatch.
Qed.

End ProofInputs.

(** C9 as it is written asks that the head registered at the relay block of
    the proof input is the task's header and that the heads of the proof
    input contain that header.  On the chain [Chain.otherFork] the scan
    returns the task of block 97 with a proof input for relay block 1000,
    where the registered head has the number 97 and another state root: it
    is not the task's header, and the task's header is not among the heads
    of the proof input. *)
Lemma registered_head_is_not_the_header :
  exists t input relayBlockHash paraHead,
    result (Scan (Chain.scanner Chain.otherFork) 1004) = Ok [t]
    /\ ProofInput_ t = Some input
    /\ relay_GetBlockHash (relayConn (Chain.scanner Chain.otherFork))
         (RelayBlockNumber input) = Some relayBlockHash
    /\ FetchParachainHead (relayConn (Chain.scanner Chain.otherFork))
         relayBlockHash (ParaID input) = Some (Some paraHead)
    /\ paraHead <> Header t
    /\ ~ In (Header t) (ParaHeads input).
Proof.
  do 4 eexists.
  split; [vm_compute; reflexivity |].
  split; [reflexivity |].
  split; [vm_compute; reflexivity |].
  split; [vm_compute; reflexivity |].
  split; [discriminate |].
  cbn. intros [H | []]. discriminate H.
Qed.

(** C9 (amended): for every task of a successful scan that carries a proof
    input, the proof input has the scanner's parachain id, the head
    registered for the parachain at relay block [RelayBlockNumber] has the
    block number of the task's header, and [ParaHeads] is the list of heads
    fetched at that relay block. *)
Theorem proof_input_witnesses_inclusion (s : Scanner) (beefyBlockNumber : Z)
    (ts : list Task) (t : Task) (input : ProofInput) :
  result (Scan s beefyBlockNumber) = Ok ts ->
  In t ts ->
  ProofInput_ t = Some input ->
  ParaID input = paraID s
  /\ exists relayBlockHash paraHead,
       relay_GetBlockHash (relayConn s) (RelayBlockNumber input) = Some relayBlockHash
       /\ FetchParachainHead (relayConn s) relayBlockHash (paraID s) = Some (Some paraHead)
       /\ types.Number paraHead = types.Number (Header t)
       /\ FetchParachainHeads (relayConn s) relayBlockHash = Some (ParaHeads input).
Proof.
  intros Hscan Hin Hinput.
  apply Scan_Ok_inv in Hscan as (h & paraHead & paraBlockHash & _ & _ & _ & Hfind).
  apply findTasks_Ok_inv in Hfind
    as (nonces & _ & [[_ ->] | (_ & ts0 & err & Himpl & Hgather)]); [destruct Hin |].
  pose proof (surjective_M (gatherProofInputs s ts0)) as Hrun. rewrite Hgather in Hrun.
  apply gatherProofInputs_witness in Hrun.
  - rewrite List.Forall_forall in Hrun. exact (Hrun t Hin input Hinput).
  - unfold findTasksImpl in Himpl.
    apply bind_result_Ok_inv in Himpl as (w & Hw & Hret). injection Hret as <-.
    apply sortTasks_Forall.
    pose proof (surjective_M (walk s (Z.to_nat (types.Number paraHead)) nonces
                  (initialWalkState (types.Number paraHead) nonces))) as Hwalk.
    rewrite Hw in Hwalk. apply walk_tasks_no_input in Hwalk; [exact Hwalk | constructor].
Qed.

Lemma proof_input_witnesses_inclusion_witness :
  ParaID (mkProofInput 2000 1000 [Chain.headAtRelay Chain.singleMissing 1000]) = 2000
  /\ exists relayBlockHash paraHead,
       relay_GetBlockHash (relayConn (Chain.scanner Chain.singleMissing)) 1000
         = Some relayBlockHash
       /\ FetchParachainHead (relayConn (Chain.scanner Chain.singleMissing))
            relayBlockHash 2000 = Some (Some paraHead)
       /\ types.Number paraHead = 97
       /\ FetchParachainHeads (relayConn (Chain.scanner Chain.singleMissing)) relayBlockHash
          = Some [Chain.headAtRelay Chain.singleMissing 1000].
Proof.
  apply (proof_input_witnesses_inclusion (Chain.scanner Chain.singleMissing) 1004
           [mkTask (Chain.header Chain.singleMissing 97)
              [mkBundleProof (mkBundle Chain.A 6 []) (mkMerkleProof 77 [])]
              (Some (mkProofInput 2000 1000 [Chain.headAtRelay Chain.singleMissing 1000]))]
           (mkTask (Chain.header Chain.singleMissing 97)
              [mkBundleProof (mkBundle Chain.A 6 []) (mkMerkleProof 77 [])]
              (Some (mkProofInput 2000 1000 [Chain.headAtRelay Chain.singleMissing 1000])))).
  - vm_compute. reflexivity.
  - left. reflexivity.
  - reflexivity.
Defined.

(** ** C1: a parachain block that was not included in its window *)

(** The error of [gatherProofInputs] does not reach the caller of
    [findTasks]. *)
Lemma findTasks_drops_inclusion_error (s : Scanner) (paraBlock : Z)
    (paraHash : types.Hash) (nonces : gmap Z Z) (ts0 ts : list Task) (e : error) :
  NewBasicInboundChannel (ethConn s) = Some tt ->
  result (findNonces s paraHash (accounts s) ∅) = Ok nonces ->
  size nonces <> 0%nat ->
  result (findTasksImpl s paraBlock nonces) = Ok ts0 ->
  result (gatherProofInputs s ts0) = Ok (ts, Some e) ->
  result (findTasks s paraBlock paraHash) = Ok ts.
Proof.
  intros Hnew Hnonces Hsize Himpl Hgather. unfold findTasks.
  rewrite Hnew, orFail_Some.
  rewrite (result_bind_Ok _ _ _ Hnonces).
  rewrite bool_decide_eq_false_2 by exact Hsize.
  rewrite (result_bind_Ok _ _ _ Himpl), (result_bind_Ok _ _ _ Hgather).
  reflexivity.
Qed.

(** C1: on the chain [Chain.notIncluded] the walker produces the task of
    block 97, whose relay parent is 997; none of the relay blocks 998 to
    1001 has a registered head with the number 97, and
    [findInclusionBlockNumber] fails with [ScanTerminated].  The scan
    nevertheless returns the task list, without an error and with no proof
    input on the task. *)
Theorem inclusion_not_found_is_not_reported :
  Forall (fun r => types.Number (Chain.headAtRelay Chain.notIncluded r) <> 97)
    [998; 999; 1000; 1001]
  /\ result (findInclusionBlockNumber (Chain.scanner Chain.notIncluded) 97)
     = Err ScanTerminated
  /\ result (Scan (Chain.scanner Chain.notIncluded) 1011)
     = Ok [mkTask (Chain.header Chain.notIncluded 97)
             [mkBundleProof (mkBundle Chain.A 6 []) (mkMerkleProof 77 [])] None].
Proof.
  split; [repeat constructor; discriminate |].
  split; vm_compute; reflexivity.
Qed.

(** ** C2: several commitment digest items in one block *)

(** C2: on the chain [Chain.twoItems] block 90 has two commitment digest
    items.  The scan for the first item returns the proofs of [{A, 6}] and
    [{B, 9}] and marks [A] done; the scan for the second item returns the
    proof of [{B, 9}] alone.  The task of block 90 carries only the proofs
    of the second scan: the proof of [{A, 6}] is lost. *)
Theorem later_commitment_item_replaces_proofs :
  let s := Chain.scanner Chain.twoItems in
  let proofA := mkBundleProof (mkBundle Chain.A 6 []) (mkMerkleProof 77 []) in
  let proofB := mkBundleProof (mkBundle Chain.B 9 []) (mkMerkleProof 77 []) in
  result (scanForBasicChannelProofs s 77 Chain.targets {[Chain.A; Chain.B]}
            [mkBundle Chain.A 6 []; mkBundle Chain.B 9 []])
    = Ok (mkScanState {[Chain.B]} [proofA; proofB] false)
  /\ result (scanForBasicChannelProofs s 77 Chain.targets {[Chain.B]}
               [mkBundle Chain.A 6 []; mkBundle Chain.B 9 []])
     = Ok (mkScanState {[Chain.B]} [proofB] false)
  /\ result (findTasksImpl s 100 Chain.targets)
     = Ok [mkTask (Chain.header Chain.twoItems 90) [proofB] None].
Proof.
  cbv zeta. repeat split; vm_compute; reflexivity.
Qed.

(** ** C10: the block before the BEEFY block *)

(** C10: the first call of a scan asks the relay chain for the hash of block
    [(beefyBlockNumber - 1) mod 2^64]; for the BEEFY block 0 this is block
    [2^64 - 1].  A scan at 0 is not refused: on the chain [Chain.quiet] it
    goes on from the head registered at that block and returns no task. *)
Theorem scan_has_no_lower_bound (s : Scanner) (beefyBlockNumber : Z) :
  (exists rest,
      calls (Scan s beefyBlockNumber)
      = RelayGetBlockHash ((beefyBlockNumber - 1) mod 2 ^ 64) :: rest)
  /\ (exists rest,
        calls (Scan s 0) = RelayGetBlockHash 18446744073709551615 :: rest)
  /\ Scan (Chain.scanner Chain.quiet) 0
     = ([RelayGetBlockHash 18446744073709551615;
         RelayFetchParachainHead 18446744073709556615 2000;
         ParaGetBlockHash 18446744073709550712],
        Ok []).
Proof.
  assert (Hfirst : forall b, exists rest,
             calls (Scan s b) = RelayGetBlockHash (wrap64 (b - 1)) :: rest).
  { intros b. unfold Scan.
    destruct (relay_GetBlockHash (relayConn s) (wrap64 (b - 1))) as [h |].
    - rewrite bind_rpc_Some. eexists. reflexivity.
    - eexists. reflexivity. }
  split; [apply Hfirst |]. split; [apply (Hfirst 0) |].
  vm_compute. reflexivity.
Qed.

(** ** C5: a commitment digest item needs its event *)

Section CommitmentEvents.
Variable s : Scanner.
Variable nonces : gmap Z Z.

Lemma scanDigestItems_app events pre : forall rest st l1 st1,
  scanDigestItems s nonces events pre st = (l1, Ok st1) ->
  scanDigestItems s nonces events (pre ++ rest) st =
    (l1 ++ calls (scanDigestItems s nonces events rest st1),
     result (scanDigestItems s nonces events rest st1)).
Proof.
  induction pre as [| item pre IH]; intros rest st l1 st1; cbn [scanDigestItems app].
  - intros [= <- <-]. apply surjective_M.
  - intros H. apply bind_Ok_inv in H as (la & sta & lb & Ha & Hb & ->).
    rewrite Ha, bind_Ok, (IH rest _ _ _ Hb). cbn [calls result fst snd].
    rewrite app_assoc. reflexivity.
Qed.

(** A commitment item reached while the scan is not done fails without
    its event, and fails when the event has another hash. *)
Lemma scanDigestItem_fatal events item st :
  IsCommitment item = true ->
  scanDone st = false ->
  (events = None ->
   scanDigestItem s nonces events item st = fail CommittedEventNotFound)
  /\ (forall ev, events = Some ev -> Hash ev <> CommitmentHash item ->
      scanDigestItem s nonces events item st = fail CommitmentHashMismatch).
Proof.
  intros Hcommit Hdone. unfold scanDigestItem. rewrite Hcommit, Hdone. cbn [negb].
  split.
  - intros ->. reflexivity.
  - intros ev -> Hne.
    destruct (Z.eqb_spec (Hash ev) (CommitmentHash item)); [contradiction | reflexivity].
Qed.

(** The error of a block the walk reaches is the error of the walk. *)
Lemma walk_reaches_error w0 w e :
  walkReaches s nonces w0 w ->
  walkCondition w = true ->
  result (walkBlock s nonces w) = Err e ->
  forall fuel, (Z.to_nat (currentBlockNumber w0) <= fuel)%nat ->
    result (walk s fuel nonces w0) = Err e.
Proof.
  intros Hreach Hcond Herr.
  induction Hreach as [w | w w' w'' l Hc Hblock Hreach IH]; intros fuel Hfuel.
  - apply walkCondition_true in Hcond as Hpos. destruct Hpos as [_ Hpos].
    destruct fuel as [| fuel]; [lia |].
    cbn [walk]. rewrite Hcond. apply result_bind_Err. exact Herr.
  - apply walkCondition_true in Hc as Hpos. destruct Hpos as [_ Hpos].
    destruct fuel as [| fuel]; [lia |].
    cbn [walk]. rewrite Hc, Hblock, bind_Ok. cbn [result snd].
    apply IH; [exact Hcond | exact Herr |].
    apply walkBlock_Ok_inv in Hblock as (_ & _ & _ & _ & _ & _ & Hcur & _).
    pose proof (wrap64_pred_lt _ Hpos) as Hlt. rewrite <- Hcur in Hlt. lia.
Qed.

Lemma walkBlock_digest_error w blockHash header items events e :
  para_GetBlockHash (paraConn s) (currentBlockNumber w) = Some blockHash ->
  para_GetHeader (paraConn s) blockHash = Some header ->
  ExtractAuxiliaryDigestItems s (types.Digest header) = Some items ->
  items <> [] ->
  eventQueryClient s blockHash = Some events ->
  result (scanDigestItems s nonces events items
            (mkScanState (basicChannelScanAccounts w) [] (scanBasicChannelDone w)))
    = Err e ->
  result (walkBlock s nonces w) = Err e.
Proof.
  intros Hhash Hheader Hitems Hne Hevents Herr. unfold walkBlock.
  rewrite Hhash, bind_rpc_Some, Hheader, bind_rpc_Some, Hitems, orFail_Some.
  cbn [result snd].
  destruct items as [| item items]; [contradiction |]. cbn [length Nat.eqb].
  rewrite Hevents, bind_rpc_Some. cbn [result snd].
  apply result_bind_Err. exact Herr.
Qed.

End CommitmentEvents.

(** C5: let the walk of [findTasksImpl] reach a block, some account being
    still scanned, and let a commitment digest item of the block be reached
    with the scan still not done.  If the block has no [Committed] event,
    the walk fails with [CommittedEventNotFound]; if the event's hash is not
    the digest item's, it fails with [CommitmentHashMismatch].  In both
    cases [findTasksImpl] returns the error and no tasks. *)
Theorem commitment_needs_matching_event (s : Scanner) (lastParaBlockNumber : Z)
    (nonces : gmap Z Z) (w : WalkState) (blockHash : types.Hash)
    (header : types.Header) (pre post : list AuxiliaryDigestItem)
    (item : AuxiliaryDigestItem) (events : option BasicChannelEvent)
    (l : list Call) (st : ScanState) :
  walkReaches s nonces (initialWalkState lastParaBlockNumber nonces) w ->
  walkCondition w = true ->
  para_GetBlockHash (paraConn s) (currentBlockNumber w) = Some blockHash ->
  para_GetHeader (paraConn s) blockHash = Some header ->
  ExtractAuxiliaryDigestItems s (types.Digest header) = Some (pre ++ item :: post) ->
  eventQueryClient s blockHash = Some events ->
  scanDigestItems s nonces events pre
    (mkScanState (basicChannelScanAccounts w) [] (scanBasicChannelDone w)) = (l, Ok st) ->
  scanDone st = false ->
  IsCommitment item = true ->
  match events with
  | None =>
      result (findTasksImpl s lastParaBlockNumber nonces) = Err CommittedEventNotFound
  | Some ev =>
      Hash ev <> CommitmentHash item ->
      result (findTasksImpl s lastParaBlockNumber nonces) = Err CommitmentHashMismatch
  end.
Proof.
  intros Hreach Hcond Hhash Hheader Hitems Hevents Hpre Hdone Hcommit.
  destruct (scanDigestItem_fatal s nonces events item st Hcommit Hdone) as [Hnone Hsome].
  assert (Hwalk : forall e,
             scanDigestItem s nonces events item st = fail e ->
             result (findTasksImpl s lastParaBlockNumber nonces) = Err e).
  { intros e Hitem. unfold findTasksImpl. apply result_bind_Err.
    apply (walk_reaches_error s nonces _ w e Hreach Hcond); [| cbn; lia].
    apply (walkBlock_digest_error s nonces w blockHash header (pre ++ item :: post) events);
      try assumption.
    - destruct pre; discriminate.
    - rewrite (scanDigestItems_app s nonces events pre _ _ _ _ Hpre). cbn [result snd].
      cbn [scanDigestItems]. rewrite Hitem. reflexivity. }
  destruct events as [ev |].
  - intros Hne. apply Hwalk. apply (Hsome ev eq_refl Hne).
  - apply Hwalk. apply Hnone. reflexivity.
Qed.

Lemma commitment_needs_matching_event_witness :
  result (findTasksImpl (Chain.scanner Chain.noEvent) 97 {[Chain.A := 6]})
    = Err CommittedEventNotFound
  /\ result (findTasksImpl (Chain.scanner Chain.otherHash) 97 {[Chain.A := 6]})
     = Err CommitmentHashMismatch.
Proof.
  split.
  - apply (commitment_needs_matching_event (Chain.scanner Chain.noEvent) 97
             {[Chain.A := 6]} (initialWalkState 97 {[Chain.A := 6]}) 1097
             (Chain.header Chain.noEvent 97) [] [] (mkAux true 77) None
             [] (mkScanState {[Chain.A]} [] false)).
    + apply reaches_here.
    + vm_compute. reflexivity.
    + reflexivity.
    + reflexivity.
    + reflexivity.
    + reflexivity.
    + vm_compute. reflexivity.
    + reflexivity.
    + reflexivity.
  - apply (commitment_needs_matching_event (Chain.scanner Chain.otherHash) 97
             {[Chain.A := 6]} (initialWalkState 97 {[Chain.A := 6]}) 1097
             (Chain.header Chain.otherHash 97) [] [] (mkAux true 77)
             (Some (mkEvent 78 [mkBundle Chain.A 6 []]))
             [] (mkScanState {[Chain.A]} [] false)).
    + apply reaches_here.
    + vm_compute. reflexivity.
    + reflexivity.
    + reflexivity.
    + reflexivity.
    + reflexivity.
    + vm_compute. reflexivity.
    + reflexivity.
    + reflexivity.
    + discriminate.
Defined.

(** ** C4: a proof with the wrong root stops its account only *)

Section SoftMismatch.
Variable s : Scanner.
Variable nonces : gmap Z Z.











End SoftMismatch.




(** ** C6: the nonces to find *)

Section NonceComparison.
Variable s : Scanner.
Variable paraHash : types.Hash.

Lemma compareNonces_Ok_inv account m0 l m :
  compareNonces s paraHash account m0 = (l, Ok m) ->
  exists eth key ok,
    basicContract_Nonce (ethConn s) account = Some eth
    /\ CreateStorageKey (paraConn s) (BasicOutboundChannel_Nonce account) = Some key
    /\ GetStorage_Nonce (paraConn s) key paraHash = Some ok
    /\ l = [EthNonce account; ParaGetStorage key paraHash]
    /\ m = match nonceToFind eth ok with
           | Some target => <[account := target]> m0
           | None => m0
           end.
Proof.
  unfold compareNonces, nonceToFind.
  destruct (basicContract_Nonce (ethConn s) account) as [eth |] eqn:Heth; [| discriminate].
  rewrite bind_rpc_Some.
  destruct (CreateStorageKey (paraConn s) (BasicOutboundChannel_Nonce account))
    as [key |] eqn:Hkey; [| discriminate].
  rewrite orFail_Some.
  destruct (GetStorage_Nonce (paraConn s) key paraHash) as [ok |] eqn:Hok; [| discriminate].
  rewrite bind_rpc_Some. cbn [calls result fst snd].
  intros H. exists eth, key, ok. do 3 (split; [first [reflexivity | assumption] |]).
  replace (match ok with Some n => n | None => 0 end) with (default 0 ok) in H
    by (destruct ok; reflexivity).
  destruct (eth <? default 0 ok); injection H as <- <-; auto.
Qed.

Lemma findNonces_Ok_inv accounts : forall m0 l m,
  findNonces s paraHash accounts m0 = (l, Ok m) ->
  Forall isNonceRead l
  /\ (forall a, ~ In a accounts -> m !! a = m0 !! a)
  /\ (forall a, In a accounts ->
      exists eth key ok,
        basicContract_Nonce (ethConn s) a = Some eth
        /\ CreateStorageKey (paraConn s) (BasicOutboundChannel_Nonce a) = Some key
        /\ GetStorage_Nonce (paraConn s) key paraHash = Some ok
        /\ m !! a = match nonceToFind eth ok with
                    | Some target => Some target
                    | None => m0 !! a
                    end).
Proof.
  induction accounts as [| account rest IH]; intros m0 l m; cbn [findNonces].
  - intros [= <- <-]. split; [constructor |]. split; [reflexivity | intros a []].
  - intros H. apply bind_Ok_inv in H as (l1 & m1 & l2 & H1 & H2 & ->).
    apply compareNonces_Ok_inv in H1 as (eth & key & ok & Heth & Hkey & Hok & -> & Hm1).
    apply IH in H2 as (Hreads & Hout & Hin).
    assert (Hm1a : m1 !! account = match nonceToFind eth ok with
                                   | Some target => Some target
                                   | None => m0 !! account
                                   end).
    { rewrite Hm1. destruct (nonceToFind eth ok); [apply lookup_insert_eq | reflexivity]. }
    assert (Hm1o : forall a, a <> account -> m1 !! a = m0 !! a).
    { intros a Ha. rewrite Hm1.
      destruct (nonceToFind eth ok); [apply lookup_insert_ne; congruence | reflexivity]. }
    split; [| split].
    + repeat constructor. exact Hreads.
    + intros a Ha. rewrite Hout by (intros Hr; apply Ha; right; exact Hr).
      apply Hm1o. intros ->. apply Ha. left. reflexivity.
    + intros a Ha.
      destruct (List.in_dec Z.eq_dec a rest) as [Hrest | Hrest].
      * destruct (Hin a Hrest) as (eth' & key' & ok' & Heth' & Hkey' & Hok' & Hma).
        exists eth', key', ok'. do 3 (split; [assumption |]). rewrite Hma.
        destruct (Z.eq_dec a account) as [-> | Hne].
        -- rewrite Hm1a. rewrite Heth in Heth'. injection Heth' as <-.
           rewrite Hkey in Hkey'. injection Hkey' as <-.
           rewrite Hok in Hok'. injection Hok' as <-.
           destruct (nonceToFind eth ok); reflexivity.
        -- rewrite (Hm1o a Hne). reflexivity.
      * destruct Ha as [<- | Ha]; [| contradiction].
        exists eth, key, ok. do 3 (split; [assumption |]).
        rewrite (Hout account Hrest). exact Hm1a.
Qed.

End NonceComparison.

(** C6: let the reads of the nonces succeed and give [uint64] values, and
    let [nonces] be the map [findTasks] builds from them for the parachain
    hash.  An account is in the map, with the target [eth + 1], exactly
    when it is one of the scanner's accounts and its parachain nonce at that
    hash (0 when the storage is absent) is above its Ethereum nonce [eth].
    If the map is empty, the scan returns the empty task list, and after
    the three calls that find the starting block it has done nothing but
    read nonces: no parachain block is visited. *)
Theorem nonces_to_find (s : Scanner) (beefyBlockNumber : Z)
    (beefyBlockMinusOneHash paraBlockHash : types.Hash) (paraHead : types.Header)
    (l : list Call) (nonces : gmap Z Z) :
  noncesAreUint64 s ->
  relay_GetBlockHash (relayConn s) (wrap64 (beefyBlockNumber - 1))
    = Some beefyBlockMinusOneHash ->
  FetchParachainHead (relayConn s) beefyBlockMinusOneHash (paraID s)
    = Some (Some paraHead) ->
  para_GetBlockHash (paraConn s) (types.Number paraHead) = Some paraBlockHash ->
  NewBasicInboundChannel (ethConn s) = Some tt ->
  findNonces s paraBlockHash (accounts s) ∅ = (l, Ok nonces) ->
  (forall a, In a (accounts s) ->
     exists eth key ok,
       basicContract_Nonce (ethConn s) a = Some eth
       /\ CreateStorageKey (paraConn s) (BasicOutboundChannel_Nonce a) = Some key
       /\ GetStorage_Nonce (paraConn s) key paraBlockHash = Some ok
       /\ nonces !! a = if eth <? default 0 ok then Some (eth + 1) else None)
  /\ (forall a, ~ In a (accounts s) -> nonces !! a = None)
  /\ (nonces = ∅ ->
      Scan s beefyBlockNumber
      = ([RelayGetBlockHash (wrap64 (beefyBlockNumber - 1));
          RelayFetchParachainHead beefyBlockMinusOneHash (paraID s);
          ParaGetBlockHash (types.Number paraHead)] ++ l,
         Ok [])
      /\ Forall isNonceRead l
      /\ visitedBlocks l = []).
Proof.
  intros [Hethrange Hpararange] Hrelay Hhead Hhash Hnew Hnonces.
  pose proof (findNonces_Ok_inv s paraBlockHash _ _ _ _ Hnonces) as (Hreads & Hout & Hin).
  split; [| split].
  - intros a Ha. destruct (Hin a Ha) as (eth & key & ok & Heth & Hkey & Hok & Hma).
    exists eth, key, ok. do 3 (split; [assumption |]). rewrite Hma.
    unfold nonceToFind. rewrite lookup_empty.
    destruct (Z.ltb_spec eth (default 0 ok)) as [Hlt | Hge]; [| reflexivity].
    f_equal. unfold wrap64. apply Z.mod_small.
    specialize (Hethrange a eth Heth).
    destruct ok as [n |]; cbn in Hlt; [| lia].
    specialize (Hpararange key paraBlockHash n Hok). lia.
  - intros a Ha. rewrite (Hout a Ha). apply lookup_empty.
  - intros ->. split; [| split; [exact Hreads |]].
    + unfold Scan. rewrite Hrelay, bind_rpc_Some, Hhead, bind_rpc_Some.
      rewrite Hhash, bind_rpc_Some. unfold findTasks.
      rewrite Hnew, orFail_Some, Hnonces, bind_Ok.
      rewrite bool_decide_eq_true_2 by apply map_size_empty.
      cbn. rewrite app_nil_r. reflexivity.
    + clear - Hreads. induction Hreads as [| c l Hc _ IH]; [reflexivity |].
      destruct c; cbn in Hc |- *; try contradiction; exact IH.
Qed.

Lemma Chain_noncesAreUint64 (p : Chain.Params) :
  (forall a, 0 <= Chain.ethNonceOf p a < 2 ^ 64) ->
  (forall a n, Chain.paraNonceOf p a = Some n -> 0 <= n < 2 ^ 64) ->
  noncesAreUint64 (Chain.scanner p).
Proof.
  intros Heth Hpara. split.
  - intros a n [= <-]. apply Heth.
  - intros key h n. cbn.
    destruct key as [| k [| a [| x key]]]; try discriminate;
      destruct k as [| [k | k |] | k]; try discriminate.
    intros [= H]. eapply Hpara. exact H.
Qed.

Lemma nonces_to_find_witness :
  Scan (Chain.scanner Chain.noDrift) 1004
  = ([RelayGetBlockHash 1003; RelayFetchParachainHead 6003 2000; ParaGetBlockHash 100;
      EthNonce 10; ParaGetStorage [1; 10] 1100],
     Ok []).
Proof.
  destruct (nonces_to_find (Chain.scanner Chain.noDrift) 1004 6003 1100
              (Chain.headAtRelay Chain.noDrift 1003)
              [EthNonce 10; ParaGetStorage [1; 10] 1100] ∅)
    as (_ & _ & Hempty).
  - apply Chain_noncesAreUint64.
    + intros a. cbn. lia.
    + intros a n. cbn. destruct (a =? Chain.A); [intros [= <-]; lia | discriminate].
  - reflexivity.
  - reflexivity.
  - reflexivity.
  - reflexivity.
  - vm_compute. reflexivity.
  - destruct (Hempty eq_refl) as [Hscan _]. exact Hscan.
Defined.

Lemma Chain_headerNumbersAgree (p : Chain.Params) :
  headerNumbersAgree (Chain.scanner p).
Proof.
  intros n h header. cbn. intros [= <-] [= <-]. cbn. lia.
Qed.

Lemma tasks_strictly_increasing_witness :
  result (Scan (Chain.scanner Chain.threeBlocks) 1004)
  = Ok [Chain.taskOf Chain.threeBlocks 92 [Chain.proofOf Chain.A 6 92];
        Chain.taskOf Chain.threeBlocks 95 [Chain.proofOf Chain.A 7 95];
        Chain.taskOf Chain.threeBlocks 98
          [Chain.proofOf Chain.A 8 98; Chain.proofOf Chain.B 4 98]]
  /\ types.Number (Header (Chain.taskOf Chain.threeBlocks 92 [Chain.proofOf Chain.A 6 92]))
     < types.Number (Header (Chain.taskOf Chain.threeBlocks 98
                               [Chain.proofOf Chain.A 8 98; Chain.proofOf Chain.B 4 98])).
Proof.
  assert (Hscan : result (Scan (Chain.scanner Chain.threeBlocks) 1004)
    = Ok [Chain.taskOf Chain.threeBlocks 92 [Chain.proofOf Chain.A 6 92];
          Chain.taskOf Chain.threeBlocks 95 [Chain.proofOf Chain.A 7 95];
          Chain.taskOf Chain.threeBlocks 98
            [Chain.proofOf Chain.A 8 98; Chain.proofOf Chain.B 4 98]]).
  { vm_compute. reflexivity. }
  split; [exact Hscan |].
  apply (tasks_strictly_increasing (Chain.scanner Chain.threeBlocks) 1004 _
           (Chain_headerNumbersAgree Chain.threeBlocks) Hscan 0%nat 2%nat).
  - lia.
  - reflexivity.
  - reflexivity.
Defined.

Lemma backward_walk_terminates_witness :
  0 <= 100 < 2 ^ 64
  /\ result (findTasksImpl (Chain.scanner Chain.threeBlocks) 100 Chain.targets)
     <> OutOfFuel.
Proof.
  assert (Hrange : 0 <= 100 < 2 ^ 64) by lia.
  split; [exact Hrange |].
  destruct (backward_walk_terminates (Chain.scanner Chain.threeBlocks) 100 Chain.targets
              Hrange) as [Hfuel _].
  exact Hfuel.
Defined.

(** ** Fuel *)

Section Fuel.
Variable s : Scanner.

Lemma inclusionLoop_fuel fuel : forall paraBlockNumber startBlock i,
  0 <= startBlock < 2 ^ 32 ->
  startBlock <= i ->
  startBlock + FinalizationTimeout <= i + Z.of_nat fuel ->
  result (inclusionLoop s fuel paraBlockNumber startBlock i) <> OutOfFuel.
Proof.
  unfold FinalizationTimeout. change (2 ^ 32) with 4294967296.
  induction fuel as [| fuel IH]; intros n start i Hstart Hi Hfuel; cbn [inclusionLoop];
    unfold FinalizationTimeout, wrap32; change (2 ^ 32) with 4294967296;
    destruct (Z.ltb_spec i ((start + 4) mod 4294967296)) as [Hlt | Hge];
    try discriminate.
  - exfalso.
    destruct (Z.lt_ge_cases (start + 4) 4294967296) as [Hsmall | Hbig].
    + rewrite Z.mod_small in Hlt by lia. lia.
    + rewrite <- (Z.mod_unique (start + 4) 4294967296 1 (start + 4 - 4294967296)) in Hlt;
        lia.
  - assert (Hsmall : start + 4 < 4294967296).
    { destruct (Z.lt_ge_cases (start + 4) 4294967296) as [Hsmall | Hbig]; [exact Hsmall |].
      rewrite <- (Z.mod_unique (start + 4) 4294967296 1 (start + 4 - 4294967296)) in Hlt;
        lia. }
    rewrite Z.mod_small in Hlt by lia.
    apply bind_fuel; [destruct (relay_GetBlockHash _ _); discriminate |].
    intros h _. apply bind_fuel; [destruct (FetchParachainHead _ _ _); discriminate |].
    intros [head |] _; [| discriminate].
    destruct (n =? types.Number head); [discriminate |].
    replace ((i + 1) mod 4294967296) with (i + 1) by (symmetry; apply Z.mod_small; lia).
    specialize (IH n start (i + 1)). unfold wrap32 in IH.
    change (2 ^ 32) with 4294967296 in IH. apply IH; lia.
Qed.

Lemma findInclusionBlockNumber_fuel paraBlockNumber :
  result (findInclusionBlockNumber s paraBlockNumber) <> OutOfFuel.
Proof.
  unfold findInclusionBlockNumber.
  apply bind_fuel; [destruct (CreateStorageKey _ _); discriminate |].
  intros key _. apply bind_fuel; [destruct (para_GetBlockHash _ _); discriminate |].
  intros h _. apply bind_fuel; [destruct (GetStorage_ValidationData _ _ _); discriminate |].
  intros [validationData |] _; [| discriminate].
  apply inclusionLoop_fuel.
  - unfold wrap32. apply Z.mod_pos_bound. lia.
  - lia.
  - unfold FinalizationTimeout. lia.
Qed.

Lemma gatherProofInputs_fuel : forall ts,
  result (gatherProofInputs s ts) <> OutOfFuel.
Proof.
  induction ts as [| t ts IH]; cbn [gatherProofInputs]; [discriminate |].
  apply bind_fuel.
  - unfold gatherProofInput.
    pose proof (findInclusionBlockNumber_fuel (types.Number (Header t))) as Hfind.
    destruct (findInclusionBlockNumber s (types.Number (Header t))) as [l [r | e |]];
      cbn in Hfind |- *; try congruence; try discriminate.
    destruct (relay_GetBlockHash (relayConn s) r) as [h |]; [| discriminate].
    cbn. destruct (FetchParachainHeads (relayConn s) h); discriminate.
  - intros [e | input] _; [discriminate |].
    apply bind_fuel; [exact IH |]. intros [rest err] _. discriminate.
Qed.

Lemma walk_fuel nonces fuel : forall w,
  (Z.to_nat (currentBlockNumber w) <= fuel)%nat ->
  result (walk s fuel nonces w) <> OutOfFuel.
Proof.
  induction fuel as [| fuel IH]; intros w Hfuel; cbn [walk];
    destruct (walkCondition w) eqn:Hcond; try discriminate.
  - apply walkCondition_true in Hcond. lia.
  - apply walkCondition_true in Hcond as [_ Hpos].
    apply bind_fuel; [apply walkBlock_fuel |].
    intros w' Hw'. apply IH.
    pose proof (surjective_M (walkBlock s nonces w)) as Hblock. rewrite Hw' in Hblock.
    apply walkBlock_Ok_inv in Hblock as (_ & _ & _ & _ & _ & _ & Hcur & _).
    pose proof (wrap64_pred_lt _ Hpos). lia.
Qed.

Lemma findNonces_fuel paraHash accounts : forall m,
  result (findNonces s paraHash accounts m) <> OutOfFuel.
Proof.
  induction accounts as [| a rest IH]; intros m; cbn [findNonces]; [discriminate |].
  apply bind_fuel; [| intros; apply IH].
  unfold compareNonces.
  apply bind_fuel; [destruct (basicContract_Nonce _ _); discriminate |].
  intros eth _. apply bind_fuel; [destruct (CreateStorageKey _ _); discriminate |].
  intros key _. apply bind_fuel; [destruct (GetStorage_Nonce _ _ _); discriminate |].
  intros ok _. destruct (_ <? _); discriminate.
Qed.

(** The scan always returns: a list of tasks or an error. *)
Lemma Scan_returns beefyBlockNumber :
  result (Scan s beefyBlockNumber) <> OutOfFuel.
Proof.
  unfold Scan.
  apply bind_fuel; [destruct (relay_GetBlockHash _ _); discriminate |].
  intros h _. apply bind_fuel; [destruct (FetchParachainHead _ _ _); discriminate |].
  intros [paraHead |] _; [| discriminate].
  apply bind_fuel; [destruct (para_GetBlockHash _ _); discriminate |].
  intros paraBlockHash _. unfold findTasks.
  apply bind_fuel; [destruct (NewBasicInboundChannel _); discriminate |].
  intros _ _. apply bind_fuel; [apply findNonces_fuel |].
  intros nonces _. destruct (bool_decide _); [discriminate |].
  apply bind_fuel.
  - unfold findTasksImpl. apply bind_fuel; [| discriminate].
    apply walk_fuel. cbn. lia.
  - intros ts _. apply bind_fuel; [apply gatherProofInputs_fuel |].
    intros [ts' err] _. discriminate.
Qed.

End Fuel.

(** ** Scenarios *)

(** One missing nonce: one task, for block 97, with the proof of the bundle
    and the inclusion block 1000. *)
Example scan_single_missing :
  Scan (Chain.scanner Chain.singleMissing) 1004
  = ([RelayGetBlockHash 1003; RelayFetchParachainHead 6003 2000; ParaGetBlockHash 100;
      EthNonce 10; ParaGetStorage [1; 10] 1100;
      ParaGetBlockHash 100; ParaGetHeader 1100;
      ParaGetBlockHash 99; ParaGetHeader 1099;
      ParaGetBlockHash 98; ParaGetHeader 1098;
      ParaGetBlockHash 97; ParaGetHeader 1097; QueryEvent 1097; ParaGetMerkleProof 77 0;
      ParaGetBlockHash 97; ParaGetStorage [2] 1097;
      RelayGetBlockHash 998; RelayFetchParachainHead 5998 2000;
      RelayGetBlockHash 999; RelayFetchParachainHead 5999 2000;
      RelayGetBlockHash 1000; RelayFetchParachainHead 6000 2000;
      RelayGetBlockHash 1000; RelayFetchParachainHeads 6000],
     Ok [Chain.taskOf Chain.singleMissing 97 [Chain.proofOf Chain.A 6 77]]).
Proof. vm_compute. reflexivity. Qed.

(** The missing nonce is not committed yet: block 97 commits the nonce 5,
    below the target 6, and the scan ends there without a task. *)
Example scan_not_yet_committed :
  Scan (Chain.scanner (Chain.withBlock Chain.singleMissing 97 [Chain.commitment 77]
                         (Some (mkEvent 77 [mkBundle Chain.A 5 []])))) 1004
  = ([RelayGetBlockHash 1003; RelayFetchParachainHead 6003 2000; ParaGetBlockHash 100;
      EthNonce 10; ParaGetStorage [1; 10] 1100;
      ParaGetBlockHash 100; ParaGetHeader 1100;
      ParaGetBlockHash 99; ParaGetHeader 1099;
      ParaGetBlockHash 98; ParaGetHeader 1098;
      ParaGetBlockHash 97; ParaGetHeader 1097; QueryEvent 1097],
     Ok []).
Proof. vm_compute. reflexivity. Qed.

(** * Further properties of the scanner *)

(** ** The inclusion window *)

Section InclusionWindow.
Variable s : Scanner.

Lemma relayHeadNumber_Some j h head :
  relay_GetBlockHash (relayConn s) j = Some h ->
  FetchParachainHead (relayConn s) h (paraID s) = Some (Some head) ->
  relayHeadNumber s j = Some (types.Number head).
Proof. intros Hh Hhead. unfold relayHeadNumber. rewrite Hh, Hhead. reflexivity. Qed.

Lemma wrap32_small (z : Z) : 0 <= z < 2 ^ 32 -> wrap32 z = z.
Proof. intros H. unfold wrap32. apply Z.mod_small. exact H. Qed.

Lemma wrap32_range (z : Z) : 0 <= wrap32 z < 2 ^ 32.
Proof. unfold wrap32. apply Z.mod_pos_bound. lia. Qed.

(** When the end of the window is past [2^32 - 1] the bound of the loop
    wraps around and is below its start. *)
Lemma wrap32_window_wraps (start : Z) :
  0 <= start < 2 ^ 32 -> 2 ^ 32 <= start + FinalizationTimeout ->
  wrap32 (start + FinalizationTimeout) < start.
Proof.
  unfold FinalizationTimeout, wrap32. change (2 ^ 32) with 4294967296. intros H1 H2.
  rewrite <- (Z.mod_unique (start + 4) 4294967296 1 (start + 4 - 4294967296)); lia.
Qed.

Lemma inclusionLoop_first_match fuel : forall n start i l r,
  0 <= start -> start + FinalizationTimeout < 2 ^ 32 -> start <= i ->
  inclusionLoop s fuel n start i = (l, Ok r) ->
  i <= r < start + FinalizationTimeout
  /\ relayHeadNumber s r = Some n
  /\ forall j, i <= j < r -> exists m, relayHeadNumber s j = Some m /\ m <> n.
Proof.
  induction fuel as [| fuel IH]; intros n start i l r Hstart Hend Hi; cbn [inclusionLoop];
    rewrite (wrap32_small (start + FinalizationTimeout)) by (unfold FinalizationTimeout in *; lia);
    destruct (Z.ltb_spec i (start + FinalizationTimeout)) as [Hlt | Hge]; try discriminate.
  destruct (relay_GetBlockHash (relayConn s) i) as [h |] eqn:Hhash; [| discriminate].
  rewrite bind_rpc_Some.
  destruct (FetchParachainHead (relayConn s) h (paraID s)) as [[head |] |] eqn:Hhead;
    try discriminate.
  rewrite bind_rpc_Some. cbn [calls result fst snd].
  pose proof (relayHeadNumber_Some i h head Hhash Hhead) as Hnum.
  destruct (Z.eqb_spec n (types.Number head)) as [Heq | Hne].
  - intros [= _ <-]. split; [lia |]. split; [rewrite Hnum, Heq; reflexivity |].
    intros j Hj. lia.
  - intros H.
    destruct (inclusionLoop s fuel n start (wrap32 (i + 1))) as [l' r'] eqn:Hloop.
    cbn in H. injection H as _ ->.
    rewrite wrap32_small in Hloop by (unfold FinalizationTimeout in *; lia).
    apply IH in Hloop as (Hr & Hmatch & Hbefore); [| lia | lia | lia].
    split; [lia |]. split; [exact Hmatch |].
    intros j Hj. destruct (Z.eq_dec j i) as [-> | Hji].
    + exists (types.Number head). split; [exact Hnum | congruence].
    + apply Hbefore. lia.
Qed.

Lemma inclusionLoop_exhausted fuel : forall n start i,
  0 <= start -> start + FinalizationTimeout < 2 ^ 32 -> start <= i ->
  result (inclusionLoop s fuel n start i) = Err ScanTerminated ->
  forall j, i <= j < start + FinalizationTimeout ->
    exists m, relayHeadNumber s j = Some m /\ m <> n.
Proof.
  induction fuel as [| fuel IH]; intros n start i Hstart Hend Hi; cbn [inclusionLoop];
    rewrite (wrap32_small (start + FinalizationTimeout)) by (unfold FinalizationTimeout in *; lia);
    destruct (Z.ltb_spec i (start + FinalizationTimeout)) as [Hlt | Hge];
    try discriminate; try (intros _ j Hj; lia).
  destruct (relay_GetBlockHash (relayConn s) i) as [h |] eqn:Hhash; [| discriminate].
  rewrite bind_rpc_Some.
  destruct (FetchParachainHead (relayConn s) h (paraID s)) as [[head |] |] eqn:Hhead;
    try discriminate.
  rewrite bind_rpc_Some. cbn [calls result fst snd].
  pose proof (relayHeadNumber_Some i h head Hhash Hhead) as Hnum.
  destruct (Z.eqb_spec n (types.Number head)) as [Heq | Hne]; [discriminate |].
  rewrite wrap32_small by (unfold FinalizationTimeout in *; lia).
  intros H j Hj. destruct (Z.eq_dec j i) as [-> | Hji].
  - exists (types.Number head). split; [exact Hnum | congruence].
  - apply (IH n start (i + 1)); [lia | lia | lia | | lia].
    destruct (inclusionLoop s fuel n start (i + 1)) as [l' r']. exact H.
Qed.

(** What [findInclusionBlockNumber] has read when it comes to its loop. *)
Lemma findInclusionBlockNumber_reads n l (o : outcome Z) :
  findInclusionBlockNumber s n = (l, o) ->
  (exists r, o = Ok r) \/ o = Err ScanTerminated ->
  exists key h data l',
    validationDataAt s n key h data
    /\ l = [ParaGetBlockHash n; ParaGetStorage key h] ++ l'
    /\ inclusionLoop s (Z.to_nat FinalizationTimeout) n
         (wrap32 (RelayParentNumber data + 1)) (wrap32 (RelayParentNumber data + 1))
       = (l', o).
Proof.
  unfold findInclusionBlockNumber, validationDataAt. intros H Ho.
  assert (Hno : forall l0 e, e <> ScanTerminated -> (l0, Err e) = (l, o) -> False).
  { intros l0 e He [= _ <-]. destruct Ho as [[r Hr] | Hr]; congruence. }
  destruct (CreateStorageKey (paraConn s) ParachainSystem_ValidationData) as [key |] eqn:Hkey.
  2: { exfalso. eapply Hno; [| exact H]. discriminate. }
  rewrite orFail_Some in H.
  destruct (para_GetBlockHash (paraConn s) n) as [h |] eqn:Hh.
  2: { exfalso. eapply Hno; [| exact H]. discriminate. }
  rewrite bind_rpc_Some in H.
  destruct (GetStorage_ValidationData (paraConn s) key h) as [[data |] |] eqn:Hdata.
  2: { exfalso. eapply Hno; [| exact H]. discriminate. }
  2: { exfalso. eapply Hno; [| exact H]. discriminate. }
  rewrite bind_rpc_Some in H. cbn [calls result fst snd] in H.
  destruct (inclusionLoop s (Z.to_nat FinalizationTimeout) n
              (wrap32 (RelayParentNumber data + 1)) (wrap32 (RelayParentNumber data + 1)))
    as [l' o'] eqn:Hloop.
  cbn [fst snd] in H. injection H as <- <-.
  exists key, h, data, l'. repeat split; first [reflexivity | assumption].
Qed.

End InclusionWindow.

Section InclusionResults.
Variable s : Scanner.

Lemma inclusionLoop_wrapped fuel n start i :
  0 <= start < 2 ^ 32 -> 2 ^ 32 <= start + FinalizationTimeout -> start <= i ->
  inclusionLoop s fuel n start i = fail ScanTerminated.
Proof.
  intros Hstart Hwrap Hi. pose proof (wrap32_window_wraps start Hstart Hwrap) as Hlt.
  destruct fuel; cbn [inclusionLoop];
    destruct (Z.ltb_spec i (wrap32 (start + FinalizationTimeout))); try reflexivity; lia.
Qed.

Lemma inclusionLoop_no_match fuel : forall n start i,
  0 <= start -> start + FinalizationTimeout < 2 ^ 32 -> start <= i ->
  (forall j, i <= j < start + FinalizationTimeout ->
     exists m, relayHeadNumber s j = Some m /\ m <> n) ->
  result (inclusionLoop s fuel n start i) = Err ScanTerminated
  \/ result (inclusionLoop s fuel n start i) = OutOfFuel.
Proof.
  induction fuel as [| fuel IH]; intros n start i Hstart Hend Hi Hall; cbn [inclusionLoop];
    rewrite (wrap32_small (start + FinalizationTimeout)) by (unfold FinalizationTimeout in *; lia);
    destruct (Z.ltb_spec i (start + FinalizationTimeout)) as [Hlt | Hge]; auto.
  destruct (Hall i) as (m & Hm & Hne); [lia |].
  unfold relayHeadNumber in Hm.
  destruct (relay_GetBlockHash (relayConn s) i) as [h |]; [| discriminate].
  rewrite bind_rpc_Some.
  destruct (FetchParachainHead (relayConn s) h (paraID s)) as [[head |] |];
    try discriminate.
  rewrite bind_rpc_Some. cbn [calls result fst snd]. injection Hm as Hm.
  destruct (Z.eqb_spec n (types.Number head)) as [Heq | _]; [congruence |].
  rewrite wrap32_small by (unfold FinalizationTimeout in *; lia).
  destruct (IH n start (i + 1)) as [H | H]; try lia.
  - intros j Hj. apply Hall. lia.
  - left. destruct (inclusionLoop s fuel n start (i + 1)). exact H.
  - right. destruct (inclusionLoop s fuel n start (i + 1)). exact H.
Qed.

Lemma findInclusionBlockNumber_loop n key h data :
  validationDataAt s n key h data ->
  findInclusionBlockNumber s n =
    ([ParaGetBlockHash n; ParaGetStorage key h]
       ++ calls (inclusionLoop s (Z.to_nat FinalizationTimeout) n
                   (wrap32 (RelayParentNumber data + 1))
                   (wrap32 (RelayParentNumber data + 1))),
     result (inclusionLoop s (Z.to_nat FinalizationTimeout) n
               (wrap32 (RelayParentNumber data + 1))
               (wrap32 (RelayParentNumber data + 1)))).
Proof.
  intros (Hkey & Hh & Hdata). unfold findInclusionBlockNumber.
  rewrite Hkey, orFail_Some, Hh, bind_rpc_Some, Hdata, bind_rpc_Some. reflexivity.
Qed.

End InclusionResults.

(** X1: the relay block [findInclusionBlockNumber] returns for a parachain
    block lies in the window of [FinalizationTimeout] blocks that starts
    after the block's relay parent, the window does not reach [2^32], the
    head registered at the returned block has the parachain block's number,
    and every earlier block of the window has a registered head with another
    number: the first match is returned. *)
Theorem inclusion_block_is_first_match (s : Scanner) (paraBlockNumber : Z)
    (l : list Call) (r : Z) :
  findInclusionBlockNumber s paraBlockNumber = (l, Ok r) ->
  exists key blockHash data,
    validationDataAt s paraBlockNumber key blockHash data
    /\ wrap32 (RelayParentNumber data + 1) <= r
    /\ r < wrap32 (RelayParentNumber data + 1) + FinalizationTimeout
    /\ wrap32 (RelayParentNumber data + 1) + FinalizationTimeout < 2 ^ 32
    /\ relayHeadNumber s r = Some paraBlockNumber
    /\ forall j, wrap32 (RelayParentNumber data + 1) <= j < r ->
         exists m, relayHeadNumber s j = Some m /\ m <> paraBlockNumber.
Proof.
  intros H.
  apply findInclusionBlockNumber_reads in H as (key & h & data & l' & Hreads & _ & Hloop);
    [| left; eauto].
  exists key, h, data. split; [exact Hreads |].
  pose proof (wrap32_range (RelayParentNumber data + 1)) as Hrange.
  destruct (Z.lt_ge_cases (wrap32 (RelayParentNumber data + 1) + FinalizationTimeout) (2 ^ 32))
    as [Hend | Hwrap].
  - apply inclusionLoop_first_match in Hloop as (Hr & Hmatch & Hbefore); [| lia | lia | lia].
    repeat split; try lia; assumption.
  - rewrite inclusionLoop_wrapped in Hloop by lia. discriminate.
Qed.

Lemma inclusion_block_is_first_match_witness :
  exists key blockHash data,
    validationDataAt (Chain.scanner Chain.singleMissing) 97 key blockHash data
    /\ wrap32 (RelayParentNumber data + 1) <= 1000
    /\ 1000 < wrap32 (RelayParentNumber data + 1) + FinalizationTimeout
    /\ wrap32 (RelayParentNumber data + 1) + FinalizationTimeout < 2 ^ 32
    /\ relayHeadNumber (Chain.scanner Chain.singleMissing) 1000 = Some 97
    /\ forall j, wrap32 (RelayParentNumber data + 1) <= j < 1000 ->
         exists m, relayHeadNumber (Chain.scanner Chain.singleMissing) j = Some m /\ m <> 97.
Proof.
  apply (inclusion_block_is_first_match (Chain.scanner Chain.singleMissing) 97
           [ParaGetBlockHash 97; ParaGetStorage [2] 1097;
            RelayGetBlockHash 998; RelayFetchParachainHead 5998 2000;
            RelayGetBlockHash 999; RelayFetchParachainHead 5999 2000;
            RelayGetBlockHash 1000; RelayFetchParachainHead 6000 2000] 1000).
  vm_compute. reflexivity.
Defined.

(** X2: when the validation data of a parachain block is read and its window
    does not reach [2^32], [findInclusionBlockNumber] fails with
    [ScanTerminated] exactly when every relay block of the window has a
    registered head of the parachain with another number than the block's. *)
Theorem scan_terminated_iff_window_without_match (s : Scanner) (paraBlockNumber : Z)
    (key : list Z) (blockHash : Z) (data : PersistedValidationData) :
  validationDataAt s paraBlockNumber key blockHash data ->
  wrap32 (RelayParentNumber data + 1) + FinalizationTimeout < 2 ^ 32 ->
  result (findInclusionBlockNumber s paraBlockNumber) = Err ScanTerminated
  <-> (forall j,
         wrap32 (RelayParentNumber data + 1) <= j
           < wrap32 (RelayParentNumber data + 1) + FinalizationTimeout ->
         exists m, relayHeadNumber s j = Some m /\ m <> paraBlockNumber).
Proof.
  intros Hreads Hend.
  pose proof (wrap32_range (RelayParentNumber data + 1)) as Hrange.
  rewrite (findInclusionBlockNumber_loop s _ _ _ _ Hreads). cbn [result snd].
  split.
  - intros H.
    apply (inclusionLoop_exhausted s (Z.to_nat FinalizationTimeout) paraBlockNumber
             (wrap32 (RelayParentNumber data + 1)) (wrap32 (RelayParentNumber data + 1)));
      [lia | exact Hend | lia | exact H].
  - intros Hall.
    destruct (inclusionLoop_no_match s (Z.to_nat FinalizationTimeout) paraBlockNumber
                (wrap32 (RelayParentNumber data + 1)) (wrap32 (RelayParentNumber data + 1)))
      as [H | H]; try lia; try assumption.
    exfalso. revert H. apply inclusionLoop_fuel; [lia | lia |].
    unfold FinalizationTimeout. lia.
Qed.

Lemma scan_terminated_iff_window_without_match_witness :
  result (findInclusionBlockNumber (Chain.scanner Chain.notIncluded) 97) = Err ScanTerminated.
Proof.
  apply (scan_terminated_iff_window_without_match (Chain.scanner Chain.notIncluded) 97
           [2] 1097 (mkValidationData [] 997 0 0)).
  - repeat split.
  - vm_compute. reflexivity.
  - intros j Hj. change (wrap32 (RelayParentNumber (mkValidationData [] 997 0 0) + 1))
      with 998 in Hj. unfold FinalizationTimeout in Hj.
    eexists. split; [reflexivity |]. cbn. lia.
Defined.

(** X3: when the window of a parachain block would end past [2^32 - 1], the
    [uint32] bound of the loop wraps around: [findInclusionBlockNumber] asks
    the relay chain for no block and fails with [ScanTerminated]. *)
Theorem window_past_uint32_is_not_searched (s : Scanner) (paraBlockNumber : Z)
    (key : list Z) (blockHash : Z) (data : PersistedValidationData) :
  validationDataAt s paraBlockNumber key blockHash data ->
  2 ^ 32 <= wrap32 (RelayParentNumber data + 1) + FinalizationTimeout ->
  findInclusionBlockNumber s paraBlockNumber
  = ([ParaGetBlockHash paraBlockNumber; ParaGetStorage key blockHash], Err ScanTerminated).
Proof.
  intros Hreads Hwrap.
  pose proof (wrap32_range (RelayParentNumber data + 1)) as Hrange.
  rewrite (findInclusionBlockNumber_loop s _ _ _ _ Hreads).
  rewrite inclusionLoop_wrapped by lia. reflexivity.
Qed.

Lemma window_past_uint32_is_not_searched_witness :
  findInclusionBlockNumber (Chain.scanner Samples.lateRelayParent) 97
  = ([ParaGetBlockHash 97; ParaGetStorage [2] 1097], Err ScanTerminated).
Proof.
  apply (window_past_uint32_is_not_searched (Chain.scanner Samples.lateRelayParent) 97
           [2] 1097 (mkValidationData [] 4294967294 0 0)).
  - repeat split.
  - vm_compute. discriminate.
Defined.

(** ** The proof inputs *)

Section ProofInputPrefix.
Variable s : Scanner.

Lemma gatherProofInputs_prefix : forall ts l ts' err,
  gatherProofInputs s ts = (l, Ok (ts', err)) ->
  exists pre rest inputs,
    ts = pre ++ rest
    /\ ts' = zip_with setProofInput pre inputs ++ rest
    /\ Forall2 (fun t input => exists l', gatherProofInput s t = (l', Ok input)) pre inputs
    /\ match err with
       | None => rest = []
       | Some e => exists t rest' l', rest = t :: rest' /\ gatherProofInput s t = (l', Err e)
       end.
Proof.
  induction ts as [| t ts IH]; intros l ts' err; cbn [gatherProofInputs].
  - intros [= <- <- <-]. exists [], [], []. repeat split; constructor.
  - intros H. apply bind_Ok_inv in H as (l1 & r & l2 & Hcatch & H & ->).
    apply catch_Ok_inv in Hcatch. destruct r as [e | input].
    + injection H as <- <- <-. exists [], (t :: ts), [].
      repeat split; try constructor. exists t, ts, l1. auto.
    + apply bind_Ok_inv in H as (l3 & [rest' err'] & l4 & Hrest & H & ->).
      injection H as <- <- <-.
      apply IH in Hrest as (pre & rest & inputs & -> & -> & Hall & Herr).
      exists (t :: pre), rest, (input :: inputs).
      repeat split; try assumption. constructor; [eauto | exact Hall].
Qed.

End ProofInputPrefix.

(** X4: [gatherProofInputs] goes through the tasks in order and stops at the
    first one whose proof input it cannot make.  The tasks before it have
    their proof input set, each with the relay block found for it; that task
    and the tasks after it are left as they were; the error returned is that
    of the first failing task, and there is none exactly when every task got
    its proof input. *)
Theorem gatherProofInputs_sets_a_prefix (s : Scanner) (ts ts' : list Task)
    (l : list Call) (err : option error) :
  gatherProofInputs s ts = (l, Ok (ts', err)) ->
  exists pre rest inputs,
    ts = pre ++ rest
    /\ length inputs = length pre
    /\ ts' = zip_with setProofInput pre inputs ++ rest
    /\ Forall2 (inclusionWitness s) pre inputs
    /\ match err with
       | None => rest = []
       | Some e => exists t rest', rest = t :: rest' /\ result (gatherProofInput s t) = Err e
       end.
Proof.
  intros H. apply gatherProofInputs_prefix in H as (pre & rest & inputs & Hts & Hts' & Hall & Herr).
  exists pre, rest, inputs. split; [exact Hts |].
  split; [symmetry; eapply Forall2_length; exact Hall |].
  split; [exact Hts' |]. split.
  - eapply Forall2_impl; [exact Hall |]. cbn. intros t input [l' Hrun].
    eapply gatherProofInput_Ok_inv. exact Hrun.
  - destruct err as [e |]; [| exact Herr].
    destruct Herr as (t & rest' & l' & Hrest & Hrun). exists t, rest'.
    split; [exact Hrest |]. rewrite Hrun. reflexivity.
Qed.

Lemma gatherProofInputs_sets_a_prefix_witness :
  exists pre rest inputs,
    [Samples.walkerTask Samples.secondNotIncluded 92 [Chain.proofOf Chain.A 6 92];
     Samples.walkerTask Samples.secondNotIncluded 95 [Chain.proofOf Chain.A 7 95];
     Samples.walkerTask Samples.secondNotIncluded 98
       [Chain.proofOf Chain.A 8 98; Chain.proofOf Chain.B 4 98]] = pre ++ rest
    /\ length inputs = length pre
    /\ [Chain.taskOf Samples.secondNotIncluded 92 [Chain.proofOf Chain.A 6 92];
        Samples.walkerTask Samples.secondNotIncluded 95 [Chain.proofOf Chain.A 7 95];
        Samples.walkerTask Samples.secondNotIncluded 98
          [Chain.proofOf Chain.A 8 98; Chain.proofOf Chain.B 4 98]]
       = zip_with setProofInput pre inputs ++ rest
    /\ Forall2 (inclusionWitness (Chain.scanner Samples.secondNotIncluded)) pre inputs
    /\ exists t rest',
         rest = t :: rest'
         /\ result (gatherProofInput (Chain.scanner Samples.secondNotIncluded) t)
            = Err (FindInclusionFailed 95 ScanTerminated).
Proof.
  apply (gatherProofInputs_sets_a_prefix (Chain.scanner Samples.secondNotIncluded)
           [Samples.walkerTask Samples.secondNotIncluded 92 [Chain.proofOf Chain.A 6 92];
            Samples.walkerTask Samples.secondNotIncluded 95 [Chain.proofOf Chain.A 7 95];
            Samples.walkerTask Samples.secondNotIncluded 98
              [Chain.proofOf Chain.A 8 98; Chain.proofOf Chain.B 4 98]]
           _
           (calls (gatherProofInputs (Chain.scanner Samples.secondNotIncluded)
              [Samples.walkerTask Samples.secondNotIncluded 92 [Chain.proofOf Chain.A 6 92];
               Samples.walkerTask Samples.secondNotIncluded 95 [Chain.proofOf Chain.A 7 95];
               Samples.walkerTask Samples.secondNotIncluded 98
                 [Chain.proofOf Chain.A 8 98; Chain.proofOf Chain.B 4 98]]))
           (Some (FindInclusionFailed 95 ScanTerminated))).
  vm_compute. reflexivity.
Defined.

(** ** Where the proofs of a task come from *)

Section ProofProvenance.
Variable s : Scanner.
Variable nonces : gmap Z Z.

(** A proof collected by one bundle of the scan. *)
Lemma scanBundle_collects h i b st l st' :
  scanBundle s h nonces i b st = (l, Ok st') ->
  proofs st' = proofs st
  \/ exists p,
       proofs st' = proofs st ++ [mkBundleProof b p]
       /\ basicOutboundChannel_getMerkleProof (paraConn s) h i = Some p
       /\ Root p = h
       /\ default 0 (nonces !! Account b) <= Uint64 (Nonce b)
       /\ Account b ∈ scanAccounts st.
Proof.
  destruct (decide (Account b ∈ scanAccounts st)) as [Hin | Hnot].
  2: { rewrite scanBundle_skip by assumption. intros [= <- <-]. auto. }
  destruct (Z.lt_ge_cases (Uint64 (Nonce b)) (default 0 (nonces !! Account b)))
    as [Hlt | Hge].
  { rewrite scanBundle_below by assumption. intros [= <- <-]. auto. }
  destruct (basicOutboundChannel_getMerkleProof (paraConn s) h i) as [p |] eqn:Hfetch.
  2: { rewrite scanBundle_fetch_failed by assumption. discriminate. }
  destruct (decide (Root p = h)) as [Hroot | Hroot].
  2: { rewrite (scanBundle_mismatch s h nonces i b st p) by assumption.
       intros [= <- <-]. auto. }
  destruct (Z.eq_dec (Uint64 (Nonce b)) (default 0 (nonces !! Account b))) as [Heq | Hne].
  - rewrite (scanBundle_equal s h nonces i b st p) by assumption.
    intros [= <- <-]. right. exists p. auto.
  - rewrite (scanBundle_above s h nonces i b st p) by (assumption || lia).
    intros [= <- <-]. right. exists p. auto.
Qed.

Lemma scanBundles_collects h bundles : forall i st l st',
  0 <= i ->
  scanBundles s h nonces i bundles st = (l, Ok st') ->
  exists added,
    proofs st' = proofs st ++ added
    /\ Forall (fun bp =>
                 Account (Bundle bp) ∈ scanAccounts st
                 /\ default 0 (nonces !! Account (Bundle bp)) <= Uint64 (Nonce (Bundle bp))
                 /\ Root (Proof_ bp) = h
                 /\ exists k : nat,
                      bundles !! k = Some (Bundle bp)
                      /\ basicOutboundChannel_getMerkleProof (paraConn s) h (i + Z.of_nat k)
                         = Some (Proof_ bp)) added.
Proof.
  induction bundles as [| b rest IH]; intros i st l st' Hi; cbn [scanBundles].
  - intros [= <- <-]. exists []. rewrite app_nil_r. auto.
  - intros H. apply bind_Ok_inv in H as (l1 & st1 & l2 & H1 & H2 & ->).
    pose proof (scanBundle_step s h nonces i b st l1 st1 H1) as [Hsub _].
    apply scanBundle_collects in H1.
    apply IH in H2 as (added & Hadd & Hall); [| lia].
    assert (Hall' : Forall (fun bp =>
                 Account (Bundle bp) ∈ scanAccounts st
                 /\ default 0 (nonces !! Account (Bundle bp)) <= Uint64 (Nonce (Bundle bp))
                 /\ Root (Proof_ bp) = h
                 /\ exists k : nat,
                      (b :: rest) !! k = Some (Bundle bp)
                      /\ basicOutboundChannel_getMerkleProof (paraConn s) h (i + Z.of_nat k)
                         = Some (Proof_ bp)) added).
    { eapply Forall_impl; [exact Hall |]. cbn. intros bp (Ha & Hn & Hr & k & Hk & Hp).
      split; [set_solver |]. do 2 (split; [assumption |]). exists (S k).
      split; [exact Hk |]. rewrite <- Hp. f_equal. lia. }
    destruct H1 as [Heq | (p & Heq & Hp & Hroot & Hn & Hin)]; rewrite Heq in Hadd.
    + exists added. auto.
    + exists (mkBundleProof b p :: added). rewrite Hadd, <- app_assoc.
      split; [reflexivity |]. constructor; [| exact Hall'].
      cbn. do 3 (split; [assumption |]). exists O. split; [reflexivity |].
      rewrite Z.add_0_r. exact Hp.
Qed.

Abbreviation blockProofs := (proofsOfBlock s nonces).

Lemma scanDigestItems_provenance events all items : forall st l st',
  (forall item, In item items -> In item all) ->
  scanDigestItems s nonces events items st = (l, Ok st') ->
  scanAccounts st ⊆ dom nonces ->
  blockProofs events all st ->
  scanAccounts st' ⊆ dom nonces /\ blockProofs events all st'.
Proof.
  induction items as [| item rest IH]; intros st l st' Hincl; cbn [scanDigestItems].
  - intros [= <- <-]. auto.
  - intros H Hdom Hproofs. apply bind_Ok_inv in H as (l1 & st1 & l2 & H1 & H2 & ->).
    assert (Hst1 : scanAccounts st1 ⊆ dom nonces /\ blockProofs events all st1).
    { apply scanDigestItem_Ok_inv in H1
        as [(-> & _ & _) | (Hcommit & _ & ev & -> & Hhash & Hscan)]; [auto |].
      unfold scanForBasicChannelProofs in Hscan.
      pose proof (scanBundles_proofs s _ nonces _ _ _ _ _ Hscan) as [Hsub _].
      apply scanBundles_collects in Hscan as (added & Hadd & Hall); [| lia].
      cbn in Hsub, Hadd, Hall. split; [set_solver |].
      right. exists ev, item. split; [reflexivity |].
      split; [apply Hincl; left; reflexivity |].
      do 2 (split; [first [assumption | symmetry; assumption] |]).
      rewrite Hadd. eapply Forall_impl; [exact Hall |].
      cbn. intros bp (Ha & Hn & Hr & k & Hk & Hp). unfold proofFromEvent.
      rewrite <- Hhash in Hr, Hp. change (0 + Z.of_nat k) with (Z.of_nat k) in Hp.
      split; [set_solver |]. do 2 (split; [assumption |]).
      exists k. split; [exact Hk | exact Hp]. }
    destruct Hst1 as [Hdom1 Hproofs1].
    eapply IH; [| exact H2 | exact Hdom1 | exact Hproofs1].
    intros x Hx. apply Hincl. right. exact Hx.
Qed.

Lemma walkBlock_provenance w l w' :
  walkBlock s nonces w = (l, Ok w') ->
  basicChannelScanAccounts w ⊆ dom nonces ->
  Forall (taskFromBlock s nonces) (tasks w) ->
  basicChannelScanAccounts w' ⊆ dom nonces
  /\ Forall (taskFromBlock s nonces) (tasks w').
Proof.
  intros H Hdom Htasks.
  apply walkBlock_Ok_inv in H
    as (blockHash & header & items & Hhash & Hheader & Hitems & _ & Hcase).
  destruct Hcase as [(_ & -> & _ & ->) | (_ & events & lst & st & Hev & Hscan & -> & _ & ->)];
    [auto |].
  apply (scanDigestItems_provenance events items) in Hscan as [Hdom' Hproofs];
    [| auto | exact Hdom | left; reflexivity].
  split; [exact Hdom' |].
  destruct (proofs st) as [| bp ps] eqn:Hps; cbn [length Nat.ltb Nat.leb]; [exact Htasks |].
  apply Forall_app. split; [exact Htasks |]. constructor; [| constructor].
  destruct Hproofs as [Hnil | (ev & item & -> & Hin & Hcommit & Hhashes & Hall)];
    [rewrite Hps in Hnil; discriminate |].
  split; [discriminate |].
  exists (currentBlockNumber w), blockHash, items, ev, item. cbn [Header BasicChannelProofs].
  rewrite <- Hps. repeat split; assumption.
Qed.

Lemma walk_provenance fuel : forall w l w',
  walk s fuel nonces w = (l, Ok w') ->
  basicChannelScanAccounts w ⊆ dom nonces ->
  Forall (taskFromBlock s nonces) (tasks w) ->
  Forall (taskFromBlock s nonces) (tasks w').
Proof.
  induction fuel as [| fuel IH]; intros w l w'; cbn [walk];
    destruct (walkCondition w); try discriminate;
    try (intros [= <- <-]; auto; fail).
  intros H Hdom Htasks. apply bind_Ok_inv in H as (l1 & w1 & l2 & H1 & H2 & ->).
  apply walkBlock_provenance in H1 as [Hdom1 Htasks1]; [| exact Hdom | exact Htasks].
  eapply IH; eassumption.
Qed.

End ProofProvenance.

Lemma taskFromBlock_setProofInput (s : Scanner) (nonces : gmap Z Z) (t : Task)
    (input : ProofInput) :
  taskFromBlock s nonces t -> taskFromBlock s nonces (setProofInput t input).
Proof. intros H. exact H. Qed.

Lemma Forall_zip_with_setProofInput (P : Task -> Prop) (pre : list Task) :
  (forall t input, P t -> P (setProofInput t input)) ->
  Forall P pre ->
  forall inputs, Forall P (zip_with setProofInput pre inputs).
Proof.
  intros HP. induction 1 as [| t pre Ht Hpre IH]; intros [| input inputs]; cbn;
    constructor; auto.
Qed.

(** X5: every task a scan returns is made from a parachain block whose
    header digest has a commitment item with the hash of the block's
    [Committed] event.  It has at least one bundle proof, and each of them
    is for a bundle of that event, of an account with a nonce to find and
    with a nonce not below it, and is the Merkle proof the parachain returns
    for the event's hash and the bundle's index, with that hash as its
    root. *)
Theorem task_proofs_come_from_the_block (s : Scanner) (beefyBlockNumber : Z)
    (ts : list Task) :
  result (Scan s beefyBlockNumber) = Ok ts ->
  exists paraHash nonces,
    result (findNonces s paraHash (accounts s) ∅) = Ok nonces
    /\ Forall (taskFromBlock s nonces) ts.
Proof.
  intros Hscan.
  apply Scan_Ok_inv in Hscan as (h & paraHead & paraBlockHash & _ & _ & _ & Hfind).
  apply findTasks_Ok_inv in Hfind
    as (nonces & Hnonces & [[_ ->] | (_ & ts0 & err & Himpl & Hgather)]).
  { exists paraBlockHash, nonces. split; [exact Hnonces | constructor]. }
  exists paraBlockHash, nonces. split; [exact Hnonces |].
  unfold findTasksImpl in Himpl.
  apply bind_result_Ok_inv in Himpl as (w & Hw & Hret). injection Hret as <-.
  pose proof (surjective_M (walk s (Z.to_nat (types.Number paraHead)) nonces
                (initialWalkState (types.Number paraHead) nonces))) as Hwalk.
  rewrite Hw in Hwalk.
  apply walk_provenance in Hwalk; [| reflexivity | constructor].
  apply sortTasks_Forall in Hwalk.
  pose proof (surjective_M (gatherProofInputs s (sortTasks (tasks w)))) as Hrun.
  rewrite Hgather in Hrun.
  apply gatherProofInputs_prefix in Hrun as (pre & rest & inputs & Hts & -> & _ & _).
  rewrite Hts in Hwalk. apply Forall_app in Hwalk as [Hpre Hrest].
  apply Forall_app. split; [| exact Hrest].
  apply Forall_zip_with_setProofInput; [| exact Hpre].
  intros t input. apply taskFromBlock_setProofInput.
Qed.

Lemma task_proofs_come_from_the_block_witness :
  exists paraHash nonces,
    result (findNonces (Chain.scanner Chain.singleMissing) paraHash
              (accounts (Chain.scanner Chain.singleMissing)) ∅) = Ok nonces
    /\ Forall (taskFromBlock (Chain.scanner Chain.singleMissing) nonces)
         [Chain.taskOf Chain.singleMissing 97 [Chain.proofOf Chain.A 6 77]].
Proof.
  apply (task_proofs_come_from_the_block (Chain.scanner Chain.singleMissing) 1004).
  vm_compute. reflexivity.
Defined.

(** ** The sort of the tasks *)

Lemma insertTask_filter (n : Z) (t : Task) : forall l,
  List.filter (fun u => types.Number (Header u) =? n) (insertTask t l)
  = List.filter (fun u => types.Number (Header u) =? n) (t :: l).
Proof.
  induction l as [| u l IH]; cbn [insertTask]; [reflexivity |].
  destruct (Z.ltb_spec (types.Number (Header u)) (types.Number (Header t))) as [Hlt | Hge];
    [| reflexivity].
  cbn [List.filter] in *. rewrite IH.
  destruct (Z.eqb_spec (types.Number (Header t)) n) as [Ht | Ht]; [| reflexivity].
  destruct (Z.eqb_spec (types.Number (Header u)) n) as [Hu | Hu]; [lia | reflexivity].
Qed.

(** X6: the sort at the end of [findTasksImpl] returns the tasks it is
    given, each as often as it was given, in ascending order of their block
    numbers, and tasks with the same block number in the order they had: it
    is a stable sort. *)
Theorem sortTasks_is_a_stable_sort (ts : list Task) :
  Permutation (sortTasks ts) ts
  /\ StronglySorted (fun a b => types.Number (Header a) <= types.Number (Header b))
       (sortTasks ts)
  /\ forall n,
       List.filter (fun t => types.Number (Header t) =? n) (sortTasks ts)
       = List.filter (fun t => types.Number (Header t) =? n) ts.
Proof.
  split; [apply sortTasks_perm |]. split.
  - apply Sorted_StronglySorted; [intros a b c; lia |].
    apply (sortTasks_sorted ts).
  - intros n. induction ts as [| t ts IH]; cbn [sortTasks]; [reflexivity |].
    rewrite insertTask_filter. cbn [List.filter]. rewrite IH. reflexivity.
Qed.

(** ** The scan of the bundles of an event *)

Section BundleScan.
Variable s : Scanner.
Variables (h : types.H256) (nonces : gmap Z Z).

Lemma scanBundle_removes i b st l st' :
  scanBundle s h nonces i b st = (l, Ok st') ->
  scanAccounts st' = scanAccounts st
  \/ scanAccounts st' = scanAccounts st ∖ {[Account b]}.
Proof.
  destruct (decide (Account b ∈ scanAccounts st)) as [Hin | Hnot].
  2: { rewrite scanBundle_skip by assumption. intros [= <- <-]. auto. }
  destruct (Z.lt_ge_cases (Uint64 (Nonce b)) (default 0 (nonces !! Account b)))
    as [Hlt | Hge].
  { rewrite scanBundle_below by assumption. intros [= <- <-]. auto. }
  destruct (basicOutboundChannel_getMerkleProof (paraConn s) h i) as [p |] eqn:Hfetch.
  2: { rewrite scanBundle_fetch_failed by assumption. discriminate. }
  destruct (decide (Root p = h)) as [Hroot | Hroot].
  2: { rewrite (scanBundle_mismatch s h nonces i b st p) by assumption.
       intros [= <- <-]. auto. }
  destruct (Z.eq_dec (Uint64 (Nonce b)) (default 0 (nonces !! Account b))) as [Heq | Hne].
  - rewrite (scanBundle_equal s h nonces i b st p) by assumption.
    intros [= <- <-]. auto.
  - rewrite (scanBundle_above s h nonces i b st p) by (assumption || lia).
    intros [= <- <-]. auto.
Qed.

Lemma scanBundles_shape bundles : forall i st l st',
  scanBundles s h nonces i bundles st = (l, Ok st') ->
  (exists added, proofs st' = proofs st ++ added /\ map Bundle added `sublist_of` bundles)
  /\ (forall a, a ∈ scanAccounts st -> a ∉ scanAccounts st' ->
                exists b, In b bundles /\ Account b = a)
  /\ (length l <= length bundles)%nat.
Proof.
  induction bundles as [| b rest IH]; intros i st l st'; cbn [scanBundles].
  - intros [= <- <-]. split; [| split].
    + exists []. rewrite app_nil_r. split; [reflexivity | constructor].
    + intros a Ha Hna. contradiction.
    + cbn. lia.
  - intros H. apply bind_Ok_inv in H as (l1 & st1 & l2 & H1 & H2 & ->).
    pose proof (scanBundle_collects s nonces h i b st l1 st1 H1) as Hcol.
    pose proof (scanBundle_removes i b st l1 st1 H1) as Hrem.
    pose proof (scanBundle_calls s nonces h i b st) as [Hcalls _].
    rewrite H1 in Hcalls. cbn [calls fst] in Hcalls.
    apply IH in H2 as ((added & Hadd & Hsub) & Hdone & Hlen).
    split; [| split].
    + destruct Hcol as [Heq | (p & Heq & _)]; rewrite Heq in Hadd.
      * exists added. split; [exact Hadd |]. apply sublist_cons. exact Hsub.
      * exists (mkBundleProof b p :: added). rewrite Hadd, <- app_assoc.
        split; [reflexivity |]. cbn. apply sublist_skip. exact Hsub.
    + intros a Ha Hna. destruct (decide (a ∈ scanAccounts st1)) as [Ha1 | Ha1].
      * destruct (Hdone a Ha1 Hna) as (b' & Hb' & Hacc). exists b'. split; [right |]; auto.
      * exists b. split; [left; reflexivity |].
        destruct Hrem as [Heq | Heq]; rewrite Heq in Ha1; [contradiction |].
        destruct (decide (Account b = a)) as [Hba | Hba]; [exact Hba | set_solver].
    + rewrite length_app. cbn [length].
      destruct Hcalls as [-> | ->]; cbn [length]; lia.
Qed.

Lemma scanBundles_nothing_scanned bundles : forall i st,
  scanAccounts st = ∅ ->
  scanBundles s h nonces i bundles st = ret st.
Proof.
  induction bundles as [| b rest IH]; intros i st Hempty; cbn [scanBundles]; [reflexivity |].
  rewrite scanBundle_skip by (rewrite Hempty; set_solver).
  rewrite bind_ret. apply IH. exact Hempty.
Qed.

End BundleScan.

(** X7: the proofs [scanForBasicChannelProofs] returns are for bundles of the
    list it is given, in the order of that list and at most one for each
    bundle; it fetches at most one Merkle proof for each bundle; the
    accounts still scanned afterwards are among those scanned before; and an
    account that is no longer scanned has a bundle in the list. *)
Theorem scanForBasicChannelProofs_follows_the_bundles (s : Scanner)
    (digestItemHash : types.H256) (nonces : gmap Z Z) (scanned : gset Z)
    (bundles : list BasicOutboundChannelMessageBundle) (l : list Call) (r : ScanState) :
  scanForBasicChannelProofs s digestItemHash nonces scanned bundles = (l, Ok r) ->
  map Bundle (proofs r) `sublist_of` bundles
  /\ (length l <= length bundles)%nat
  /\ scanAccounts r ⊆ scanned
  /\ forall a, a ∈ scanned -> a ∉ scanAccounts r ->
       exists b, In b bundles /\ Account b = a.
Proof.
  unfold scanForBasicChannelProofs. intros H.
  pose proof (scanBundles_proofs s _ nonces _ _ _ _ _ H) as [Hsub _].
  apply scanBundles_shape in H as ((added & Hadd & Hsublist) & Hdone & Hlen).
  cbn in Hadd, Hsub, Hdone. rewrite Hadd. auto.
Qed.

Lemma scanForBasicChannelProofs_follows_the_bundles_witness :
  map Bundle [Chain.proofOf Chain.B 9 77]
    `sublist_of` [mkBundle Chain.B 9 []; mkBundle Chain.A 6 []]
  /\ (length [ParaGetMerkleProof 77 0; ParaGetMerkleProof 77 1]
      <= length [mkBundle Chain.B 9 []; mkBundle Chain.A 6 []])%nat
  /\ scanAccounts (mkScanState {[Chain.B]} [Chain.proofOf Chain.B 9 77] false)
       ⊆ {[Chain.A; Chain.B]}
  /\ forall a, a ∈ ({[Chain.A; Chain.B]} : gset Z) ->
       a ∉ scanAccounts (mkScanState {[Chain.B]} [Chain.proofOf Chain.B 9 77] false) ->
       exists b, In b [mkBundle Chain.B 9 []; mkBundle Chain.A 6 []] /\ Account b = a.
Proof.
  apply (scanForBasicChannelProofs_follows_the_bundles (Chain.scanner Chain.badRoot) 77
           Chain.targets {[Chain.A; Chain.B]}
           [mkBundle Chain.B 9 []; mkBundle Chain.A 6 []]
           [ParaGetMerkleProof 77 0; ParaGetMerkleProof 77 1]
           (mkScanState {[Chain.B]} [Chain.proofOf Chain.B 9 77] false)).
  vm_compute. reflexivity.
Defined.

(** X8: when at least one account is scanned, the done flag that
    [scanForBasicChannelProofs] returns is set exactly when no account is
    scanned any more.  Called with no account to scan, it fetches nothing
    and returns no proof, and its done flag is not set. *)
Theorem scanForBasicChannelProofs_done_flag (s : Scanner)
    (digestItemHash : types.H256) (nonces : gmap Z Z) (scanned : gset Z)
    (bundles : list BasicOutboundChannelMessageBundle) :
  (forall l r,
      scanned <> ∅ ->
      scanForBasicChannelProofs s digestItemHash nonces scanned bundles = (l, Ok r) ->
      (scanDone r = true <-> scanAccounts r = ∅))
  /\ scanForBasicChannelProofs s digestItemHash nonces ∅ bundles
     = ret (mkScanState ∅ [] false).
Proof.
  split.
  - intros l r Hne H. unfold scanForBasicChannelProofs in H.
    apply scanBundles_flag in H.
    + unfold flagAgrees in H. rewrite H. rewrite bool_decide_eq_true.
      split; [intros Hsize; apply leibniz_equiv, size_empty_inv; exact Hsize |].
      intros ->. apply size_empty.
    + unfold flagAgrees. cbn. symmetry. apply bool_decide_eq_false_2.
      intros Hsize. apply Hne. apply leibniz_equiv, size_empty_inv. exact Hsize.
  - unfold scanForBasicChannelProofs. apply scanBundles_nothing_scanned. reflexivity.
Qed.

Lemma scanForBasicChannelProofs_done_flag_witness :
  scanDone (mkScanState ∅ [Chain.proofOf Chain.A 6 77] true) = true
  <-> scanAccounts (mkScanState ∅ [Chain.proofOf Chain.A 6 77] true) = ∅.
Proof.
  destruct (scanForBasicChannelProofs_done_flag (Chain.scanner Chain.singleMissing) 77
              {[Chain.A := 6]} {[Chain.A]} [mkBundle Chain.A 6 []]) as [Hflag _].
  apply (Hflag [ParaGetMerkleProof 77 0]).
  - vm_compute. discriminate.
  - vm_compute. reflexivity.
Defined.

(** ** The blocks of the tasks *)

Section TaskBlocks.
Variable s : Scanner.
Variable nonces : gmap Z Z.

Lemma walkBlock_task_numbers (bound : Z) w l w' :
  headerNumbersAgree s ->
  walkCondition w = true ->
  walkBlock s nonces w = (l, Ok w') ->
  currentBlockNumber w <= bound ->
  Forall (fun t => 1 <= taskNumber t <= bound) (tasks w) ->
  currentBlockNumber w' <= bound
  /\ Forall (fun t => 1 <= taskNumber t <= bound) (tasks w').
Proof.
  intros Hagree Hcond H Hcur Htasks.
  apply walkCondition_true in Hcond as [_ Hpos].
  apply walkBlock_Ok_inv in H
    as (blockHash & header & items & Hhash & Hheader & _ & Hcur' & Hcase).
  pose proof (Hagree _ _ _ Hhash Hheader) as Hnumber.
  pose proof (wrap64_pred_lt _ Hpos) as Hlt.
  split; [lia |].
  destruct Hcase as [(_ & _ & _ & ->) | (_ & events & lst & st & _ & _ & _ & _ & ->)];
    [exact Htasks |].
  destruct (0 <? length (proofs st))%nat; [| exact Htasks].
  apply Forall_app. split; [exact Htasks |]. repeat constructor;
    unfold taskNumber; cbn [Header]; lia.
Qed.

Lemma walk_task_numbers (bound : Z) fuel : forall w l w',
  headerNumbersAgree s ->
  walk s fuel nonces w = (l, Ok w') ->
  currentBlockNumber w <= bound ->
  Forall (fun t => 1 <= taskNumber t <= bound) (tasks w) ->
  Forall (fun t => 1 <= taskNumber t <= bound) (tasks w').
Proof.
  induction fuel as [| fuel IH]; intros w l w' Hagree; cbn [walk];
    destruct (walkCondition w) eqn:Hcond; try discriminate;
    try (intros [= <- <-]; auto; fail).
  intros H Hcur Htasks. apply bind_Ok_inv in H as (l1 & w1 & l2 & H1 & H2 & ->).
  apply (walkBlock_task_numbers bound) in H1 as [Hcur1 Htasks1]; try assumption.
  eapply IH; eassumption.
Qed.

End TaskBlocks.

(** X9: when the parachain returns for the hash of block [n] a header of
    block [n], every task of a successful scan is for a parachain block from
    1 up to the number of the head that is registered for the parachain at
    the relay block before the BEEFY block: no task is for a later block,
    and none for block 0. *)
Theorem tasks_are_not_after_the_starting_head (s : Scanner) (beefyBlockNumber : Z)
    (ts : list Task) :
  headerNumbersAgree s ->
  result (Scan s beefyBlockNumber) = Ok ts ->
  exists relayBlockHash paraHead,
    relay_GetBlockHash (relayConn s) (wrap64 (beefyBlockNumber - 1)) = Some relayBlockHash
    /\ FetchParachainHead (relayConn s) relayBlockHash (paraID s) = Some (Some paraHead)
    /\ Forall (fun t => 1 <= types.Number (Header t) <= types.Number paraHead) ts.
Proof.
  intros Hagree Hscan.
  apply Scan_Ok_inv in Hscan as (h & paraHead & paraBlockHash & Hh & Hhead & _ & Hfind).
  exists h, paraHead. do 2 (split; [assumption |]).
  apply findTasks_Ok_inv in Hfind
    as (nonces & _ & [[_ ->] | (_ & ts0 & err & Himpl & Hgather)]); [constructor |].
  unfold findTasksImpl in Himpl.
  apply bind_result_Ok_inv in Himpl as (w & Hw & Hret). injection Hret as <-.
  pose proof (surjective_M (walk s (Z.to_nat (types.Number paraHead)) nonces
                (initialWalkState (types.Number paraHead) nonces))) as Hwalk.
  rewrite Hw in Hwalk.
  apply (walk_task_numbers s nonces (types.Number paraHead)) in Hwalk;
    [| exact Hagree | cbn; lia | constructor].
  apply sortTasks_Forall in Hwalk.
  pose proof (surjective_M (gatherProofInputs s (sortTasks (tasks w)))) as Hrun.
  rewrite Hgather in Hrun.
  apply gatherProofInputs_prefix in Hrun as (pre & rest & inputs & Hts & -> & _ & _).
  rewrite Hts in Hwalk. apply Forall_app in Hwalk as [Hpre Hrest].
  apply Forall_app. split; [| exact Hrest].
  apply (Forall_zip_with_setProofInput (fun t => 1 <= taskNumber t <= types.Number paraHead));
    [| exact Hpre].
  intros t input Ht. exact Ht.
Qed.

Lemma tasks_are_not_after_the_starting_head_witness :
  exists relayBlockHash paraHead,
    relay_GetBlockHash (relayConn (Chain.scanner Chain.threeBlocks)) (wrap64 (1004 - 1))
      = Some relayBlockHash
    /\ FetchParachainHead (relayConn (Chain.scanner Chain.threeBlocks)) relayBlockHash
         (paraID (Chain.scanner Chain.threeBlocks)) = Some (Some paraHead)
    /\ Forall (fun t => 1 <= types.Number (Header t) <= types.Number paraHead)
         [Chain.taskOf Chain.threeBlocks 92 [Chain.proofOf Chain.A 6 92];
          Chain.taskOf Chain.threeBlocks 95 [Chain.proofOf Chain.A 7 95];
          Chain.taskOf Chain.threeBlocks 98
            [Chain.proofOf Chain.A 8 98; Chain.proofOf Chain.B 4 98]].
Proof.
  apply (tasks_are_not_after_the_starting_head (Chain.scanner Chain.threeBlocks) 1004).
  - apply Chain_headerNumbersAgree.
  - vm_compute. reflexivity.
Defined.

(** ** The reads of the nonces *)



(** * Package json *)

Section JsonStrings.
Import Ascii String.
Local Open Scope string_scope.

Lemma append_cons (x : ascii) (a b : string) : String x a ++ b = String x (a ++ b).
Proof. reflexivity. Qed.

Lemma append_0x (post : string) : "0x" ++ post = String "0" (String "x" post).
Proof. reflexivity. Qed.

(** The test for the prefix ["0x"]. *)
Lemma prefix_0x_true (s : string) :
  prefix "0x" s = true -> exists post, s = "0x" ++ post.
Proof.
  destruct s as [| c [| d post]]; cbn [prefix]; try discriminate.
  - destruct (ascii_dec "0" c); discriminate.
  - destruct (ascii_dec "0" c) as [<- |]; [| discriminate].
    destruct (ascii_dec "x" d) as [<- |]; [| discriminate].
    intros _. exists post. reflexivity.
Qed.

Lemma prefix_0x_cons (post : string) : prefix "0x" (String "0" (String "x" post)) = true.
Proof. destruct post; reflexivity. Qed.

Lemma prefix_0x_app (post : string) : prefix "0x" ("0x" ++ post) = true.
Proof. apply prefix_0x_cons. Qed.

Lemma removeLeadingZeroHash_prefixed (post : string) :
  json.removeLeadingZeroHash ("0x" ++ post) = post.
Proof.
  unfold json.removeLeadingZeroHash. rewrite append_0x.
  cbn [json.Replace1]. rewrite prefix_0x_cons. reflexivity.
Qed.

Lemma removeLeadingZeroHash_step (c : ascii) (rest : string) :
  prefix "0x" (String c rest) = false ->
  json.removeLeadingZeroHash (String c rest) = String c (json.removeLeadingZeroHash rest).
Proof.
  intros H. unfold json.removeLeadingZeroHash. cbn [json.Replace1]. rewrite H. reflexivity.
Qed.

Lemma has0x_tail (c : ascii) (rest : string) :
  json.has0x (String c rest) -> prefix "0x" (String c rest) = false -> json.has0x rest.
Proof.
  intros (pre & post & Hs) Hprefix. destruct pre as [| x pre].
  - change ("" ++ "0x" ++ post) with ("0x" ++ post) in Hs.
    rewrite Hs, prefix_0x_app in Hprefix. discriminate.
  - rewrite append_cons in Hs. injection Hs as _ ->. exists pre, post. reflexivity.
Qed.

Lemma has0x_cons (c : ascii) (rest : string) :
  json.has0x rest -> json.has0x (String c rest).
Proof. intros (pre & post & ->). exists (String c pre), post. reflexivity. Qed.

Lemma removeLeadingZeroHash_length (s : string) :
  json.has0x s -> (length (json.removeLeadingZeroHash s) + 2 = length s)%nat.
Proof.
  induction s as [| c rest IH]; intros Hhas.
  - destruct Hhas as ([| x pre] & post & Hs); discriminate.
  - destruct (prefix "0x" (String c rest)) eqn:Hprefix.
    + apply prefix_0x_true in Hprefix as [post ->].
      rewrite removeLeadingZeroHash_prefixed, append_0x. cbn [length]. lia.
    + rewrite removeLeadingZeroHash_step by exact Hprefix. cbn [length].
      rewrite <- IH; [lia |]. eapply has0x_tail; eassumption.
Qed.

Lemma removeLeadingZeroHash_without (s : string) :
  ~ json.has0x s -> json.removeLeadingZeroHash s = s.
Proof.
  induction s as [| c rest IH]; intros Hnot; [reflexivity |].
  destruct (prefix "0x" (String c rest)) eqn:Hprefix.
  - exfalso. apply Hnot. apply prefix_0x_true in Hprefix as [post ->].
    exists "", post. reflexivity.
  - rewrite removeLeadingZeroHash_step by exact Hprefix. f_equal. apply IH.
    intros Hrest. apply Hnot. apply has0x_cons. exact Hrest.
Qed.

Lemma removeLeadingZeroHash_first (pre post : string) :
  ~ json.has0x pre ->
  json.removeLeadingZeroHash (pre ++ "0x" ++ post) = pre ++ post.
Proof.
  induction pre as [| c pre IH]; intros Hnot.
  - apply removeLeadingZeroHash_prefixed.
  - change (String c pre ++ "0x" ++ post) with (String c (pre ++ "0x" ++ post)).
    change (String c pre ++ post) with (String c (pre ++ post)).
    rewrite removeLeadingZeroHash_step.
    + f_equal. apply IH. intros Hpre. apply Hnot. apply has0x_cons. exact Hpre.
    + destruct (prefix "0x" (String c (pre ++ "0x" ++ post))) eqn:Hprefix; [| reflexivity].
      exfalso. apply prefix_0x_true in Hprefix as [rest Hrest]. rewrite append_0x in Hrest.
      destruct pre as [| d pre].
      * change ("" ++ "0x" ++ post) with ("0x" ++ post) in Hrest.
        rewrite append_0x in Hrest. discriminate.
      * rewrite append_cons in Hrest. injection Hrest as -> -> _.
        apply Hnot. exists "", pre. reflexivity.
Qed.

Lemma isHex_app (a b : string) : json.isHex (a ++ b) = json.isHex a && json.isHex b.
Proof.
  induction a as [| c a IH]; [reflexivity |].
  rewrite append_cons. cbn [json.isHex]. rewrite IH. apply andb_assoc.
Qed.

Lemma isHex_without (s : string) : json.isHex s = true -> ~ json.has0x s.
Proof.
  intros Hhex (pre & post & ->). rewrite isHex_app in Hhex.
  apply andb_true_iff in Hhex as [_ Hhex]. rewrite append_0x in Hhex.
  cbn [json.isHex] in Hhex. apply andb_true_iff in Hhex as [_ Hhex].
  apply andb_true_iff in Hhex as [Hx _]. vm_compute in Hx. discriminate.
Qed.

Lemma removeLeadingZeroHash_hex (s : string) :
  json.hexOnly s -> json.removeLeadingZeroHash s = s.
Proof. intros H. apply removeLeadingZeroHash_without, isHex_without. exact H. Qed.

Lemma removeLeadingZeroHash_prefixedHex (s : string) :
  json.prefixedHex s -> json.hexOnly (json.removeLeadingZeroHash s).
Proof.
  intros (digits & -> & Hhex). rewrite removeLeadingZeroHash_prefixed. exact Hhex.
Qed.

End JsonStrings.

Section JsonSlices.

(** The loop that writes [f item] at the index of each item. *)
Lemma writeEach_spec (f : String.string -> String.string) (items : list String.string) : forall i a,
  (i + length items <= length a)%nat ->
  json.writeEach f i items a
  = take i a ++ map f items ++ drop (i + length items) a.
Proof.
  induction items as [| item rest IH]; intros i a Hlen; cbn [json.writeEach map length].
  - rewrite Nat.add_0_r. cbn. symmetry. apply take_drop.
  - cbn [length] in Hlen. rewrite IH by (rewrite length_insert; lia).
    rewrite (take_S_r _ i (f item)) by (apply list_lookup_insert_eq; lia).
    rewrite take_insert_ge by lia. rewrite drop_insert_lt by lia.
    rewrite <- app_assoc. cbn [app].
    replace (S i + length rest)%nat with (i + S (length rest))%nat by lia.
    reflexivity.
Qed.

Lemma writeEach_in_place (f : String.string -> String.string) (l : list String.string) :
  json.writeEach f 0 l l = map f l.
Proof.
  rewrite writeEach_spec by (cbn; lia). cbn [take Nat.add].
  rewrite drop_all, app_nil_r. reflexivity.
Qed.

Lemma removeLeadingZeroHashForSlice_map (l : list String.string) :
  json.removeLeadingZeroHashForSlice l = map json.removeLeadingZeroHash l.
Proof.
  unfold json.removeLeadingZeroHashForSlice.
  rewrite writeEach_spec by (rewrite length_replicate; cbn; lia). cbn [take Nat.add].
  rewrite drop_ge by (rewrite length_replicate; lia). rewrite app_nil_r. reflexivity.
Qed.

Lemma map_removeLeadingZeroHash_hex (l : list String.string) :
  Forall json.hexOnly l -> map json.removeLeadingZeroHash l = l.
Proof.
  induction 1 as [| x l Hx Hl IH]; cbn; [reflexivity |].
  rewrite IH, removeLeadingZeroHash_hex by exact Hx. reflexivity.
Qed.

Lemma map_removeLeadingZeroHash_prefixedHex (l : list String.string) :
  Forall json.prefixedHex l -> Forall json.hexOnly (map json.removeLeadingZeroHash l).
Proof.
  induction 1 as [| x l Hx Hl IH]; cbn; constructor; [| exact IH].
  apply removeLeadingZeroHash_prefixedHex. exact Hx.
Qed.

End JsonSlices.

Section JsonProperties.
Import Ascii String.
Local Open Scope string_scope.

(** X11: [removeLeadingZeroHash] returns its argument exactly when the
    argument has no instance of ["0x"]; otherwise the result is two
    characters shorter. *)
Theorem removeLeadingZeroHash_changes_strings_with_0x (s : string) :
  (json.removeLeadingZeroHash s = s <-> ~ json.has0x s)
  /\ (json.has0x s -> (length (json.removeLeadingZeroHash s) + 2 = length s)%nat).
Proof.
  split; [| apply removeLeadingZeroHash_length].
  split; [| apply removeLeadingZeroHash_without].
  intros Heq Hhas. apply removeLeadingZeroHash_length in Hhas. rewrite Heq in Hhas. lia.
Qed.

Lemma removeLeadingZeroHash_changes_strings_with_0x_witness :
  (length (json.removeLeadingZeroHash "0xc0ffee") + 2 = length "0xc0ffee")%nat.
Proof.
  destruct (removeLeadingZeroHash_changes_strings_with_0x "0xc0ffee") as [_ Hlength].
  apply Hlength. exists "", "c0ffee". reflexivity.
Defined.

(** X12: [removeLeadingZeroHash] removes the first instance of ["0x"] from
    the left, wherever it is: what is before it, without an instance of its
    own, and what is after it are kept.  The prefix ["0x"] of a string is
    the case of nothing before it. *)
Theorem removeLeadingZeroHash_removes_the_first_0x (pre post : string) :
  ~ json.has0x pre ->
  json.removeLeadingZeroHash (pre ++ "0x" ++ post) = pre ++ post.
Proof. apply removeLeadingZeroHash_first. Qed.

Lemma removeLeadingZeroHash_removes_the_first_0x_witness :
  json.removeLeadingZeroHash "ab0x0xcd" = "ab0xcd".
Proof.
  apply (removeLeadingZeroHash_removes_the_first_0x "ab" "0xcd").
  apply isHex_without. reflexivity.
Defined.

(** X13: on a hash written as ["0x"] and hexadecimal digits,
    [removeLeadingZeroHash] returns the digits, and on the digits it changes
    nothing: applied twice it gives what it gives applied once. *)
Theorem removeLeadingZeroHash_on_hashes (s : string) :
  json.prefixedHex s ->
  s = "0x" ++ json.removeLeadingZeroHash s
  /\ json.hexOnly (json.removeLeadingZeroHash s)
  /\ json.removeLeadingZeroHash (json.removeLeadingZeroHash s)
     = json.removeLeadingZeroHash s.
Proof.
  intros (digits & -> & Hhex). rewrite removeLeadingZeroHash_prefixed.
  split; [reflexivity |]. split; [exact Hhex |].
  apply removeLeadingZeroHash_hex. exact Hhex.
Qed.

Lemma removeLeadingZeroHash_on_hashes_witness :
  "0xc0ffee" = "0x" ++ json.removeLeadingZeroHash "0xc0ffee"
  /\ json.hexOnly (json.removeLeadingZeroHash "0xc0ffee")
  /\ json.removeLeadingZeroHash (json.removeLeadingZeroHash "0xc0ffee")
     = json.removeLeadingZeroHash "0xc0ffee".
Proof.
  apply removeLeadingZeroHash_on_hashes. exists "c0ffee". split; reflexivity.
Defined.

End JsonProperties.

(** X14: [removeLeadingZeroHashForSlice] returns a slice of the length of
    its argument whose element at each index is [removeLeadingZeroHash] of
    the argument's element at that index. *)
Theorem removeLeadingZeroHashForSlice_is_elementwise (l : list String.string) :
  length (json.removeLeadingZeroHashForSlice l) = length l
  /\ forall i : nat,
       json.removeLeadingZeroHashForSlice l !! i
       = json.removeLeadingZeroHash <$> l !! i.
Proof.
  rewrite removeLeadingZeroHashForSlice_map. split; [apply length_map |].
  intros i. apply list_lookup_fmap.
Qed.

Section JsonUpdates.

Lemma BeaconHeader_clean (b : json.BeaconHeader) :
  json.BeaconHeader_hashes json.prefixedHex b ->
  json.BeaconHeader_hashes json.hexOnly (json.BeaconHeader_RemoveLeadingZeroHashes b).
Proof.
  intros (H1 & H2 & H3). repeat split; apply removeLeadingZeroHash_prefixedHex; assumption.
Qed.

Lemma BeaconHeader_again (b : json.BeaconHeader) :
  json.BeaconHeader_hashes json.hexOnly b ->
  json.BeaconHeader_RemoveLeadingZeroHashes b = b.
Proof.
  intros (H1 & H2 & H3). destruct b. unfold json.BeaconHeader_RemoveLeadingZeroHashes.
  cbn in *. rewrite !removeLeadingZeroHash_hex by assumption. reflexivity.
Qed.

Lemma SyncCommittee_clean (c : json.SyncCommittee) :
  json.SyncCommittee_hashes json.prefixedHex c ->
  json.SyncCommittee_hashes json.hexOnly (json.SyncCommittee_RemoveLeadingZeroHashes c).
Proof.
  intros (H1 & H2). split; cbn.
  - rewrite writeEach_in_place. apply map_removeLeadingZeroHash_prefixedHex. exact H1.
  - apply removeLeadingZeroHash_prefixedHex. exact H2.
Qed.

Lemma SyncCommittee_again (c : json.SyncCommittee) :
  json.SyncCommittee_hashes json.hexOnly c ->
  json.SyncCommittee_RemoveLeadingZeroHashes c = c.
Proof.
  intros (H1 & H2). destruct c. unfold json.SyncCommittee_RemoveLeadingZeroHashes.
  cbn in *. rewrite writeEach_in_place, map_removeLeadingZeroHash_hex by assumption.
  rewrite removeLeadingZeroHash_hex by assumption. reflexivity.
Qed.

Lemma SyncAggregate_clean (a : json.SyncAggregate) :
  json.SyncAggregate_hashes json.prefixedHex a ->
  json.SyncAggregate_hashes json.hexOnly (json.SyncAggregate_RemoveLeadingZeroHashes a).
Proof.
  intros (H1 & H2). split; apply removeLeadingZeroHash_prefixedHex; assumption.
Qed.

Lemma SyncAggregate_again (a : json.SyncAggregate) :
  json.SyncAggregate_hashes json.hexOnly a ->
  json.SyncAggregate_RemoveLeadingZeroHashes a = a.
Proof.
  intros (H1 & H2). destruct a. unfold json.SyncAggregate_RemoveLeadingZeroHashes.
  cbn in *. rewrite !removeLeadingZeroHash_hex by assumption. reflexivity.
Qed.

Lemma slice_clean (l : list String.string) :
  Forall json.prefixedHex l -> Forall json.hexOnly (json.removeLeadingZeroHashForSlice l).
Proof.
  intros H. rewrite removeLeadingZeroHashForSlice_map.
  apply map_removeLeadingZeroHash_prefixedHex. exact H.
Qed.

Lemma slice_again (l : list String.string) :
  Forall json.hexOnly l -> json.removeLeadingZeroHashForSlice l = l.
Proof.
  intros H. rewrite removeLeadingZeroHashForSlice_map.
  apply map_removeLeadingZeroHash_hex. exact H.
Qed.

Lemma SyncCommitteeUpdate_again (u : json.SyncCommitteeUpdate) :
  json.SyncCommitteeUpdate_hashes json.hexOnly u ->
  json.SyncCommitteeUpdate_RemoveLeadingZeroHashes u = u.
Proof.
  intros (C1 & C2 & C3 & C4 & C5 & C6 & C7 & C8).
  destruct u as
    [attested committee branch finalized finality aggregate period slot root rootBranch].
  unfold json.SyncCommitteeUpdate_RemoveLeadingZeroHashes.
  cbn [json.AttestedHeader json.NextSyncCommittee json.NextSyncCommitteeBranch
       json.FinalizedHeader json.FinalityBranch json.SyncAggregate_
       json.SyncCommitteePeriod json.SignatureSlot json.BlockRootsRoot
       json.BlockRootBranch] in *.
  f_equal; first [ apply BeaconHeader_again | apply SyncCommittee_again
                 | apply SyncAggregate_again | apply slice_again
                 | apply removeLeadingZeroHash_hex ]; assumption.
Qed.

Lemma InitialSync_again (i : json.InitialSync) :
  json.InitialSync_hashes json.hexOnly i ->
  json.InitialSync_RemoveLeadingZeroHashes i = i.
Proof.
  intros (C1 & C2 & C3 & C4).
  destruct i as [header committee branch root time].
  unfold json.InitialSync_RemoveLeadingZeroHashes.
  cbn [json.Header json.CurrentSyncCommittee json.CurrentSyncCommitteeBranch
       json.ValidatorsRoot json.ImportTime] in *.
  f_equal; first [ apply BeaconHeader_again | apply SyncCommittee_again
                 | rewrite writeEach_in_place; apply map_removeLeadingZeroHash_hex
                 | apply removeLeadingZeroHash_hex ]; assumption.
Qed.

End JsonUpdates.

(** X15: when every hash of a sync committee update is written as ["0x"]
    and hexadecimal digits, [RemoveLeadingZeroHashes] leaves hexadecimal
    digits only in every hash of the update, in its headers, committee,
    aggregate and branches; it keeps the period and the signature slot; and
    calling it again changes nothing. *)
Theorem SyncCommitteeUpdate_hashes_lose_their_prefix (u : json.SyncCommitteeUpdate) :
  json.SyncCommitteeUpdate_hashes json.prefixedHex u ->
  json.SyncCommitteeUpdate_hashes json.hexOnly
    (json.SyncCommitteeUpdate_RemoveLeadingZeroHashes u)
  /\ json.SyncCommitteePeriod (json.SyncCommitteeUpdate_RemoveLeadingZeroHashes u)
     = json.SyncCommitteePeriod u
  /\ json.SignatureSlot (json.SyncCommitteeUpdate_RemoveLeadingZeroHashes u)
     = json.SignatureSlot u
  /\ json.SyncCommitteeUpdate_RemoveLeadingZeroHashes
       (json.SyncCommitteeUpdate_RemoveLeadingZeroHashes u)
     = json.SyncCommitteeUpdate_RemoveLeadingZeroHashes u.
Proof.
  intros (H1 & H2 & H3 & H4 & H5 & H6 & H7 & H8).
  assert (Hclean : json.SyncCommitteeUpdate_hashes json.hexOnly
                     (json.SyncCommitteeUpdate_RemoveLeadingZeroHashes u)).
  { unfold json.SyncCommitteeUpdate_hashes. cbn.
    split; [apply BeaconHeader_clean; exact H1 |].
    split; [apply SyncCommittee_clean; exact H2 |].
    split; [apply slice_clean; exact H3 |].
    split; [apply BeaconHeader_clean; exact H4 |].
    split; [apply slice_clean; exact H5 |].
    split; [apply SyncAggregate_clean; exact H6 |].
    split; [apply removeLeadingZeroHash_prefixedHex; exact H7 |].
    apply slice_clean; exact H8. }
  split; [exact Hclean |]. do 2 (split; [reflexivity |]).
  apply SyncCommitteeUpdate_again. exact Hclean.
Qed.

Lemma SyncCommitteeUpdate_hashes_lose_their_prefix_witness :
  json.SyncCommitteeUpdate_hashes json.hexOnly
    (json.SyncCommitteeUpdate_RemoveLeadingZeroHashes json.sampleUpdate)
  /\ json.SyncCommitteePeriod (json.SyncCommitteeUpdate_RemoveLeadingZeroHashes json.sampleUpdate)
     = json.SyncCommitteePeriod json.sampleUpdate
  /\ json.SignatureSlot (json.SyncCommitteeUpdate_RemoveLeadingZeroHashes json.sampleUpdate)
     = json.SignatureSlot json.sampleUpdate
  /\ json.SyncCommitteeUpdate_RemoveLeadingZeroHashes
       (json.SyncCommitteeUpdate_RemoveLeadingZeroHashes json.sampleUpdate)
     = json.SyncCommitteeUpdate_RemoveLeadingZeroHashes json.sampleUpdate.
Proof.
  apply SyncCommitteeUpdate_hashes_lose_their_prefix.
  unfold json.SyncCommitteeUpdate_hashes, json.BeaconHeader_hashes,
    json.SyncCommittee_hashes, json.SyncAggregate_hashes. cbn.
  repeat split; repeat constructor; eexists; split; reflexivity.
Defined.

(** X16: the same for the initial sync: its header, its committee with the
    public keys rewritten in place, its branch rewritten in place and the
    validators root keep hexadecimal digits only, the import time is kept,
    and calling [RemoveLeadingZeroHashes] again changes nothing. *)
Theorem InitialSync_hashes_lose_their_prefix (i : json.InitialSync) :
  json.InitialSync_hashes json.prefixedHex i ->
  json.InitialSync_hashes json.hexOnly (json.InitialSync_RemoveLeadingZeroHashes i)
  /\ json.ImportTime (json.InitialSync_RemoveLeadingZeroHashes i) = json.ImportTime i
  /\ length (json.CurrentSyncCommitteeBranch (json.InitialSync_RemoveLeadingZeroHashes i))
     = length (json.CurrentSyncCommitteeBranch i)
  /\ json.InitialSync_RemoveLeadingZeroHashes (json.InitialSync_RemoveLeadingZeroHashes i)
     = json.InitialSync_RemoveLeadingZeroHashes i.
Proof.
  intros (H1 & H2 & H3 & H4).
  assert (Hclean : json.InitialSync_hashes json.hexOnly
                     (json.InitialSync_RemoveLeadingZeroHashes i)).
  { unfold json.InitialSync_hashes. cbn.
    split; [apply BeaconHeader_clean; exact H1 |].
    split; [apply SyncCommittee_clean; exact H2 |].
    split; [rewrite writeEach_in_place; apply map_removeLeadingZeroHash_prefixedHex; exact H3 |].
    apply removeLeadingZeroHash_prefixedHex; exact H4. }
  split; [exact Hclean |]. split; [reflexivity |].
  split; [cbn; rewrite writeEach_in_place; apply length_map |].
  apply InitialSync_again. exact Hclean.
Qed.

Lemma InitialSync_hashes_lose_their_prefix_witness :
  json.InitialSync_hashes json.hexOnly
    (json.InitialSync_RemoveLeadingZeroHashes json.sampleSync)
  /\ json.ImportTime (json.InitialSync_RemoveLeadingZeroHashes json.sampleSync)
     = json.ImportTime json.sampleSync
  /\ length (json.CurrentSyncCommitteeBranch
               (json.InitialSync_RemoveLeadingZeroHashes json.sampleSync))
     = length (json.CurrentSyncCommitteeBranch json.sampleSync)
  /\ json.InitialSync_RemoveLeadingZeroHashes
       (json.InitialSync_RemoveLeadingZeroHashes json.sampleSync)
     = json.InitialSync_RemoveLeadingZeroHashes json.sampleSync.
Proof.
  apply InitialSync_hashes_lose_their_prefix.
  unfold json.InitialSync_hashes, json.BeaconHeader_hashes, json.SyncCommittee_hashes. cbn.
  repeat split; repeat constructor; eexists; split; reflexivity.
Defined.

(** ** The contract library [SimplifiedMMRVerification] *)

Section MerkleRoot.
Import SimplifiedMMRVerification.
Variable keccak256 : Z -> Z -> Z.

Lemma bit_testbit (self index : Z) : bit self index = Z.testbit self index.
Proof.
  unfold bit, uint8. rewrite Z.testbit_odd, <- Z.bit0_odd.
  change 1 with (Z.ones 1) at 1. rewrite Z.land_ones by lia.
  change (2 ^ 1) with 2. rewrite <- Z.bit0_mod.
  destruct (Z.testbit (Z.shiftr self index) 0); reflexivity.
Qed.

Lemma calculateLoop_app (items1 items2 : list Z) (bitField position current : Z) :
  calculateLoop keccak256 (items1 ++ items2) bitField position current
  = calculateLoop keccak256 items2 bitField (position + Z.of_nat (length items1))
      (calculateLoop keccak256 items1 bitField position current).
Proof.
  revert position current. induction items1 as [| sibling rest IH]; intros position current.
  - cbn. rewrite Z.add_0_r. reflexivity.
  - cbn [app calculateLoop length]. rewrite IH. f_equal. lia.
Qed.

Lemma calculateLoop_shiftr (items : list Z) (bitField k position current : Z) :
  0 <= position ->
  calculateLoop keccak256 items (Z.shiftr bitField k) position current
  = calculateLoop keccak256 items bitField (position + k) current.
Proof.
  revert position current. induction items as [| sibling rest IH]; intros position current Hpos.
  - reflexivity.
  - cbn [calculateLoop]. rewrite !bit_testbit, Z.shiftr_spec by lia.
    rewrite IH by lia. f_equal. lia.
Qed.

Lemma calculateLoop_low_bits (items : list Z) (bitField bitField' position current : Z) :
  (forall i, position <= i < position + Z.of_nat (length items) ->
             Z.testbit bitField i = Z.testbit bitField' i) ->
  calculateLoop keccak256 items bitField position current
  = calculateLoop keccak256 items bitField' position current.
Proof.
  revert position current. induction items as [| sibling rest IH]; intros position current Hbits.
  - reflexivity.
  - cbn [calculateLoop length] in *. rewrite !bit_testbit.
    rewrite (Hbits position) by lia. apply IH. intros i Hi. apply Hbits. lia.
Qed.

Lemma collidesAt_here (x y : Z * Z) (inputs inputs' : list (Z * Z)) :
  x <> y -> keccak256 (fst x) (snd x) = keccak256 (fst y) (snd y) ->
  collidesAt keccak256 (x :: inputs) (y :: inputs').
Proof. intros Hne Heq. exists 0%nat, x, y. repeat split; assumption. Qed.

Lemma collidesAt_later (x y : Z * Z) (inputs inputs' : list (Z * Z)) :
  collidesAt keccak256 inputs inputs' ->
  collidesAt keccak256 (x :: inputs) (y :: inputs').
Proof.
  intros (k & a & b & Ha & Hb & Hne & Heq). exists (S k), a, b. repeat split; assumption.
Qed.

Lemma collidesAt_app_l (xs xs' ys ys' : list (Z * Z)) :
  collidesAt keccak256 xs xs' -> collidesAt keccak256 (xs ++ ys) (xs' ++ ys').
Proof.
  intros (k & a & b & Ha & Hb & Hne & Heq). exists k, a, b.
  split; [apply lookup_app_l_Some; exact Ha |].
  split; [apply lookup_app_l_Some; exact Hb |]. split; assumption.
Qed.

Lemma collidesAt_app_r (xs xs' ys ys' : list (Z * Z)) :
  length xs = length xs' ->
  collidesAt keccak256 ys ys' -> collidesAt keccak256 (xs ++ ys) (xs' ++ ys').
Proof.
  intros Hlen (k & a & b & Ha & Hb & Hne & Heq). exists (length xs + k)%nat, a, b.
  split; [rewrite lookup_app_r by lia; rewrite Nat.add_comm, Nat.add_sub; exact Ha |].
  split; [| split; assumption].
  rewrite Hlen. rewrite lookup_app_r by lia. rewrite Nat.add_comm, Nat.add_sub. exact Hb.
Qed.

Lemma merkleInputs_length (items : list Z) (bitField : Z) : forall position current,
  length (merkleInputs keccak256 items bitField position current) = length items.
Proof.
  induction items as [| sibling rest IH]; intros position current; cbn; [reflexivity |].
  rewrite IH. reflexivity.
Qed.

Lemma bagInputs_length (start : Z) (peaks : list Z) :
  length (bagInputs keccak256 start peaks) = length peaks.
Proof.
  induction peaks as [| peak rest IH]; cbn [bagInputs]; [reflexivity |].
  rewrite length_app, IH. cbn. lia.
Qed.

(** The loop returns the hash of the last pair it hashes. *)
Lemma calculateLoop_last_input (items : list Z) (bitField : Z) : forall position current,
  calculateLoop keccak256 items bitField position current
  = match last (merkleInputs keccak256 items bitField position current) with
    | Some input => keccak256 (fst input) (snd input)
    | None => current
    end.
Proof.
  induction items as [| sibling rest IH]; intros position current; [reflexivity |].
  cbn [calculateLoop merkleInputs]. rewrite IH, last_cons.
  destruct (bit bitField position); cbn [fst snd];
    destruct (last (merkleInputs keccak256 rest bitField (position + 1) _));
    reflexivity.
Qed.

Lemma calculateLoop_binds (items items' : list Z) (bitField position leaf leaf' : Z) :
  length items = length items' ->
  calculateLoop keccak256 items bitField position leaf
  = calculateLoop keccak256 items' bitField position leaf' ->
  (leaf = leaf' /\ items = items')
  \/ collidesAt keccak256 (merkleInputs keccak256 items bitField position leaf)
       (merkleInputs keccak256 items' bitField position leaf').
Proof.
  revert items' position leaf leaf'.
  induction items as [| sibling rest IH]; intros [| sibling' rest'] position leaf leaf' Hlen Heq;
    try discriminate Hlen.
  - left. split; [exact Heq | reflexivity].
  - cbn [calculateLoop merkleInputs] in *. injection Hlen as Hlen.
    destruct (bit bitField position); cbn [fst snd] in *.
    + destruct (IH _ _ _ _ Hlen Heq) as [[Hcurrent ->] | Hcollision];
        [| right; apply collidesAt_later; exact Hcollision].
      destruct (decide ((sibling, leaf) = (sibling', leaf'))) as [[= -> ->] | Hne];
        [left; split; reflexivity | right; apply collidesAt_here; assumption].
    + destruct (IH _ _ _ _ Hlen Heq) as [[Hcurrent ->] | Hcollision];
        [| right; apply collidesAt_later; exact Hcollision].
      destruct (decide ((leaf, sibling) = (leaf', sibling'))) as [[= -> ->] | Hne];
        [left; split; reflexivity | right; apply collidesAt_here; assumption].
Qed.

Lemma bagFrom_binds (peaks peaks' : list Z) (start start' : Z) :
  length peaks = length peaks' ->
  bagFrom keccak256 start peaks = bagFrom keccak256 start' peaks' ->
  (start = start' /\ peaks = peaks')
  \/ collidesAt keccak256 (bagInputs keccak256 start peaks)
       (bagInputs keccak256 start' peaks').
Proof.
  revert peaks'. induction peaks as [| peak rest IH]; intros [| peak' rest'] Hlen Heq;
    try discriminate Hlen.
  - left. split; [exact Heq | reflexivity].
  - cbn [bagFrom fold_right bagInputs] in *. injection Hlen as Hlen.
    fold (bagFrom keccak256 start rest) in *. fold (bagFrom keccak256 start' rest') in *.
    destruct (decide ((bagFrom keccak256 start rest, peak)
                      = (bagFrom keccak256 start' rest', peak'))) as [[= Hbag ->] | Hne].
    + destruct (IH _ Hlen Hbag) as [[-> ->] | Hcollision];
        [left; split; reflexivity | right; apply collidesAt_app_l; exact Hcollision].
    + right. apply collidesAt_app_r; [rewrite !bagInputs_length; exact Hlen |].
      apply collidesAt_here; assumption.
Qed.

Lemma bagLoop_spec (fuel : nat) (done rest : list Z) (bag : Z) :
  (length rest <= fuel)%nat ->
  bagLoop keccak256 fuel (done ++ rest) (length done) bag
  = Some (fold_left keccak256 rest bag).
Proof.
  revert done rest bag. induction fuel as [| fuel IH]; intros done rest bag Hfuel.
  - destruct rest; [| cbn in Hfuel; lia]. cbn [bagLoop]. rewrite app_nil_r.
    destruct (decide _) as [H | H]; [lia | reflexivity].
  - cbn [bagLoop]. rewrite length_app. destruct rest as [| peak rest].
    + destruct (decide _) as [H | H]; [cbn in H; lia | reflexivity].
    + destruct (decide _) as [H | H]; [| cbn in H; lia].
      rewrite lookup_app_r by lia. rewrite Nat.sub_diag. cbn [lookup list_lookup mbind option_bind].
      replace (done ++ peak :: rest) with ((done ++ [peak]) ++ rest)
        by (rewrite <- app_assoc; reflexivity).
      replace (S (length done)) with (length (done ++ [peak]))
        by (rewrite length_app; cbn; lia).
      rewrite IH by (cbn in Hfuel; lia). reflexivity.
Qed.

Lemma bagPeaks_cons (peak : Z) (rest : list Z) :
  bagPeaks keccak256 (peak :: rest) = Some (fold_left keccak256 rest peak).
Proof.
  unfold bagPeaks. destruct (decide _) as [H | H]; [| cbn in H; lia].
  cbn [lookup list_lookup mbind option_bind].
  apply (bagLoop_spec (length (peak :: rest)) [peak] rest peak). cbn. lia.
Qed.

Lemma store_app (done : list Z) (old value : Z) (rest : list Z) :
  store (done ++ old :: rest) (length done) value = Some (done ++ value :: rest).
Proof.
  unfold store. destruct (decide _) as [H | H].
  - f_equal. rewrite insert_app_r_alt by lia. rewrite Nat.sub_diag. reflexivity.
  - rewrite length_app in H. cbn in H. lia.
Qed.

Lemma copyPeaks_spec (count i : nat) (restPeaks done zeros : list Z) :
  (count + i = length restPeaks)%nat ->
  length zeros = count ->
  copyPeaks count i restPeaks (done ++ zeros) (length done)
  = Some (done ++ rev (take count restPeaks)).
Proof.
  revert i done zeros. induction count as [| count IH]; intros i done zeros Hcount Hzeros.
  - destruct zeros; [| discriminate Hzeros]. rewrite take_0. cbn [copyPeaks].
    destruct (decide _) as [H | H]; [lia | reflexivity].
  - destruct zeros as [| zero zeros]; [discriminate Hzeros |]. injection Hzeros as Hzeros.
    cbn [copyPeaks]. destruct (decide _) as [_ | H]; [| lia].
    replace (length restPeaks - i - 1)%nat with count by lia.
    destruct (lookup_lt_is_Some_2 restPeaks count ltac:(lia)) as [peak Hpeak].
    rewrite Hpeak. cbn [mbind option_bind]. rewrite store_app. cbn [mbind option_bind].
    replace (done ++ peak :: zeros) with ((done ++ [peak]) ++ zeros)
      by (rewrite <- app_assoc; reflexivity).
    replace (S (length done)) with (length (done ++ [peak]))
      by (rewrite length_app; cbn; lia).
    rewrite (IH (S i)) by lia.
    rewrite (take_S_r _ _ _ Hpeak), rev_app_distr, <- app_assoc. reflexivity.
Qed.

Lemma fold_left_rev_bagFrom (start : Z) (peaks : list Z) :
  fold_left keccak256 (rev peaks) start = bagFrom keccak256 start peaks.
Proof.
  unfold bagFrom. rewrite <- (rev_involutive peaks) at 2.
  rewrite fold_left_rev_right. reflexivity.
Qed.

Lemma verifyInclusionProof_closed (root leaf : Z) (proof : SimplifiedMMRProof) :
  verifyInclusionProof keccak256 root leaf proof
  = if decide (length (merkleProofItems proof) < 64)%nat
    then Some (baggedRoot keccak256 leaf proof =? root) else None.
Proof.
  unfold verifyInclusionProof, baggedRoot.
  destruct (decide _) as [Hitems | Hitems]; [| reflexivity].
  destruct proof as [restPeaks right items bitField].
  cbn [restOfThePeaks rightBaggedPeak merkleProofItems merkleProofOrderBitField].
  set (merkleRootPeak := calculateMerkleRoot keccak256 leaf items bitField).
  destruct (right =? 0) eqn:Hright; cbn [negb].
  - cbn [replicate Nat.add]. cbn [mbind option_bind].
    pose proof (store_app [] 0 merkleRootPeak (replicate (length restPeaks) 0)) as Hstore. cbn [app length] in Hstore.
    rewrite Hstore. clear Hstore.
    cbn [mbind option_bind app].
    assert (Hcopy : (if decide (0 < length restPeaks)%nat
                     then copyPeaks (length restPeaks) 0 restPeaks
                            (merkleRootPeak :: replicate (length restPeaks) 0) 1
                     else Some (merkleRootPeak :: replicate (length restPeaks) 0))
                    = Some (merkleRootPeak :: rev restPeaks)).
    { destruct (decide _) as [H | H].
      - pose proof (copyPeaks_spec (length restPeaks) 0 restPeaks [merkleRootPeak]                    (replicate (length restPeaks) 0)) as Hloop.
        cbn [app length] in Hloop. rewrite Hloop by (rewrite ?length_replicate; lia).
        rewrite firstn_all. reflexivity.
      - destruct restPeaks; [reflexivity | cbn in H; lia]. }
    rewrite Hcopy. cbn [mbind option_bind].
    rewrite bagPeaks_cons. cbn [mbind option_bind].
    rewrite fold_left_rev_bagFrom. reflexivity.
  - cbn [replicate Nat.add].
    pose proof (store_app [] 0 right (0 :: replicate (length restPeaks) 0)) as Hstore. cbn [app length] in Hstore.
    rewrite Hstore. clear Hstore.
    cbn [mbind option_bind app].
    pose proof (store_app [right] 0 merkleRootPeak (replicate (length restPeaks) 0)) as Hstore. cbn [app length] in Hstore.
    rewrite Hstore. clear Hstore.
    cbn [mbind option_bind app].
    assert (Hcopy : (if decide (0 < length restPeaks)%nat
                     then copyPeaks (length restPeaks) 0 restPeaks
                            (right :: merkleRootPeak :: replicate (length restPeaks) 0) 2
                     else Some (right :: merkleRootPeak :: replicate (length restPeaks) 0))
                    = Some (right :: merkleRootPeak :: rev restPeaks)).
    { destruct (decide _) as [H | H].
      - pose proof (copyPeaks_spec (length restPeaks) 0 restPeaks [right; merkleRootPeak]                    (replicate (length restPeaks) 0)) as Hloop.
        cbn [app length] in Hloop. rewrite Hloop by (rewrite ?length_replicate; lia).
        rewrite firstn_all. reflexivity.
      - destruct restPeaks; [reflexivity | cbn in H; lia]. }
    rewrite Hcopy. cbn [mbind option_bind].
    rewrite bagPeaks_cons. cbn [mbind option_bind fold_left].
    rewrite fold_left_rev_bagFrom. reflexivity.
Qed.

End MerkleRoot.

Section MerkleProofs.
Import SimplifiedMMRVerification.
Variable keccak256 : Z -> Z -> Z.

(** X17: [bit self index] is the binary digit of [self] at [index], for
    every index: for a [uint64] value and an index of 64 or more it is
    false, so an index that was not validated reads a zero digit. *)
Theorem bit_is_the_binary_digit (self index : Z) :
  bit self index = Z.testbit self index
  /\ (0 <= self < 2 ^ 64 -> 64 <= index -> bit self index = false).
Proof.
  split; [apply bit_testbit |].
  intros Hself Hindex. rewrite bit_testbit.
  destruct (Z.eq_dec self 0) as [-> | Hnonzero]; [apply Z.testbit_0_l |].
  apply Z.bits_above_log2; [lia |].
  assert (Z.log2 self < 64) by (apply Z.log2_lt_pow2; lia). lia.
Qed.

(** X18: [calculateMerkleRoot] reads of the bit field only the digits below
    the number of proof items: two bit fields with the same digits there
    give the same root. *)
Theorem calculateMerkleRoot_reads_the_low_digits (leaf : Z) (items : list Z)
    (bitField bitField' : Z) :
  (forall i, 0 <= i < Z.of_nat (length items) ->
             Z.testbit bitField i = Z.testbit bitField' i) ->
  calculateMerkleRoot keccak256 leaf items bitField
  = calculateMerkleRoot keccak256 leaf items bitField'.
Proof. intros Hbits. apply calculateLoop_low_bits. exact Hbits. Qed.

(** X19: the root of a proof of two parts is the root that the second part,
    with the bit field shifted right by the length of the first part, gives
    for the root of the first part: an inner node of the tree with the rest
    of a proof gives the root that the leaf gives with the whole proof. *)
Theorem calculateMerkleRoot_composes (leaf : Z) (items1 items2 : list Z) (bitField : Z) :
  calculateMerkleRoot keccak256 leaf (items1 ++ items2) bitField
  = calculateMerkleRoot keccak256
      (calculateMerkleRoot keccak256 leaf items1 bitField) items2
      (Z.shiftr bitField (Z.of_nat (length items1))).
Proof.
  unfold calculateMerkleRoot. rewrite calculateLoop_app.
  rewrite calculateLoop_shiftr by lia. reflexivity.
Qed.

(** X20: when [verifyMerkleRoot] accepts for one root and one bit field two
    leaves with proofs of the same length, the leaves and the proofs are the
    same, or the two runs of [calculateMerkleRoot] hash at one step two
    different pairs of values to the same hash: two accepted leaves that
    differ show a collision of [keccak256] among the values they hash. *)
Theorem verifyMerkleRoot_binds_the_leaf (root leaf leaf' : Z) (items items' : list Z)
    (bitField : Z) :
  length items = length items' ->
  verifyMerkleRoot keccak256 root leaf items bitField = true ->
  verifyMerkleRoot keccak256 root leaf' items' bitField = true ->
  (leaf = leaf' /\ items = items')
  \/ collidesAt keccak256 (merkleInputs keccak256 items bitField 0 leaf)
       (merkleInputs keccak256 items' bitField 0 leaf').
Proof.
  unfold verifyMerkleRoot, calculateMerkleRoot. intros Hlen Hleaf Hleaf'.
  apply Z.eqb_eq in Hleaf, Hleaf'.
  apply (calculateLoop_binds keccak256 items items' bitField 0); [exact Hlen |].
  rewrite Hleaf, Hleaf'. reflexivity.
Qed.

(** X21: [verifyInclusionProof] reverts exactly when there are 64 proof
    items or more; its array writes and [bagPeaks] never revert.  Otherwise
    it compares with the root the Merkle root of the leaf, hashed after the
    right bagged peak when that is not zero, then hashed with the rest of
    the peaks from the last one to the first one. *)
Theorem verifyInclusionProof_bags_the_peaks (root leaf : Z) (proof : SimplifiedMMRProof) :
  verifyInclusionProof keccak256 root leaf proof
  = (if decide (length (merkleProofItems proof) < 64)%nat
     then Some (baggedRoot keccak256 leaf proof =? root) else None)
  /\ (verifyInclusionProof keccak256 root leaf proof = None
      <-> (64 <= length (merkleProofItems proof))%nat).
Proof.
  rewrite verifyInclusionProof_closed. split; [reflexivity |].
  destruct (decide _) as [H | H]; split; intros H'; first [discriminate H' | lia | reflexivity].
Qed.

(** X22: with no rest of the peaks, no right bagged peak and fewer than 64
    proof items, [verifyInclusionProof] returns what [verifyMerkleRoot]
    returns for the leaf, the items and the bit field of the proof. *)
Theorem single_peak_is_verifyMerkleRoot (root leaf : Z) (proof : SimplifiedMMRProof) :
  restOfThePeaks proof = [] ->
  rightBaggedPeak proof = 0 ->
  (length (merkleProofItems proof) < 64)%nat ->
  verifyInclusionProof keccak256 root leaf proof
  = Some (verifyMerkleRoot keccak256 root leaf (merkleProofItems proof)
            (merkleProofOrderBitField proof)).
Proof.
  intros Hrest Hright Hitems. rewrite verifyInclusionProof_closed.
  destruct (decide _) as [_ | H]; [| contradiction].
  unfold baggedRoot, verifyMerkleRoot. rewrite Hrest, Hright. reflexivity.
Qed.

(** X23: when [verifyInclusionProof] accepts for one root two leaves with
    proofs of one shape (as many rest peaks, a right bagged peak in both or
    in none, as many proof items, the same bit field), the leaves and the
    proofs are the same, or the two runs hash at one step two different
    pairs of values to the same hash: two accepted leaves that differ show
    a collision of [keccak256] among the values they hash. *)
Theorem verifyInclusionProof_binds_the_leaf (root leaf leaf' : Z)
    (proof proof' : SimplifiedMMRProof) :
  length (restOfThePeaks proof) = length (restOfThePeaks proof') ->
  (rightBaggedPeak proof = 0 <-> rightBaggedPeak proof' = 0) ->
  length (merkleProofItems proof) = length (merkleProofItems proof') ->
  merkleProofOrderBitField proof = merkleProofOrderBitField proof' ->
  verifyInclusionProof keccak256 root leaf proof = Some true ->
  verifyInclusionProof keccak256 root leaf' proof' = Some true ->
  (leaf = leaf' /\ proof = proof')
  \/ collidesAt keccak256 (proofInputs keccak256 leaf proof)
       (proofInputs keccak256 leaf' proof').
Proof.
  intros Hrest Hright Hitems Hfield Hleaf Hleaf'.
  rewrite verifyInclusionProof_closed in Hleaf, Hleaf'.
  destruct (decide _) as [_ | _] in Hleaf; [| discriminate Hleaf].
  destruct (decide _) as [_ | _] in Hleaf'; [| discriminate Hleaf'].
  injection Hleaf as Hleaf. injection Hleaf' as Hleaf'.
  apply Z.eqb_eq in Hleaf, Hleaf'. rewrite <- Hleaf' in Hleaf. clear Hleaf'.
  unfold baggedRoot in Hleaf. unfold proofInputs.
  destruct proof as [restPeaks right items bitField].
  destruct proof' as [restPeaks' right' items' bitField'].
  cbn [restOfThePeaks rightBaggedPeak merkleProofItems merkleProofOrderBitField] in *.
  subst bitField'.
  set (merkleRootPeak := calculateMerkleRoot keccak256 leaf items bitField) in *.
  set (merkleRootPeak' := calculateMerkleRoot keccak256 leaf' items' bitField) in *.
  assert (Hmerkle : length (merkleInputs keccak256 items bitField 0 leaf)
                    = length (merkleInputs keccak256 items' bitField 0 leaf'))
    by (rewrite !merkleInputs_length; exact Hitems).
  assert (Hpeak : length (if right =? 0 then [] else [(right, merkleRootPeak)])
                  = length (if right' =? 0 then [] else [(right', merkleRootPeak')])).
  { destruct (Z.eqb_spec right 0) as [Hzero | Hzero];
      destruct (Z.eqb_spec right' 0) as [Hzero' | Hzero']; try reflexivity.
    - exfalso. apply Hzero', Hright, Hzero.
    - exfalso. apply Hzero, Hright, Hzero'. }
  destruct (bagFrom_binds keccak256 _ _ _ _ Hrest Hleaf) as [[Hstart ->] | Hcollision];
    [| right; apply collidesAt_app_r; [exact Hmerkle |];
       apply collidesAt_app_r; [exact Hpeak | exact Hcollision]].
  assert (Hroots : (right = right' /\ merkleRootPeak = merkleRootPeak')
                   \/ collidesAt keccak256
                        (if right =? 0 then [] else [(right, merkleRootPeak)])
                        (if right' =? 0 then [] else [(right', merkleRootPeak')])).
  { destruct (Z.eqb_spec right 0) as [Hzero | Hzero];
      destruct (Z.eqb_spec right' 0) as [Hzero' | Hzero'].
    - left. split; [congruence | exact Hstart].
    - exfalso. apply Hzero', Hright, Hzero.
    - exfalso. apply Hzero, Hright, Hzero'.
    - destruct (decide ((right, merkleRootPeak) = (right', merkleRootPeak')))
        as [[= -> ->] | Hne]; [left; split; reflexivity |].
      right. apply collidesAt_here; assumption. }
  destruct Hroots as [[-> Hroot] | Hcollision];
    [| right; apply collidesAt_app_r; [exact Hmerkle |];
       apply collidesAt_app_l; exact Hcollision].
  destruct (calculateLoop_binds keccak256 items items' bitField 0 leaf leaf' Hitems Hroot)
    as [[-> ->] | Hcollision];
    [left; split; reflexivity | right; apply collidesAt_app_l; exact Hcollision].
Qed.

End MerkleProofs.

Lemma bit_is_the_binary_digit_witness :
  SimplifiedMMRVerification.bit 5 64 = false.
Proof.
  destruct (bit_is_the_binary_digit 5 64) as [_ Hhigh]. apply Hhigh; lia.
Defined.

Lemma calculateMerkleRoot_reads_the_low_digits_witness :
  SimplifiedMMRVerification.calculateMerkleRoot SimplifiedMMRVerification.sampleHash
    7 [11; 12] 1
  = SimplifiedMMRVerification.calculateMerkleRoot SimplifiedMMRVerification.sampleHash
      7 [11; 12] 5.
Proof.
  apply calculateMerkleRoot_reads_the_low_digits. intros i Hi. cbn in Hi.
  assert (Hcases : i = 0 \/ i = 1) by lia. destruct Hcases as [-> | ->]; reflexivity.
Defined.

Lemma verifyMerkleRoot_binds_the_leaf_witness :
  (17 = 0 /\ [0] = [31])
  \/ SimplifiedMMRVerification.collidesAt SimplifiedMMRVerification.sampleHash
       (SimplifiedMMRVerification.merkleInputs SimplifiedMMRVerification.sampleHash [0] 0 0 17)
       (SimplifiedMMRVerification.merkleInputs SimplifiedMMRVerification.sampleHash [31] 0 0 0).
Proof.
  apply (verifyMerkleRoot_binds_the_leaf SimplifiedMMRVerification.sampleHash 528
           17 0 [0] [31] 0); vm_compute; reflexivity.
Defined.

Lemma single_peak_is_verifyMerkleRoot_witness :
  SimplifiedMMRVerification.verifyInclusionProof SimplifiedMMRVerification.sampleHash
    3 7 (SimplifiedMMRVerification.mkSimplifiedMMRProof [] 0 [11; 12; 13] 5)
  = Some (SimplifiedMMRVerification.verifyMerkleRoot SimplifiedMMRVerification.sampleHash
            3 7 [11; 12; 13] 5).
Proof.
  apply (single_peak_is_verifyMerkleRoot SimplifiedMMRVerification.sampleHash 3 7
           (SimplifiedMMRVerification.mkSimplifiedMMRProof [] 0 [11; 12; 13] 5));
    [reflexivity | reflexivity | cbn; lia].
Defined.

Lemma verifyInclusionProof_binds_the_leaf_witness :
  (17 = 0
   /\ SimplifiedMMRVerification.sampleProof17 = SimplifiedMMRVerification.sampleProof0)
  \/ SimplifiedMMRVerification.collidesAt SimplifiedMMRVerification.sampleHash
       (SimplifiedMMRVerification.proofInputs SimplifiedMMRVerification.sampleHash 17
          SimplifiedMMRVerification.sampleProof17)
       (SimplifiedMMRVerification.proofInputs SimplifiedMMRVerification.sampleHash 0
          SimplifiedMMRVerification.sampleProof0).
Proof.
  apply (verifyInclusionProof_binds_the_leaf SimplifiedMMRVerification.sampleHash
           (SimplifiedMMRVerification.baggedRoot SimplifiedMMRVerification.sampleHash 17
              SimplifiedMMRVerification.sampleProof17)
           17 0 SimplifiedMMRVerification.sampleProof17
           SimplifiedMMRVerification.sampleProof0);
    first [ reflexivity | vm_compute; reflexivity | vm_compute; tauto ].
Defined.

(** ** The listeners *)

Section EffectLemmas.
Import effect.
Context {C E : Type}.

Lemma mbind_Returned {A B} (l : list C) (a : A) (k : A -> T C E B) :
  ((l, Returned a) : T C E A) ≫= k = (l ++ calls (k a), result (k a)).
Proof. unfold mbind, T_bind, bind, calls, result. destruct (k a). reflexivity. Qed.

Lemma mbind_Raised {A B} (l : list C) (e : E) (k : A -> T C E B) :
  ((l, Raised e) : T C E A) ≫= k = (l, Raised e).
Proof. reflexivity. Qed.

Lemma mbind_Unfinished {A B} (l : list C) (k : A -> T C E B) :
  ((l, Unfinished) : T C E A) ≫= k = (l, Unfinished).
Proof. reflexivity. Qed.

Lemma mbind_call {A B} (c : C) (e : E) (r : option A) (k : A -> T C E B) :
  call c e r ≫= k
  = match r with
    | Some a => (c :: calls (k a), result (k a))
    | None => ([c], Raised e)
    end.
Proof. destruct r; [exact (mbind_Returned [c] a k) | reflexivity]. Qed.

Lemma mbind_check {A B} (e : E) (r : option A) (k : A -> T C E B) :
  check e r ≫= k = match r with Some a => k a | None => ([], Raised e) end.
Proof.
  destruct r; [| reflexivity]. unfold check. rewrite mbind_Returned.
  destruct (k a); reflexivity.
Qed.

Lemma mbind_mret {A B} (a : A) (k : A -> T C E B) : mret a ≫= k = k a.
Proof.
  unfold mret, T_ret, ret. rewrite mbind_Returned. destruct (k a); reflexivity.
Qed.

Lemma calls_mbind {A B} (m : T C E A) (k : A -> T C E B) :
  calls (m ≫= k)
  = calls m ++ match result m with Returned a => calls (k a) | _ => [] end.
Proof.
  destruct m as [l [a | e |]]; cbn [calls result fst snd].
  - rewrite mbind_Returned. reflexivity.
  - rewrite app_nil_r. reflexivity.
  - rewrite app_nil_r. reflexivity.
Qed.

Lemma result_mbind {A B} (m : T C E A) (k : A -> T C E B) :
  result (m ≫= k)
  = match result m with
    | Returned a => result (k a)
    | Raised e => Raised e
    | Unfinished => Unfinished
    end.
Proof.
  destruct m as [l [a | e |]]; cbn [calls result fst snd]; [| reflexivity | reflexivity].
  rewrite mbind_Returned. reflexivity.
Qed.

End EffectLemmas.

Section SearchProperties.
Import effect parachaincommitment.
Variable li : Listener.
Variables basicNonceToFind incentivizedNonceToFind : Z.

Lemma containsNonce_false (messages : list Message) (nonceToFind : Z) :
  containsNonce messages nonceToFind = false ->
  Forall (fun m => nonceToFind < Nonce m) messages.
Proof.
  induction messages as [| message rest IH]; cbn [containsNonce]; [constructor |].
  destruct (Z.leb_spec (Nonce message) nonceToFind) as [Hle | Hlt]; [discriminate |].
  intros Hrest. constructor; [exact Hlt | apply IH; exact Hrest].
Qed.

Lemma channel_step (d : AuxiliaryDigestItem) (nonceToFind : Z)
    (found appended : SearchState) :
  (checkIfDigestItemContainsNonce li d nonceToFind
   ≫= fun isRelayed : bool => if isRelayed then mret found else mret appended)
  = match getMessagesForDigestItem li d with
    | Some messages =>
        ([GetMessagesForDigestItem d],
         Returned (if containsNonce messages nonceToFind then found else appended))
    | None =>
        ([GetMessagesForDigestItem d], Raised (CallFailed (GetMessagesForDigestItem d)))
    end.
Proof.
  unfold checkIfDigestItemContainsNonce, rpc. rewrite mbind_call.
  destruct (getMessagesForDigestItem li d) as [messages |]; [| reflexivity].
  cbn [calls result fst snd mret T_ret ret]. rewrite mbind_Returned.
  destruct (containsNonce messages nonceToFind); reflexivity.
Qed.

Lemma digestItemAt_Some (n blockHash : Z) (header : types.Header)
    (d : option AuxiliaryDigestItem) :
  getBlockHash li n = Some blockHash ->
  getHeader li blockHash = Some header ->
  getAuxiliaryDigestItem li (types.Digest header) = Some d ->
  digestItemAt li n = d.
Proof.
  intros Hhash Hheader Hitem. unfold digestItemAt.
  rewrite Hhash. cbn. rewrite Hheader. cbn. rewrite Hitem. reflexivity.
Qed.

Lemma not_both_channels (c : ChannelID) :
  bool_decide (c = basicId) && bool_decide (c = incentivizedId) = false.
Proof.
  destruct (bool_decide_reflect (c = basicId)) as [-> |]; [| reflexivity].
  reflexivity.
Qed.

Ltac block_failed :=
  cbn; split; [reflexivity | split; [reflexivity | split; [discriminate |]]];
  intros st' Hst'; discriminate Hst'.

Ltac block_unchanged :=
  cbn; split; [reflexivity | split; [reflexivity | split; [discriminate |]]];
  intros st' [= <-]; cbn; split; [reflexivity | left; reflexivity].

Lemma searchBlock_spec (st : SearchState) :
  blocksRead (calls (searchBlock li basicNonceToFind incentivizedNonceToFind st))
  = [wrap64 (currentBlockNumber st - 1)]
  /\ processed (calls (searchBlock li basicNonceToFind incentivizedNonceToFind st)) = []
  /\ result (searchBlock li basicNonceToFind incentivizedNonceToFind st) <> Unfinished
  /\ forall st',
       result (searchBlock li basicNonceToFind incentivizedNonceToFind st) = Returned st' ->
       currentBlockNumber st' = wrap64 (currentBlockNumber st - 1)
       /\ (digestItems st' = digestItems st
           \/ exists d,
                digestItems st' = digestItems st ++ [d]
                /\ lostAt li basicNonceToFind incentivizedNonceToFind
                     (wrap64 (currentBlockNumber st - 1)) d).
Proof.
  unfold searchBlock, rpc.
  set (n := wrap64 (currentBlockNumber st - 1)).
  rewrite mbind_call.
  destruct (getBlockHash li n) as [blockHash |] eqn:Hhash;
    [| block_failed].
  rewrite mbind_call.
  destruct (getHeader li blockHash) as [header |] eqn:Hheader;
    [| block_failed].
  rewrite mbind_check.
  destruct (getAuxiliaryDigestItem li (types.Digest header)) as [[d |] |] eqn:Hitem;
    [| block_unchanged
     | block_failed].
  pose proof (digestItemAt_Some n blockHash header (Some d) Hhash Hheader Hitem) as Hat.
  destruct (IsCommitment d) eqn:Hcommitment;
    [| block_unchanged].
  cbn [currentBlockNumber basicNonceFound incentivizedNonceFound digestItems].
  pose proof (not_both_channels (ChannelID_ (AsCommitment d))) as Hchannels.
  destruct (bool_decide_reflect (ChannelID_ (AsCommitment d) = basicId)) as [Hbasic | Hbasic];
    cbn [andb] in *.
  - rewrite Hchannels. cbn [andb].
    destruct (basicNonceFound st); cbn [negb].
    + rewrite !mbind_mret. cbn.
      block_unchanged.
    + rewrite channel_step.
      destruct (getMessagesForDigestItem li d) as [messages |] eqn:Hmessages;
        [| block_failed].
      rewrite mbind_Returned.
      destruct (containsNonce messages basicNonceToFind) eqn:Hcontains; cbn.
      * block_unchanged.
      * split; [reflexivity | split; [reflexivity | split; [discriminate |]]].
        intros st' [= <-]; cbn. split; [reflexivity |].
        right. exists d. split; [reflexivity |]. split; [exact Hat |]. split; [exact Hcommitment |].
        exists messages. split; [exact Hmessages |]. left. split; [exact Hbasic |].
        apply containsNonce_false. exact Hcontains.
  - rewrite mbind_mret. cbn [incentivizedNonceFound digestItems basicNonceFound].
    destruct (bool_decide_reflect (ChannelID_ (AsCommitment d) = incentivizedId))
      as [Hincentivized | Hincentivized]; cbn [andb];
      [| block_unchanged].
    destruct (incentivizedNonceFound st); cbn [negb];
      [block_unchanged |].
    rewrite channel_step.
    destruct (getMessagesForDigestItem li d) as [messages |] eqn:Hmessages;
      [| block_failed].
    destruct (containsNonce messages incentivizedNonceToFind) eqn:Hcontains; cbn.
    + block_unchanged.
    + split; [reflexivity | split; [reflexivity | split; [discriminate |]]].
        intros st' [= <-]; cbn. split; [reflexivity |].
      right. exists d. split; [reflexivity |]. split; [exact Hat |]. split; [exact Hcommitment |].
      exists messages. split; [exact Hmessages |]. right. split; [exact Hincentivized |].
      apply containsNonce_false. exact Hcontains.
Qed.

Lemma wrap64_pred (z : Z) : 0 < z < 2 ^ 64 -> wrap64 (z - 1) = z - 1.
Proof. intros H. unfold wrap64. apply Z.mod_small. lia. Qed.

Lemma searchCondition_true (st : SearchState) :
  searchCondition st = true -> currentBlockNumber st <> 0.
Proof.
  unfold searchCondition. intros H. apply andb_true_iff in H as [_ H].
  apply negb_true_iff, Z.eqb_neq in H. exact H.
Qed.

Lemma searchLoop_spec (fuel : nat) : forall st : SearchState,
  0 <= currentBlockNumber st < 2 ^ 64 ->
  currentBlockNumber st <= Z.of_nat fuel ->
  result (searchLoop li fuel basicNonceToFind incentivizedNonceToFind st) <> Unfinished
  /\ processed (calls (searchLoop li fuel basicNonceToFind incentivizedNonceToFind st)) = []
  /\ (exists k : nat,
        Z.of_nat k <= currentBlockNumber st
        /\ blocksRead (calls (searchLoop li fuel basicNonceToFind incentivizedNonceToFind st))
           = countdown (currentBlockNumber st - 1) k)
  /\ forall st',
       result (searchLoop li fuel basicNonceToFind incentivizedNonceToFind st) = Returned st' ->
       exists ns items,
         digestItems st' = digestItems st ++ items
         /\ Forall2 (lostAt li basicNonceToFind incentivizedNonceToFind) ns items
         /\ StronglySorted Z.gt ns
         /\ Forall (fun n => 0 <= n < currentBlockNumber st) ns.
Proof.
  assert (Hstop : forall st : SearchState,
    0 <= currentBlockNumber st ->
    result (mret st : Eff SearchState) <> Unfinished
    /\ processed (calls (mret st : Eff SearchState)) = []
    /\ (exists k : nat,
          Z.of_nat k <= currentBlockNumber st
          /\ blocksRead (calls (mret st : Eff SearchState))
             = countdown (currentBlockNumber st - 1) k)
    /\ forall st',
         result (mret st : Eff SearchState) = Returned st' ->
         exists ns items,
           digestItems st' = digestItems st ++ items
           /\ Forall2 (lostAt li basicNonceToFind incentivizedNonceToFind) ns items
           /\ StronglySorted Z.gt ns
           /\ Forall (fun n => 0 <= n < currentBlockNumber st) ns).
  { intros st Hst. cbn. split; [discriminate |]. split; [reflexivity |].
    split; [exists 0%nat; split; [lia | reflexivity] |].
    intros st' [= <-]. exists [], []. rewrite app_nil_r.
    repeat split; constructor. }
  induction fuel as [| fuel IH]; intros st Hrange Hfuel; cbn [searchLoop].
  - destruct (searchCondition st) eqn:Hcondition; [| apply Hstop; lia].
    apply searchCondition_true in Hcondition. lia.
  - destruct (searchCondition st) eqn:Hcondition; [| apply Hstop; lia].
    apply searchCondition_true in Hcondition.
    destruct (searchBlock_spec st) as (Hread & Hprocessed & Hfinished & Hstate).
    rewrite wrap64_pred in Hread, Hstate by lia.
    rewrite calls_mbind, result_mbind.
    destruct (searchBlock li basicNonceToFind incentivizedNonceToFind st)
      as [l [st1 | e |]]; cbn [calls result fst snd] in *.
    + destruct (Hstate st1 eq_refl) as [Hcurrent Hitems].
      destruct (IH st1) as (IHfinished & IHprocessed & (k & Hk & IHread) & IHstate);
        [lia | lia |].
      split; [exact IHfinished |].
      split; [unfold processed in *; rewrite omap_app, Hprocessed, IHprocessed; reflexivity |].
      split.
      * exists (S k). split; [lia |].
        unfold blocksRead in *. rewrite omap_app, Hread, IHread, Hcurrent. reflexivity.
      * intros st' Hst'. destruct (IHstate st' Hst') as (ns & items & Hdigest & Hlost & Hsorted & Hbelow).
        rewrite Hcurrent in Hbelow.
        destruct Hitems as [Hsame | (d & Hadded & Hd)].
        -- exists ns, items. rewrite Hdigest, Hsame.
           split; [reflexivity |]. split; [exact Hlost |]. split; [exact Hsorted |].
           eapply List.Forall_impl; [| exact Hbelow]. cbn. intros; lia.
        -- exists ((currentBlockNumber st - 1) :: ns), (d :: items).
           rewrite Hdigest, Hadded, <- app_assoc.
           split; [reflexivity |]. split; [constructor; assumption |].
           split.
           ++ constructor; [exact Hsorted |].
              eapply List.Forall_impl; [| exact Hbelow]. cbn. intros; lia.
           ++ constructor; [lia |].
              eapply List.Forall_impl; [| exact Hbelow]. cbn. intros; lia.
    + rewrite app_nil_r. split; [discriminate |]. split; [exact Hprocessed |].
      split; [exists 1%nat; split; [lia | exact Hread] |].
      intros st' [=].
    + contradiction.
Qed.

End SearchProperties.

Section ListFacts.
Context {A B : Type}.

Lemma Forall2_rev (P : A -> B -> Prop) (l : list A) (k : list B) :
  Forall2 P l k -> Forall2 P (rev l) (rev k).
Proof.
  induction 1 as [| a b l k Hab Hlk IH]; cbn [rev]; [constructor |].
  apply Forall2_app; [exact IH | constructor; [exact Hab | constructor]].
Qed.

Lemma StronglySorted_rev_gt (ns : list Z) :
  StronglySorted Z.gt ns -> StronglySorted Z.lt (rev ns).
Proof.
  induction 1 as [| n ns Hsorted IH Hall]; cbn [rev]; [constructor |].
  apply StronglySorted_snoc; [exact IH |].
  apply List.Forall_forall. intros x Hx. rewrite List.Forall_forall in Hall.
  apply Z.gt_lt, Hall, in_rev. exact Hx.
Qed.

Lemma StronglySorted_take (R : A -> A -> Prop) (l : list A) : forall k : nat,
  StronglySorted R l -> StronglySorted R (take k l).
Proof.
  induction l as [| x l IH]; intros [| k] H; cbn [take]; try constructor.
  - apply IH. apply StronglySorted_inv in H as [H _]. exact H.
  - apply Forall_take. apply StronglySorted_inv in H as [_ H]. exact H.
Qed.

Lemma index_middle (pre : list A) (x : A) (post : list A) :
  effect.index (pre ++ x :: post) (Z.of_nat (length pre)) = Some x.
Proof.
  unfold effect.index. rewrite length_app. cbn [length].
  replace ((0 <=? Z.of_nat (length pre))
           && (Z.of_nat (length pre) <? Z.of_nat (length pre + S (length post))))
    with true by (symmetry; apply andb_true_iff; split; [apply Z.leb_le | apply Z.ltb_lt]; lia).
  rewrite Nat2Z.id. apply list_lookup_middle. reflexivity.
Qed.

Lemma assign_middle (pre : list A) (x y : A) (post : list A) :
  effect.assign (pre ++ x :: post) (Z.of_nat (length pre)) y = Some (pre ++ y :: post).
Proof.
  unfold effect.assign. rewrite length_app. cbn [length].
  replace ((0 <=? Z.of_nat (length pre))
           && (Z.of_nat (length pre) <? Z.of_nat (length pre + S (length post))))
    with true by (symmetry; apply andb_true_iff; split; [apply Z.leb_le | apply Z.ltb_lt]; lia).
  rewrite Nat2Z.id. f_equal. rewrite insert_app_r_alt by lia.
  rewrite Nat.sub_diag. reflexivity.
Qed.

End ListFacts.

Section CatchUp.
Import effect parachaincommitment.
Variable li : Listener.

Lemma reverseLoop_spec (fuel : nat) : forall mid pre post : list AuxiliaryDigestItem,
  (length mid <= fuel)%nat ->
  reverseLoop fuel (Z.of_nat (length pre))
    (Z.of_nat (length pre) + Z.of_nat (length mid) - 1) (pre ++ mid ++ post)
  = mret (pre ++ rev mid ++ post).
Proof.
  induction fuel as [| fuel IH]; intros mid pre post Hfuel.
  - destruct mid; [| cbn in Hfuel; lia]. cbn [reverseLoop length rev].
    destruct (Z.ltb_spec (Z.of_nat (length pre)) (Z.of_nat (length pre) + Z.of_nat 0 - 1));
      [lia | reflexivity].
  - cbn [reverseLoop]. destruct mid as [| x mid].
    { destruct (Z.ltb_spec (Z.of_nat (length pre))
                  (Z.of_nat (length pre) + Z.of_nat (length (@nil AuxiliaryDigestItem)) - 1));
        [cbn in *; lia | reflexivity]. }
    destruct mid as [| y mid _] using rev_ind.
    { destruct (Z.ltb_spec (Z.of_nat (length pre))
                  (Z.of_nat (length pre) + Z.of_nat (length [x]) - 1));
        [cbn in *; lia | reflexivity]. }
    rewrite !length_cons, length_app in *. cbn [length] in *.
    destruct (Z.ltb_spec (Z.of_nat (length pre))
                (Z.of_nat (length pre) + Z.of_nat (S (length mid + 1)) - 1)) as [_ | H];
      [| lia].
    replace (Z.of_nat (length pre) + Z.of_nat (S (length mid + 1)) - 1)
      with (Z.of_nat (length (pre ++ x :: mid)))
      by (rewrite length_app; cbn [length]; lia).
    replace (pre ++ (x :: mid ++ [y]) ++ post) with ((pre ++ x :: mid) ++ y :: post)
      by (rewrite <- !app_assoc; cbn; rewrite <- app_assoc; reflexivity).
    rewrite index_middle, mbind_check.
    replace ((pre ++ x :: mid) ++ y :: post) with (pre ++ x :: (mid ++ y :: post))
      by (rewrite <- app_assoc; reflexivity).
    rewrite index_middle, mbind_check, assign_middle, mbind_check.
    replace (pre ++ y :: (mid ++ y :: post)) with ((pre ++ y :: mid) ++ y :: post)
      by (rewrite <- app_assoc; reflexivity).
    replace (length (pre ++ x :: mid)) with (length (pre ++ y :: mid))
      by (rewrite !length_app; reflexivity).
    rewrite assign_middle, mbind_check.
    replace ((pre ++ y :: mid) ++ x :: post) with ((pre ++ [y]) ++ mid ++ (x :: post))
      by (rewrite <- !app_assoc; reflexivity).
    replace (Z.of_nat (length pre) + 1) with (Z.of_nat (length (pre ++ [y])))
      by (rewrite length_app; cbn [length]; lia).
    replace (Z.of_nat (length (pre ++ y :: mid)) - 1)
      with (Z.of_nat (length (pre ++ [y])) + Z.of_nat (length mid) - 1)
      by (rewrite !length_app; cbn [length]; lia).
    rewrite IH by lia. f_equal.
    cbn [rev]. rewrite rev_app_distr. cbn [rev app].
    rewrite <- !app_assoc. reflexivity.
Qed.

Lemma reverseLoop_rev (items : list AuxiliaryDigestItem) :
  reverseLoop (length items) 0 (Z.of_nat (length items) - 1) items = mret (rev items).
Proof.
  pose proof (reverseLoop_spec (length items) items [] []) as H.
  cbn [length app] in H. rewrite !app_nil_r in H. apply H. lia.
Qed.

Lemma forEach_process (items : list AuxiliaryDigestItem) :
  result (forEach (fun d => rpc (ProcessDigestItem d) (processDigestItem li d)) items)
  <> Unfinished
  /\ exists k : nat,
       calls (forEach (fun d => rpc (ProcessDigestItem d) (processDigestItem li d)) items)
       = map ProcessDigestItem (take k items).
Proof.
  induction items as [| d rest [IHresult (k & IHcalls)]]; cbn [forEach].
  - split; [discriminate | exists 0%nat; reflexivity].
  - unfold rpc at 1 3. unfold call.
    destruct (processDigestItem li d) as [[] |]; cbn [bind].
    + destruct (forEach _ rest) as [l r] eqn:Hrest. cbn [calls result fst snd] in *.
      split; [exact IHresult |]. exists (S k). cbn. rewrite IHcalls. reflexivity.
    + split; [discriminate | exists 1%nat; cbn; rewrite take_0; reflexivity].
Qed.

Lemma processed_map (items : list AuxiliaryDigestItem) :
  processed (map ProcessDigestItem items) = items.
Proof.
  unfold processed. induction items as [| d rest IH]; cbn; [reflexivity |].
  f_equal. exact IH.
Qed.

Lemma blocksRead_map (items : list AuxiliaryDigestItem) :
  blocksRead (map ProcessDigestItem items) = [].
Proof. unfold blocksRead. induction items as [| d rest IH]; cbn; [reflexivity | exact IH]. Qed.

Lemma searchForLostCommitments_shape (lastBlockNumber basicNonceToFind
    incentivizedNonceToFind : Z) :
  result (searchForLostCommitments li lastBlockNumber basicNonceToFind
            incentivizedNonceToFind) <> Unfinished
  /\ exists (k : nat) (ns : list Z) (items : list AuxiliaryDigestItem),
       Z.of_nat k <= wrap64 (lastBlockNumber + 1)
       /\ blocksRead (calls (searchForLostCommitments li lastBlockNumber basicNonceToFind
                               incentivizedNonceToFind))
          = countdown (wrap64 (lastBlockNumber + 1) - 1) k
       /\ Forall2 (lostAt li basicNonceToFind incentivizedNonceToFind) ns items
       /\ StronglySorted Z.lt ns
       /\ Forall (fun n => 0 <= n < wrap64 (lastBlockNumber + 1)) ns
       /\ processed (calls (searchForLostCommitments li lastBlockNumber basicNonceToFind
                              incentivizedNonceToFind))
          = items.
Proof.
  unfold searchForLostCommitments.
  set (start := wrap64 (lastBlockNumber + 1)).
  assert (Hstart : 0 <= start < 2 ^ 64) by (apply Z.mod_pos_bound; lia).
  destruct (searchLoop_spec li basicNonceToFind incentivizedNonceToFind (Z.to_nat start)
              (mkSearchState start false false []))
    as (Hfinished & Hprocessed & (k & Hk & Hread) & Hstate);
    [exact Hstart | cbn; lia |].
  cbn [currentBlockNumber digestItems] in *.
  rewrite calls_mbind, result_mbind.
  destruct (searchLoop li (Z.to_nat start) basicNonceToFind incentivizedNonceToFind
              (mkSearchState start false false [])) as [l [st | e |]];
    cbn [calls result fst snd] in *.
  - destruct (Hstate st eq_refl) as (ns & items & Hitems & Hlost & Hsorted & Hbelow).
    cbn [app] in Hitems. rewrite Hitems, reverseLoop_rev, mbind_mret.
    destruct (forEach_process (rev items)) as [Hresult (kp & Hcalls)].
    split; [exact Hresult |].
    exists k, (take kp (rev ns)), (take kp (rev items)).
    split; [exact Hk |].
    split; [unfold blocksRead in *; rewrite omap_app, Hread;
            fold (blocksRead (calls (forEach
              (fun d => rpc (ProcessDigestItem d) (processDigestItem li d)) (rev items))));
            rewrite Hcalls, blocksRead_map, app_nil_r; reflexivity |].
    split; [apply Forall2_take, Forall2_rev; exact Hlost |].
    split; [apply StronglySorted_take, StronglySorted_rev_gt; exact Hsorted |].
    split.
    + apply Forall_take. apply List.Forall_forall. intros n Hn.
      rewrite List.Forall_forall in Hbelow. apply Hbelow, in_rev. exact Hn.
    + unfold processed in *. rewrite omap_app, Hprocessed.
      fold (processed (calls (forEach
              (fun d => rpc (ProcessDigestItem d) (processDigestItem li d)) (rev items)))).
      rewrite Hcalls, processed_map. reflexivity.
  - split; [discriminate |]. exists k, [], []. rewrite app_nil_r.
    repeat split; first [assumption | constructor].
  - contradiction.
Qed.

End CatchUp.

Section QuietChain.
Import effect parachaincommitment.
Variable li : Listener.
Variables basicNonceToFind incentivizedNonceToFind : Z.

Lemma searchBlock_quiet (st : SearchState) :
  quietBlock li (wrap64 (currentBlockNumber st - 1)) ->
  exists l,
    searchBlock li basicNonceToFind incentivizedNonceToFind st
    = (l, Returned (mkSearchState (wrap64 (currentBlockNumber st - 1)) (basicNonceFound st)
                      (incentivizedNonceFound st) (digestItems st)))
    /\ blocksRead l = [wrap64 (currentBlockNumber st - 1)]
    /\ processed l = [].
Proof.
  intros (blockHash & header & Hhash & Hheader & Hitem).
  unfold searchBlock, rpc. rewrite mbind_call, Hhash, mbind_call, Hheader, mbind_check, Hitem.
  cbn. eexists. repeat split.
Qed.

Lemma searchLoop_quiet (fuel : nat) : forall st : SearchState,
  0 <= currentBlockNumber st < 2 ^ 64 ->
  currentBlockNumber st <= Z.of_nat fuel ->
  basicNonceFound st = false ->
  (forall n, 0 <= n < currentBlockNumber st -> quietBlock li n) ->
  exists l,
    searchLoop li fuel basicNonceToFind incentivizedNonceToFind st
    = (l, Returned (mkSearchState 0 (basicNonceFound st) (incentivizedNonceFound st)
                      (digestItems st)))
    /\ blocksRead l = countdown (currentBlockNumber st - 1) (Z.to_nat (currentBlockNumber st))
    /\ processed l = [].
Proof.
  induction fuel as [| fuel IH]; intros [current basic incentivized items] Hrange Hfuel Hbasic
    Hquiet; cbn [currentBlockNumber basicNonceFound incentivizedNonceFound digestItems] in *;
    subst basic; cbn [searchLoop]; unfold searchCondition;
    cbn [currentBlockNumber basicNonceFound incentivizedNonceFound negb orb andb].
  - assert (current = 0) as -> by lia. cbn. eexists. repeat split.
  - destruct (Z.eqb_spec current 0) as [-> | Hcurrent]; cbn [negb].
    + cbn. eexists. repeat split.
    + destruct (searchBlock_quiet (mkSearchState current false incentivized items))
        as (l1 & -> & Hread1 & Hprocessed1).
      { apply Hquiet. cbn [currentBlockNumber]. rewrite wrap64_pred by lia. lia. }
      cbn [currentBlockNumber basicNonceFound incentivizedNonceFound digestItems] in *.
      rewrite wrap64_pred in * by lia. rewrite mbind_Returned.
      destruct (IH (mkSearchState (current - 1) false incentivized items))
        as (l2 & -> & Hread2 & Hprocessed2);
        cbn [currentBlockNumber basicNonceFound incentivizedNonceFound digestItems] in *;
        [lia | lia | reflexivity | intros n Hn; apply Hquiet; lia |].
      cbn [calls result fst snd]. eexists. split; [reflexivity |].
      unfold blocksRead, processed in *. rewrite !omap_app, Hread1, Hread2, Hprocessed1, Hprocessed2.
      split; [| reflexivity].
      replace (Z.to_nat current) with (S (Z.to_nat (current - 1))) by lia. reflexivity.
Qed.

End QuietChain.

Section CatchUpProperties.
Import effect parachaincommitment.
Variable li : Listener.

(** X24: [searchForLostCommitments] comes to an end.  For a last block
    below [2^64 - 1] it asks for the hashes of the blocks from the last
    block downwards, one block after the other without a gap, at most down
    to block 0.  For the last block [2^64 - 1] the [uint64] sum
    [lastBlockNumber + 1] wraps around to 0: no block is read and nothing is
    processed. *)
Theorem lost_commitments_search_counts_down (lastBlockNumber basicNonceToFind
    incentivizedNonceToFind : Z) :
  result (searchForLostCommitments li lastBlockNumber basicNonceToFind
            incentivizedNonceToFind) <> Unfinished
  /\ (0 <= lastBlockNumber < 2 ^ 64 - 1 ->
      exists k : nat,
        Z.of_nat k <= lastBlockNumber + 1
        /\ blocksRead (calls (searchForLostCommitments li lastBlockNumber basicNonceToFind
                                incentivizedNonceToFind))
           = countdown lastBlockNumber k)
  /\ (lastBlockNumber = 2 ^ 64 - 1 ->
      searchForLostCommitments li lastBlockNumber basicNonceToFind incentivizedNonceToFind
      = mret tt).
Proof.
  destruct (searchForLostCommitments_shape li lastBlockNumber basicNonceToFind
              incentivizedNonceToFind)
    as (Hfinished & k & ns & items & Hk & Hread & _).
  split; [exact Hfinished |]. split.
  - intros Hrange. exists k.
    assert (Hstart : wrap64 (lastBlockNumber + 1) = lastBlockNumber + 1)
      by (apply Z.mod_small; lia).
    rewrite Hstart in Hk, Hread. split; [exact Hk |].
    rewrite Hread. f_equal. lia.
  - intros ->. unfold searchForLostCommitments.
    change (wrap64 (2 ^ 64 - 1 + 1)) with 0. reflexivity.
Qed.

(** X25: when no block up to the last block has an auxiliary digest item,
    [searchForLostCommitments] reads every block from the last block down to
    block 0, block 0 too, processes nothing and returns no error. *)
Theorem quiet_chain_is_read_down_to_block_zero (lastBlockNumber basicNonceToFind
    incentivizedNonceToFind : Z) :
  0 <= lastBlockNumber < 2 ^ 64 - 1 ->
  (forall n, 0 <= n <= lastBlockNumber -> quietBlock li n) ->
  result (searchForLostCommitments li lastBlockNumber basicNonceToFind
            incentivizedNonceToFind) = Returned tt
  /\ blocksRead (calls (searchForLostCommitments li lastBlockNumber basicNonceToFind
                          incentivizedNonceToFind))
     = countdown lastBlockNumber (Z.to_nat (lastBlockNumber + 1))
  /\ processed (calls (searchForLostCommitments li lastBlockNumber basicNonceToFind
                         incentivizedNonceToFind)) = [].
Proof.
  intros Hrange Hquiet. unfold searchForLostCommitments.
  assert (Hstart : wrap64 (lastBlockNumber + 1) = lastBlockNumber + 1)
    by (apply Z.mod_small; lia).
  rewrite Hstart.
  destruct (searchLoop_quiet li basicNonceToFind incentivizedNonceToFind
              (Z.to_nat (lastBlockNumber + 1))
              (mkSearchState (lastBlockNumber + 1) false false []))
    as (l & -> & Hread & Hprocessed);
    cbn [currentBlockNumber basicNonceFound incentivizedNonceFound digestItems] in *;
    [lia | lia | reflexivity | intros n Hn; apply Hquiet; lia |].
  rewrite mbind_Returned. cbn [digestItems].
  rewrite (reverseLoop_rev []), mbind_mret. cbn [rev forEach ret calls result fst snd].
  rewrite app_nil_r. split; [reflexivity |]. split; [| exact Hprocessed].
  rewrite Hread. f_equal. lia.
Qed.


(** X27: when its calls succeed, [catchupMissedCommitments] reads the two
    nonces on Ethereum and the two stored nonces and returns without a
    search exactly when the nonces on Ethereum are the compared ones;
    otherwise it goes on as [searchForLostCommitments] from the latest block
    with the nonces on Ethereum.  The compared incentivized nonce is the
    stored one, 0 when there is none; the compared basic nonce is the stored
    one only when an incentivized nonce is stored too, and 0 otherwise. *)
Theorem catchup_compares_the_nonces (latestBlock basicContract incentivizedContract
    ethBasicNonce ethIncentivizedNonce : Z) (basicKey incentivizedKey : list Z)
    (basic incentivized : option Z) :
  newContract li (BasicInbound li) = Some basicContract ->
  newContract li (IncentivizedInbound li) = Some incentivizedContract ->
  ethNonce li basicContract = Some ethBasicNonce ->
  ethNonce li incentivizedContract = Some ethIncentivizedNonce ->
  createStorageKey li BasicOutboundModule = Some basicKey ->
  getStorageLatest li basicKey = Some basic ->
  createStorageKey li IncentivizedOutboundModule = Some incentivizedKey ->
  getStorageLatest li incentivizedKey = Some incentivized ->
  catchupMissedCommitments li latestBlock
  = if (ethBasicNonce =? comparedBasicNonce basic incentivized)
       && (ethIncentivizedNonce =? default 0 incentivized)
    then ([EthNonce basicContract; EthNonce incentivizedContract;
           GetStorageLatest basicKey; GetStorageLatest incentivizedKey], Returned tt)
    else ([EthNonce basicContract; EthNonce incentivizedContract;
           GetStorageLatest basicKey; GetStorageLatest incentivizedKey]
          ++ calls (searchForLostCommitments li latestBlock ethBasicNonce
                      ethIncentivizedNonce),
          result (searchForLostCommitments li latestBlock ethBasicNonce
                    ethIncentivizedNonce)).
Proof.
  intros Hbasic Hincentivized HethBasic HethIncentivized HbasicKey HbasicStored
    HincentivizedKey HincentivizedStored.
  unfold catchupMissedCommitments, rpc.
  rewrite mbind_check, Hbasic, mbind_check, Hincentivized.
  rewrite mbind_call, HethBasic, mbind_call, HethIncentivized.
  rewrite mbind_check, HbasicKey, mbind_call, HbasicStored.
  rewrite mbind_check, HincentivizedKey, mbind_call, HincentivizedStored.
  cbn [calls result fst snd].
  replace (if negb (bool_decide (is_Some incentivized))
           then 0
           else if negb (bool_decide (is_Some basic)) then 0 else default 0 basic)
    with (comparedBasicNonce basic incentivized)
    by (destruct basic, incentivized; reflexivity).
  destruct ((ethBasicNonce =? comparedBasicNonce basic incentivized)
            && (ethIncentivizedNonce =? default 0 incentivized)); reflexivity.
Qed.

End CatchUpProperties.

Lemma lost_commitments_search_counts_down_witness :
  exists k : nat,
    Z.of_nat k <= 8 + 1
    /\ parachaincommitment.blocksRead
         (effect.calls (parachaincommitment.searchForLostCommitments
                          parachaincommitment.sampleChain 8 4 3))
       = countdown 8 k.
Proof.
  destruct (lost_commitments_search_counts_down parachaincommitment.sampleChain 8 4 3)
    as (_ & Hdown & _).
  apply Hdown. lia.
Defined.

Lemma quiet_chain_is_read_down_to_block_zero_witness :
  effect.result (parachaincommitment.searchForLostCommitments
                   parachaincommitment.sampleQuiet 3 4 3) = effect.Returned tt
  /\ parachaincommitment.blocksRead
       (effect.calls (parachaincommitment.searchForLostCommitments
                        parachaincommitment.sampleQuiet 3 4 3))
     = countdown 3 (Z.to_nat (3 + 1))
  /\ parachaincommitment.processed
       (effect.calls (parachaincommitment.searchForLostCommitments
                        parachaincommitment.sampleQuiet 3 4 3)) = [].
Proof.
  apply (quiet_chain_is_read_down_to_block_zero parachaincommitment.sampleQuiet 3 4 3);
    [lia |].
  intros n Hn. exists (1000 + n), (types.mkHeader 0 (1000 + n - 1000) 0 0 []).
  repeat split.
Defined.


Lemma catchup_compares_the_nonces_witness :
  parachaincommitment.catchupMissedCommitments parachaincommitment.sampleStored 8
  = if (4 =? parachaincommitment.comparedBasicNonce (Some 4) None) && (3 =? default 0 None)
    then ([parachaincommitment.EthNonce 11; parachaincommitment.EthNonce 12;
           parachaincommitment.GetStorageLatest [1];
           parachaincommitment.GetStorageLatest [2]], effect.Returned tt)
    else ([parachaincommitment.EthNonce 11; parachaincommitment.EthNonce 12;
           parachaincommitment.GetStorageLatest [1];
           parachaincommitment.GetStorageLatest [2]]
          ++ effect.calls (parachaincommitment.searchForLostCommitments
                             parachaincommitment.sampleStored 8 4 3),
          effect.result (parachaincommitment.searchForLostCommitments
                           parachaincommitment.sampleStored 8 4 3)).
Proof.
  apply (catchup_compares_the_nonces parachaincommitment.sampleStored 8 11 12 4 3 [1] [2]
           (Some 4) None); reflexivity.
Defined.

Section ExtractCommitments.
Import effect parachaincommitmentrelayer.
Variable li : BeefyListener.

Lemma decodeLoop_spec (digest : list types.DigestItem) :
  forall auxDigestItems : list parachaincommitment.AuxiliaryDigestItem,
  calls (decodeLoop li digest auxDigestItems) = []
  /\ match result (decodeLoop li digest auxDigestItems) with
     | Returned items =>
         exists new,
           items = auxDigestItems ++ new
           /\ Forall2 (decodesTo li) (List.filter types.IsOther digest) new
     | Raised e =>
         exists pre item post,
           digest = pre ++ item :: post
           /\ types.IsOther item = true
           /\ decodeFromBytes li (types.AsOther item) = None
           /\ e = DecodeFailed (types.AsOther item)
           /\ Forall (fun earlier => types.IsOther earlier = true ->
                                     is_Some (decodeFromBytes li (types.AsOther earlier))) pre
     | Unfinished => False
     end.
Proof.
  induction digest as [| item rest IH]; intros auxDigestItems; cbn [decodeLoop List.filter].
  - split; [reflexivity |]. cbn. exists []. rewrite app_nil_r. split; [reflexivity | constructor].
  - destruct (types.IsOther item) eqn:Hother.
    + rewrite mbind_check.
      destruct (decodeFromBytes li (types.AsOther item)) as [d |] eqn:Hdecode.
      * destruct (IH (auxDigestItems ++ [d])) as [Hcalls Hresult].
        split; [exact Hcalls |].
        destruct (result (decodeLoop li rest (auxDigestItems ++ [d]))) as [items | e |];
          [| | exact Hresult].
        -- destruct Hresult as (new & -> & Hnew). exists (d :: new).
           rewrite <- app_assoc. split; [reflexivity |]. constructor; assumption.
        -- destruct Hresult as (pre & failing & post & -> & H1 & H2 & H3 & H4).
           exists (item :: pre), failing, post. repeat split; try assumption.
           constructor; [| exact H4]. intros _. rewrite Hdecode. eexists. reflexivity.
      * split; [reflexivity |]. cbn. exists [], item, rest. repeat split; try assumption.
        constructor.
    + destruct (IH auxDigestItems) as [Hcalls Hresult]. split; [exact Hcalls |].
      destruct (result (decodeLoop li rest auxDigestItems)) as [items | e |];
        [exact Hresult | | exact Hresult].
      destruct Hresult as (pre & failing & post & -> & H1 & H2 & H3 & H4).
      exists (item :: pre), failing, post. repeat split; try assumption.
      constructor; [| exact H4]. intros Hitem. rewrite Hother in Hitem. discriminate Hitem.
Qed.

Lemma getMessagesDataForDigestItem_spec (d : parachaincommitment.AuxiliaryDigestItem) :
  (length (calls (getMessagesDataForDigestItem li d)) <= 1)%nat
  /\ match result (getMessagesDataForDigestItem li d) with
     | Returned data =>
         exists storageKey stored,
           makeStorageKey li
             (parachaincommitment.ChannelID_ (parachaincommitment.AsCommitment d))
             (parachaincommitment.Hash (parachaincommitment.AsCommitment d)) = Some storageKey
           /\ localStorageGet li storageKey = Some stored
           /\ data = default [] stored
           /\ calls (getMessagesDataForDigestItem li d) = [LocalStorageGet storageKey]
     | Raised e => True
     | Unfinished => False
     end.
Proof.
  unfold getMessagesDataForDigestItem. rewrite mbind_check.
  destruct (makeStorageKey li _ _) as [storageKey |] eqn:Hkey; [| cbn; split; [lia | exact I]].
  rewrite mbind_call.
  destruct (localStorageGet li storageKey) as [[data |] |] eqn:Hstored; cbn;
    (split; [lia |]); try exact I.
  - exists storageKey, (Some data). repeat split; assumption.
  - exists storageKey, None. repeat split; assumption.
Qed.

Lemma packageLoop_spec (mmrProof ourParaHeadProof : list Z)
    (items : list parachaincommitment.AuxiliaryDigestItem) :
  forall messagePackages : list MessagePackage,
  match result (packageLoop li items mmrProof ourParaHeadProof messagePackages) with
  | Returned packages =>
      exists new,
        packages = messagePackages ++ new
        /\ Forall2 (packageOf li mmrProof ourParaHeadProof) items new
        /\ length (calls (packageLoop li items mmrProof ourParaHeadProof messagePackages))
           = length items
  | Raised e => True
  | Unfinished => False
  end.
Proof.
  induction items as [| d rest IH]; intros messagePackages; cbn [packageLoop].
  - cbn. exists []. rewrite app_nil_r. repeat split. constructor.
  - rewrite result_mbind, calls_mbind.
    destruct (getMessagesDataForDigestItem_spec d) as [_ Hdata].
    destruct (result (getMessagesDataForDigestItem li d)) as [data | e |];
      [| exact I | exact Hdata].
    destruct Hdata as (storageKey & stored & Hkey & Hstored & -> & ->).
    specialize (IH (messagePackages ++
                      [mkMessagePackage
                         (parachaincommitment.ChannelID_ (parachaincommitment.AsCommitment d))
                         (parachaincommitment.Hash (parachaincommitment.AsCommitment d))
                         (default [] stored) ourParaHeadProof mmrProof])).
    destruct (result (packageLoop li rest mmrProof ourParaHeadProof _)) as [packages | e |];
      [| exact I | exact IH].
    destruct IH as (new & -> & Hnew & Hcalls). eexists (_ :: new).
    rewrite <- app_assoc. split; [reflexivity |]. split.
    + constructor; [| exact Hnew]. exists storageKey, stored. repeat split; assumption.
    + cbn [app length]. rewrite Hcalls. reflexivity.
Qed.

(** X28: [getAuxiliaryDigestItems] makes no call.  It returns, in the order
    of the digest, what the [Other] items of the digest decode to, one item
    for each of them; when one of them does not decode it returns no item at
    all, with the error of the first such item. *)
Theorem getAuxiliaryDigestItems_decodes_the_other_items (digest : list types.DigestItem) :
  calls (getAuxiliaryDigestItems li digest) = []
  /\ match result (getAuxiliaryDigestItems li digest) with
     | Returned items => Forall2 (decodesTo li) (List.filter types.IsOther digest) items
     | Raised e =>
         exists pre item post,
           digest = pre ++ item :: post
           /\ types.IsOther item = true
           /\ decodeFromBytes li (types.AsOther item) = None
           /\ e = DecodeFailed (types.AsOther item)
           /\ Forall (fun earlier => types.IsOther earlier = true ->
                                     is_Some (decodeFromBytes li (types.AsOther earlier))) pre
     | Unfinished => False
     end.
Proof.
  unfold getAuxiliaryDigestItems.
  destruct (decodeLoop_spec digest []) as [Hcalls Hresult]. split; [exact Hcalls |].
  destruct (result (decodeLoop li digest [])) as [items | e |]; [| exact Hresult | exact Hresult].
  destruct Hresult as (new & -> & Hnew). exact Hnew.
Qed.

(** X29: when [extractCommitments] returns packages, there is one for each
    [Other] item of the header's digest, in their order, whether the decoded
    item is a commitment or not.  The package has the channel and the hash
    of its item, the two proofs that were given, and the data stored for the
    item; when nothing is stored for it, the package has no data and there
    is no error.  The offchain storage is read once for each package. *)
Theorem extractCommitments_packages_every_item (header : types.Header)
    (mmrProof ourParaHeadProof : list Z) (packages : list MessagePackage) :
  result (extractCommitments li header mmrProof ourParaHeadProof) = Returned packages ->
  exists items,
    Forall2 (decodesTo li) (List.filter types.IsOther (types.Digest header)) items
    /\ Forall2 (packageOf li mmrProof ourParaHeadProof) items packages
    /\ length (calls (extractCommitments li header mmrProof ourParaHeadProof))
       = length packages.
Proof.
  unfold extractCommitments, getAuxiliaryDigestItems.
  rewrite result_mbind, calls_mbind.
  destruct (decodeLoop_spec (types.Digest header) []) as [Hcalls Hresult].
  rewrite Hcalls. cbn [app].
  destruct (result (decodeLoop li (types.Digest header) [])) as [items | e |];
    [| discriminate | discriminate].
  destruct Hresult as (new & -> & Hnew). cbn [app].
  pose proof (packageLoop_spec mmrProof ourParaHeadProof new []) as Hloop.
  intros Hpackages. rewrite Hpackages in Hloop.
  destruct Hloop as (new' & -> & Hpackaged & Hlength). cbn [app] in *.
  exists new. split; [exact Hnew |]. split; [exact Hpackaged |].
  rewrite Hlength. eapply Forall2_length. exact Hpackaged.
Qed.

End ExtractCommitments.

Lemma extractCommitments_packages_every_item_witness :
  exists items,
    Forall2 (parachaincommitmentrelayer.decodesTo (parachaincommitmentrelayer.sampleListener [7]))
      (List.filter types.IsOther (types.Digest parachaincommitmentrelayer.sampleHeader)) items
    /\ Forall2 (parachaincommitmentrelayer.packageOf
                  (parachaincommitmentrelayer.sampleListener [7]) [2] [1])
         items parachaincommitmentrelayer.samplePackages
    /\ length (effect.calls (parachaincommitmentrelayer.extractCommitments
                               (parachaincommitmentrelayer.sampleListener [7])
                               parachaincommitmentrelayer.sampleHeader [2] [1]))
       = length parachaincommitmentrelayer.samplePackages.
Proof.
  apply (extractCommitments_packages_every_item
           (parachaincommitmentrelayer.sampleListener [7])
           parachaincommitmentrelayer.sampleHeader [2] [1]
           parachaincommitmentrelayer.samplePackages).
  vm_compute. reflexivity.
Defined.
